(** * 3dvisual: collision engine and scene codec of [src/src/App.jsx]

    A shallow embedding of the geometric helpers ([eulerToDirection],
    [checkCylinderCollision], [checkSphereCollision],
    [checkCylinderSphereCollision], [detectCollisions]) and of the text
    codec ([handleExport], [handleFileImport]) of the second (cylinders and
    spheres) version of the application, lines 811-1304 of [App.jsx].
    The handlers that edit the scene ([handleObjectSelect], [updateRadius],
    [addObject], [updateParam], [updateRotation], [updatePosition],
    [updateMaterialType], lines 1003-1101 and 1307-1383) and the first
    (cylinders only) version of the helpers and the codec, lines 110-390,
    are embedded beside them.

    Modelling choices, fixed once for the whole development:

    - A JavaScript Number is a [number]: an exact real or [NaN].  Rounding,
      overflow to an infinity and the sign of zero are not modelled.  A
      quotient whose divisor is zero is [NaN]; the embedded functions divide
      by 2, by pi, by a length that vanishes only together with the
      numerator, or behind a guard on the divisor.  A statement that
      depends on what [number] leaves out excludes the case by a
      hypothesis: [negativeZero] for the pieces of a line that [Math.atan2]
      reads, [readsInfinity] for the literal [Infinity], and a bound of
      10^21 where the fixed notation of [toFixed] is described.
    - The object literal [materialMap] is modelled by its own properties;
      [inheritedMember] recognises the names it would find in
      [Object.prototype], which the statements on the codes of the material
      line exclude.
    - Text is a [string] of 8-bit characters; white space is the set of
      characters below 256 that the regular expression class [\s] and
      [String.prototype.trim] recognise.
    - A JavaScript object used as an insertion-ordered dictionary with
      string keys is an association list ([obj]); an array of three numbers
      is a triple. *)

From Stdlib Require Import Reals Lra Lia ZArith NArith List Bool Ascii String.
Import ListNotations.

Set Implicit Arguments.

(* ================================================================== *)
(** * Numbers *)
(* ================================================================== *)

Module Num.

Inductive number : Type :=
| Num (r : R)
| NaN.

Definition lift1 (f : R -> R) (a : number) : number :=
  match a with
  | Num x => Num (f x)
  | NaN => NaN
  end.

Definition lift2 (f : R -> R -> R) (a b : number) : number :=
  match a, b with
  | Num x, Num y => Num (f x y)
  | _, _ => NaN
  end.

Definition add : number -> number -> number := lift2 Rplus.
Definition sub : number -> number -> number := lift2 Rminus.
Definition mul : number -> number -> number := lift2 Rmult.
Definition neg : number -> number := lift1 Ropp.

(** [a / b]: [0 / 0] is NaN in JavaScript. *)
Definition div (a b : number) : number :=
  match a, b with
  | Num x, Num y => if Req_dec_T y 0 then NaN else Num (x / y)
  | _, _ => NaN
  end.

(** [a ** 2] *)
Definition sq (a : number) : number := lift1 (fun x => x ^ 2)%R a.

(** Comparisons: every comparison with NaN is false. *)
Definition ltb (a b : number) : bool :=
  match a, b with
  | Num x, Num y => if Rlt_dec x y then true else false
  | _, _ => false
  end.

Definition leb (a b : number) : bool :=
  match a, b with
  | Num x, Num y => if Rle_dec x y then true else false
  | _, _ => false
  end.

(** [a === b] on numbers *)
Definition eqb (a b : number) : bool :=
  match a, b with
  | Num x, Num y => if Req_dec_T x y then true else false
  | _, _ => false
  end.

End Num.

Export Num.

Declare Scope num_scope.
Delimit Scope num_scope with num.
Bind Scope num_scope with number.
Infix "+" := add : num_scope.
Infix "-" := sub : num_scope.
Infix "*" := mul : num_scope.
Infix "/" := div : num_scope.
Notation "- x" := (neg x) : num_scope.
Infix "<?" := ltb (at level 70) : num_scope.
Infix "<=?" := leb (at level 70) : num_scope.
Infix "===" := eqb (at level 70) : num_scope.

(** The [Math] object. *)
Module Math.

Definition PI : number := Num Rtrigo1.PI.

Definition sin : number -> number := lift1 Rtrigo_def.sin.
Definition cos : number -> number := lift1 Rtrigo_def.cos.

(** [Math.sqrt]: NaN below zero. *)
Definition sqrt (a : number) : number :=
  match a with
  | Num x => if Rlt_dec x 0 then NaN else Num (R_sqrt.sqrt x)
  | NaN => NaN
  end.

Definition abs : number -> number := lift1 Rabs.

(** [Math.max] and [Math.min] of two arguments: NaN if either is. *)
Definition max : number -> number -> number := lift2 Rmax.
Definition min : number -> number -> number := lift2 Rmin.

(** The angle of the point [(x, y)], in (-pi, pi].  [number] has one zero,
    which stands for the positive zero of JavaScript: [Math.atan2] is the one
    function of the program that tells the two zeros apart (a negative zero
    for [y] mirrors the angle, one for [x] turns the angle of a zero [y]
    from 0 to pi), and the importer is its only caller, on numbers that
    [parseFloat] read; [negativeZero] below marks the pieces concerned. *)
Definition Ratan2 (y x : R) : R :=
  if Rlt_dec 0 x then atan (y / x)
  else if Rlt_dec x 0 then
    (if Rlt_dec y 0 then atan (y / x) - Rtrigo1.PI else atan (y / x) + Rtrigo1.PI)
  else if Rlt_dec 0 y then Rtrigo1.PI / 2
  else if Rlt_dec y 0 then - Rtrigo1.PI / 2
  else 0.

Definition atan2 : number -> number -> number := lift2 Ratan2.

End Math.

(* ================================================================== *)
(** * Data model *)
(* ================================================================== *)

(** A three-element array of numbers. *)
Definition vec3 : Type := (number * number * number)%type.

(** [arr.map(f)] on a three-element array *)
Definition map3 (f : number -> number) (v : vec3) : vec3 :=
  let '(a, b, c) := v in (f a, f b, f c).

Module Cylinder.
Record t : Type := mk {
  radiusTop : number;
  radiusBottom : number;
  height : number;
  rotation : vec3;
  position : vec3;
  materialType : string
}.
End Cylinder.

Module Sphere.
Record t : Type := mk {
  radius : number;
  position : vec3;
  materialType : string
}.
End Sphere.

(** An object literal used as a dictionary with string keys that are not
    array indices: its own properties, in insertion order. *)
Definition obj (A : Type) : Type := list (string * A).

(** [Object.keys(o)] *)
Definition keys {A} (o : obj A) : list string := map fst o.

(** [o[k]] *)
Fixpoint get {A} (o : obj A) (k : string) : option A :=
  match o with
  | [] => None
  | (k', v) :: o' => if String.eqb k' k then Some v else get o' k
  end.

(** [o[k] = v]: an existing property keeps its place, a new one goes last. *)
Fixpoint set {A} (o : obj A) (k : string) (v : A) : obj A :=
  match o with
  | [] => [(k, v)]
  | (k', v') :: o' =>
      if String.eqb k' k then (k', v) :: o' else (k', v') :: set o' k v
  end.

(* ================================================================== *)
(** * OrientationMath and CollisionEngine *)
(* ================================================================== *)

Section Geometry.
Local Open Scope num_scope.

Local Notation "0" := (Num 0).
Local Notation "1" := (Num 1).

(** [App.jsx] 812-830 *)
Definition eulerToDirection (rot : vec3) : vec3 :=
  let '(rotX, rotY, rotZ) := rot in
  let '(v0, v1, v2) := (0, 1, 0) in
  let vy := v1 * Math.cos rotX - v2 * Math.sin rotX in
  let vz := v1 * Math.sin rotX + v2 * Math.cos rotX in
  let vx := v0 in
  let vx2 := vx * Math.cos rotY + vz * Math.sin rotY in
  let vz2 := - vx * Math.sin rotY + vz * Math.cos rotY in
  let vy2 := vy in
  let vx3 := vx2 * Math.cos rotZ - vy2 * Math.sin rotZ in
  let vy3 := vx2 * Math.sin rotZ + vy2 * Math.cos rotZ in
  let vz3 := vz2 in
  let len := Math.sqrt (vx3 * vx3 + vy3 * vy3 + vz3 * vz3) in
  (vx3 / len, vy3 / len, vz3 / len).

(** [App.jsx] 833-870 *)
Definition checkCylinderCollision (cyl1 cyl2 : Cylinder.t) : bool :=
  let '(x1, y1, z1) := Cylinder.position cyl1 in
  let '(x2, y2, z2) := Cylinder.position cyl2 in
  let r1 := Cylinder.radiusTop cyl1 in
  let r2 := Cylinder.radiusTop cyl2 in
  let h1 := Cylinder.height cyl1 in
  let h2 := Cylinder.height cyl2 in
  let '(dir1_0, dir1_1, dir1_2) :=
    eulerToDirection (map3 (fun v => v * Math.PI) (Cylinder.rotation cyl1)) in
  let '(dir2_0, dir2_1, dir2_2) :=
    eulerToDirection (map3 (fun v => v * Math.PI) (Cylinder.rotation cyl2)) in
  let '(start1_0, start1_1, start1_2) :=
    (x1 - Num 0.5 * h1 * dir1_0, y1 - Num 0.5 * h1 * dir1_1, z1 - Num 0.5 * h1 * dir1_2) in
  let '(end1_0, end1_1, end1_2) :=
    (x1 + Num 0.5 * h1 * dir1_0, y1 + Num 0.5 * h1 * dir1_1, z1 + Num 0.5 * h1 * dir1_2) in
  let '(start2_0, start2_1, start2_2) :=
    (x2 - Num 0.5 * h2 * dir2_0, y2 - Num 0.5 * h2 * dir2_1, z2 - Num 0.5 * h2 * dir2_2) in
  let '(end2_0, end2_1, end2_2) :=
    (x2 + Num 0.5 * h2 * dir2_0, y2 + Num 0.5 * h2 * dir2_1, z2 + Num 0.5 * h2 * dir2_2) in
  let '(axis1_0, axis1_1, axis1_2) :=
    (end1_0 - start1_0, end1_1 - start1_1, end1_2 - start1_2) in
  let '(axis2_0, axis2_1, axis2_2) :=
    (end2_0 - start2_0, end2_1 - start2_1, end2_2 - start2_2) in
  let '(cross_0, cross_1, cross_2) :=
    (axis1_1 * axis2_2 - axis1_2 * axis2_1,
     axis1_2 * axis2_0 - axis1_0 * axis2_2,
     axis1_0 * axis2_1 - axis1_1 * axis2_0) in
  let crossMag :=
    Math.sqrt (cross_0 * cross_0 + cross_1 * cross_1 + cross_2 * cross_2) in
  if crossMag <? Num 0.001 then
    let centerDist := Math.sqrt (sq (x2 - x1) + sq (y2 - y1) + sq (z2 - z1)) in
    centerDist <? r1 + r2
  else
    let '(vec_0, vec_1, vec_2) :=
      (start2_0 - start1_0, start2_1 - start1_1, start2_2 - start1_2) in
    let dot1 := vec_0 * cross_0 + vec_1 * cross_1 + vec_2 * cross_2 in
    let distance := Math.abs dot1 / crossMag in
    distance <? r1 + r2.

(** [App.jsx] 924-932 *)
Definition checkSphereCollision (sph1 sph2 : Sphere.t) : bool :=
  let '(x1, y1, z1) := Sphere.position sph1 in
  let '(x2, y2, z2) := Sphere.position sph2 in
  let r1 := Sphere.radius sph1 in
  let r2 := Sphere.radius sph2 in
  let epsilon := Num 0.01 in
  let distance := Math.sqrt (sq (x2 - x1) + sq (y2 - y1) + sq (z2 - z1)) in
  distance <? r1 + r2 - epsilon.

(** [App.jsx] 935-999 *)
Definition checkCylinderSphereCollision (cyl : Cylinder.t) (sph : Sphere.t) : bool :=
  let '(cx, cy, cz) := Cylinder.position cyl in
  let '(sx, sy, sz) := Sphere.position sph in
  let cylRadius := Cylinder.radiusTop cyl in
  let sphRadius := Sphere.radius sph in
  let cylHeight := Cylinder.height cyl in
  let '(dir_0, dir_1, dir_2) :=
    eulerToDirection (map3 (fun v => v * Math.PI) (Cylinder.rotation cyl)) in
  let '(start_0, start_1, start_2) :=
    (cx - Num 0.5 * cylHeight * dir_0, cy - Num 0.5 * cylHeight * dir_1,
     cz - Num 0.5 * cylHeight * dir_2) in
  let '(end_0, end_1, end_2) :=
    (cx + Num 0.5 * cylHeight * dir_0, cy + Num 0.5 * cylHeight * dir_1,
     cz + Num 0.5 * cylHeight * dir_2) in
  let '(vec_0, vec_1, vec_2) := (sx - start_0, sy - start_1, sz - start_2) in
  let '(axis_0, axis_1, axis_2) :=
    (end_0 - start_0, end_1 - start_1, end_2 - start_2) in
  let axisLength := Math.sqrt (sq axis_0 + sq axis_1 + sq axis_2) in
  let t := (vec_0 * axis_0 + vec_1 * axis_1 + vec_2 * axis_2) / sq axisLength in
  let tClamped := Math.max 0 (Math.min 1 t) in
  let '(closestPoint_0, closestPoint_1, closestPoint_2) :=
    (start_0 + tClamped * axis_0, start_1 + tClamped * axis_1,
     start_2 + tClamped * axis_2) in
  let distToAxis :=
    Math.sqrt (sq (sx - closestPoint_0) + sq (sy - closestPoint_1)
               + sq (sz - closestPoint_2)) in
  if (tClamped === 0) || (tClamped === 1) then
    let '(capCenter_0, capCenter_1, capCenter_2) :=
      if tClamped === 0 then (start_0, start_1, start_2)
      else (end_0, end_1, end_2) in
    let '(axisNorm_0, axisNorm_1, axisNorm_2) :=
      (axis_0 / axisLength, axis_1 / axisLength, axis_2 / axisLength) in
    let '(v_0, v_1, v_2) :=
      (sx - capCenter_0, sy - capCenter_1, sz - capCenter_2) in
    let distAlongAxis := v_0 * axisNorm_0 + v_1 * axisNorm_1 + v_2 * axisNorm_2 in
    let '(proj_0, proj_1, proj_2) :=
      (sx - distAlongAxis * axisNorm_0, sy - distAlongAxis * axisNorm_1,
       sz - distAlongAxis * axisNorm_2) in
    let radialDist :=
      Math.sqrt (sq (proj_0 - capCenter_0) + sq (proj_1 - capCenter_1)
                 + sq (proj_2 - capCenter_2)) in
    if radialDist <=? cylRadius then
      Math.abs distAlongAxis <? sphRadius
    else
      let rimDist := Math.sqrt (sq (radialDist - cylRadius) + sq distAlongAxis) in
      rimDist <? sphRadius
  else
    distToAxis <? cylRadius + sphRadius.

End Geometry.

(** [App.jsx] 873-921.  The three double loops visit, in this order, the
    pairs [i < j] of cylinder ids, the pairs [i < j] of sphere ids, and every
    (cylinder id, sphere id). *)
Fixpoint pairs {A} (l : list A) : list (A * A) :=
  match l with
  | [] => []
  | x :: l' => map (pair x) l' ++ pairs l'
  end.

Definition checkById {A B} (check : A -> B -> bool) (oa : obj A) (ob : obj B)
    (p : string * string) : bool :=
  match get oa (fst p), get ob (snd p) with
  | Some a, Some b => check a b
  | _, _ => false
  end.

Definition detectCollisions (cylinderParams : obj Cylinder.t)
    (sphereParams : obj Sphere.t) : list (string * string) :=
  let cylinderIds := keys cylinderParams in
  let sphereIds := keys sphereParams in
  filter (checkById checkCylinderCollision cylinderParams cylinderParams)
         (pairs cylinderIds)
  ++ filter (checkById checkSphereCollision sphereParams sphereParams)
            (pairs sphereIds)
  ++ filter (checkById checkCylinderSphereCollision cylinderParams sphereParams)
            (list_prod cylinderIds sphereIds).

(* ================================================================== *)
(** * Text primitives *)
(* ================================================================== *)

Local Open Scope string_scope.

(** White space and line terminators among the characters below 256:
    TAB, LF, VT, FF, CR, SP and NBSP. *)
Definition is_space (c : ascii) : bool :=
  let n := nat_of_ascii c in
  ((9 <=? n) && (n <=? 13) || (n =? 32) || (n =? 160))%nat.

(** [\d] *)
Definition is_digit (c : ascii) : bool :=
  let n := nat_of_ascii c in
  ((48 <=? n) && (n <=? 57))%nat.

Definition digit_val (c : ascii) : N := N_of_ascii c - 48.
Definition digit_char (d : N) : ascii := ascii_of_N (48 + d).

(** [s.split('\n')] for a one-character separator *)
Fixpoint split_on (sep : ascii) (s : string) : list string :=
  match s with
  | "" => [""]
  | String c s' =>
      if Ascii.eqb c sep then "" :: split_on sep s'
      else match split_on sep s' with
           | t :: ts => String c t :: ts
           | [] => [String c ""]
           end
  end.

Fixpoint trimStart (s : string) : string :=
  match s with
  | "" => ""
  | String c s' => if is_space c then trimStart s' else s
  end.

Fixpoint trimEnd (s : string) : string :=
  match s with
  | "" => ""
  | String c s' =>
      let r := trimEnd s' in
      if is_space c && (r =? "") then "" else String c r
  end.

(** [s.trim()] *)
Definition trim (s : string) : string := trimEnd (trimStart s).

(** [s.startsWith(p)] *)
Definition startsWith (s p : string) : bool := prefix p s.

(** [s.split(/\s+/)]: the pieces between maximal runs of white space; a run at
    either end leaves an empty piece there.  [skipping] holds inside a run. *)
Fixpoint split_ws_from (skipping : bool) (s : string) : list string :=
  match s with
  | "" => [""]
  | String c s' =>
      if is_space c then
        if skipping then split_ws_from true s' else "" :: split_ws_from true s'
      else match split_ws_from false s' with
           | t :: ts => String c t :: ts
           | [] => [String c ""]
           end
  end.

Definition split_ws (s : string) : list string := split_ws_from false s.

(** [/^\d+(\s+\d+)*$/] as the automaton of the expression. *)
Inductive re_state : Type :=
| ReStart        (* at [^]: a digit must come *)
| ReDigits       (* inside [\d+] *)
| ReSpaces.      (* inside [\s+] after at least one white space *)

Fixpoint re_run (q : re_state) (s : string) : bool :=
  match s with
  | "" => match q with ReDigits => true | _ => false end
  | String c s' =>
      match q with
      | ReStart => is_digit c && re_run ReDigits s'
      | ReDigits =>
          if is_digit c then re_run ReDigits s'
          else is_space c && re_run ReSpaces s'
      | ReSpaces =>
          if is_space c then re_run ReSpaces s'
          else is_digit c && re_run ReDigits s'
      end
  end.

Definition matchesMaterialLine (line : string) : bool := re_run ReStart line.

(** ** Decimal digits *)

(** The decimal digits of [n], most significant first; [fuel] bounds their
    number. *)
Fixpoint decimal_fuel (fuel : nat) (n : N) : string :=
  match fuel with
  | O => ""
  | S fuel' =>
      if (n <? 10)%N then String (digit_char n) ""
      else decimal_fuel fuel' (n / 10) ++ String (digit_char (n mod 10)) ""
  end.

(** [String(n)] for a non-negative integer below 10^21 *)
Definition decimal (n : N) : string := decimal_fuel (S (N.to_nat (N.log2 n))) n.

(** Reads the longest run of digits at the head of [s]: the value accumulated
    on [acc] (most significant digit first), the number of digits read and the
    rest of the text. *)
Fixpoint scan_digits (acc : N) (count : nat) (s : string) : N * nat * string :=
  match s with
  | "" => (acc, count, "")
  | String c s' =>
      if is_digit c then scan_digits (10 * acc + digit_val c) (S count) s'
      else (acc, count, s)
  end.

(** ** Numbers to text and back *)

Definition LF : string := String "010"%char "".

Fixpoint zeros (k : nat) : string :=
  match k with
  | O => ""
  | S k' => String "0"%char (zeros k')
  end.

(** [x.toFixed(f)] (ECMA-262, Number.prototype.toFixed) for magnitudes below
    10^21: the integer [n] nearest to [|x| * 10^f], the larger one on a tie,
    printed with [f] digits after the point.  From 10^21 on JavaScript prints
    the number as [String(x)] does, in exponent notation; this function
    prints every real in the fixed form. *)
Definition toFixed (x : number) (f : nat) : string :=
  match x with
  | NaN => "NaN"
  | Num r =>
      let s := if Rlt_dec r 0 then "-" else "" in
      let r := if Rlt_dec r 0 then (- r)%R else r in
      let n := Z.to_N (Zfloor (r * 10 ^ f + / 2)) in
      let m := decimal n in
      if (f =? 0)%nat then s ++ m
      else
        let m := if (String.length m <=? f)%nat
                 then zeros (f + 1 - String.length m) ++ m else m in
        let k := String.length m in
        s ++ substring 0 (k - f) m ++ "." ++ substring (k - f) f m
  end.

(** [10 ** k] for an integer [k] *)
Definition pow10 (k : Z) : R :=
  if (0 <=? k)%Z then 10 ^ Z.to_nat k else / 10 ^ Z.to_nat (- k).

(** An optional sign: whether it is a minus, and the rest. *)
Definition scan_sign (s : string) : bool * string :=
  match s with
  | String "-"%char s' => (true, s')
  | String "+"%char s' => (false, s')
  | _ => (false, s)
  end.

(** The value of an ExponentPart at the head of [s], 0 when there is none. *)
Definition scan_exponent (s : string) : Z :=
  match s with
  | String c s' =>
      if Ascii.eqb c "e" || Ascii.eqb c "E" then
        let '(minus, s'') := scan_sign s' in
        let '(v, n, _) := scan_digits 0 0 s'' in
        if (n =? 0)%nat then 0%Z
        else if minus then (- Z.of_N v)%Z else Z.of_N v
      else 0%Z
  | "" => 0%Z
  end.

(** [parseFloat(s)]: the value of the longest prefix of the trimmed text that
    is a StrDecimalLiteral, NaN when there is none.  Two results of
    JavaScript have no counterpart in [number]: the literal [Infinity], which
    reads as NaN here, and the negative zero, which reads as [Num 0];
    [readsInfinity] and [negativeZero] below recognise the texts
    concerned. *)
Definition parseFloat (s : string) : number :=
  let s := trimStart s in
  let '(minus, s) := scan_sign s in
  let '(m1, n1, s1) := scan_digits 0 0 s in
  let '(m2, n2, s2) :=
    match s1 with
    | String "."%char s1' => scan_digits m1 0 s1'
    | _ => (m1, O, s1)
    end in
  if (n1 + n2 =? 0)%nat then NaN
  else
    let e := scan_exponent s2 in
    let v := (IZR (Z.of_N m2) * pow10 (e - Z.of_nat n2))%R in
    Num (if minus then (- v)%R else v).

(** Whether [parseFloat(s)] is the negative zero in JavaScript: a minus
    sign before a literal whose digits are all 0. *)
Definition negativeZero (s : string) : bool :=
  let s := trimStart s in
  let '(minus, s) := scan_sign s in
  let '(m1, n1, s1) := scan_digits 0 0 s in
  let '(m2, n2, s2) :=
    match s1 with
    | String "."%char s1' => scan_digits m1 0 s1'
    | _ => (m1, O, s1)
    end in
  negb (n1 + n2 =? 0)%nat && minus && (m2 =? 0)%N.

(** Whether [parseFloat(s)] is an infinity in JavaScript: the trimmed text
    starts, after an optional sign, with [Infinity]. *)
Definition readsInfinity (s : string) : bool :=
  let '(_, s) := scan_sign (trimStart s) in
  prefix "Infinity" s.

(** [Number(s)] for a token of decimal digits, the only use the importer
    makes of it (on the pieces of a line that matched [/^\d+(\s+\d+)*$/]): a
    non-negative integer, kept exact. *)
Definition NumberOfDigits (s : string) : N :=
  let '(v, _, _) := scan_digits 0 0 s in v.

(* ================================================================== *)
(** * SceneCodec *)
(* ================================================================== *)

(** The part of the React state the codec reads and writes. *)
Record AppState : Type := mkAppState {
  cylinderParams : obj Cylinder.t;
  sphereParams : obj Sphere.t;
  selectedObject : string;
  selectedObjectType : string
}.

(** ** Export, [App.jsx] 1104-1194 *)

(** The own properties of the object literal [materialMap]. *)
Definition materialMap (m : string) : option N :=
  if m =? "concrete" then Some 1%N
  else if m =? "steel" then Some 2%N
  else if m =? "wood" then Some 3%N
  else if m =? "standard" then Some 4%N
  else None.

(** [materialMap[m] || 1] for a name [m] that is not a member of
    [Object.prototype]; for such a member the lookup in JavaScript finds the
    inherited function or object, which is neither a number nor printed as
    one ([inheritedMember] below lists the names). *)
Definition materialInt (m : string) : N :=
  match materialMap m with
  | Some k => k
  | None => 1%N
  end.

(** The property names every object literal inherits from
    [Object.prototype]. *)
Definition inheritedMember (m : string) : bool :=
  existsb (String.eqb m)
    ["constructor"; "hasOwnProperty"; "isPrototypeOf"; "propertyIsEnumerable";
     "toLocaleString"; "toString"; "valueOf"; "__proto__";
     "__defineGetter__"; "__defineSetter__"; "__lookupGetter__";
     "__lookupSetter__"].

(** [`${index}`] *)
Definition showIndex (index : nat) : string := decimal (N.of_nat index).

Section ExportLoops.
Local Open Scope num_scope.

(** Body of the loop at 1130-1144. *)
Definition exportCylinder (acc : string * nat) (entry : string * Cylinder.t)
    : string * nat :=
  let '(exportString, index) := acc in
  let '(id, params) := entry in
  let '(centerX, centerY, centerZ) := Cylinder.position params in
  let '(rotX, rotY, rotZ) :=
    map3 (fun v => v * Math.PI) (Cylinder.rotation params) in
  let height := Cylinder.height params in
  let radius := Cylinder.radiusTop params in
  let '(dx, dy, dz) := eulerToDirection (rotX, rotY, rotZ) in
  let bottomX := centerX - Num 0.5 * height * dx in
  let bottomY := centerY - Num 0.5 * height * dy in
  let bottomZ := centerZ - Num 0.5 * height * dz in
  let dirX := dx * height in
  let dirY := dy * height in
  let dirZ := dz * height in
  (exportString ++ "rcc " ++ showIndex index ++ " " ++ toFixed bottomX 6
     ++ " " ++ toFixed bottomY 6 ++ " " ++ toFixed bottomZ 6
     ++ " " ++ toFixed dirX 6 ++ " " ++ toFixed dirY 6 ++ " " ++ toFixed dirZ 6
     ++ " " ++ toFixed radius 6 ++ LF,
   S index)%string.

(** Body of the loop at 1147-1152. *)
Definition exportSphere (acc : string * nat) (entry : string * Sphere.t)
    : string * nat :=
  let '(exportString, index) := acc in
  let '(id, params) := entry in
  let '(centerX, centerY, centerZ) := Sphere.position params in
  let radius := Sphere.radius params in
  (exportString ++ "sph " ++ showIndex index ++ " " ++ toFixed centerX 6
     ++ " " ++ toFixed centerY 6 ++ " " ++ toFixed centerZ 6
     ++ " " ++ toFixed radius 6 ++ LF,
   S index)%string.

End ExportLoops.

(** Bodies of the loops at 1158-1167 and 1172-1181; they read the material
    of the entry and use it only in the second pair. *)
Definition exportZone {A} (acc : string * nat) (entry : string * A)
    : string * nat :=
  let '(exportString, index) := acc in
  (exportString ++ "zn" ++ showIndex index ++ " 1 " ++ showIndex index ++ LF,
   S index).

Definition exportMaterial {A} (materialType : A -> string)
    (acc : string * nat) (entry : string * A) : string * nat :=
  let '(exportString, index) := acc in
  let '(id, params) := entry in
  (exportString ++ decimal (materialInt (materialType params)) ++ " ", S index).

(** Lines 1119-1183: the text handed to the Blob. *)
Definition exportText (cylinderParams : obj Cylinder.t)
    (sphereParams : obj Sphere.t) : string :=
  let exportString := "" in
  let index := 1%nat in
  let '(exportString, index) :=
    fold_left exportCylinder cylinderParams (exportString, index) in
  let '(exportString, index) :=
    fold_left exportSphere sphereParams (exportString, index) in
  let exportString := exportString ++ "end body" ++ LF in
  let index := 1%nat in
  let '(exportString, index) :=
    fold_left exportZone cylinderParams (exportString, index) in
  let '(exportString, index) :=
    fold_left exportZone sphereParams (exportString, index) in
  let exportString := exportString ++ "end zone" ++ LF in
  let index := 1%nat in
  let '(exportString, index) :=
    fold_left (exportMaterial Cylinder.materialType) cylinderParams
              (exportString, index) in
  let '(exportString, index) :=
    fold_left (exportMaterial Sphere.materialType) sphereParams
              (exportString, index) in
  exportString ++ LF ++ "oesnt worend geom" ++ LF.

(** [handleExport]: [confirm] is the answer [window.confirm] would give to
    the collision warning; the result is the content of the downloaded file,
    [None] when the user cancels. *)
Definition handleExport (st : AppState) (confirm : bool) : option string :=
  let collisions := detectCollisions (cylinderParams st) (sphereParams st) in
  if (0 <? List.length collisions)%nat && negb confirm then None
  else Some (exportText (cylinderParams st) (sphereParams st)).

(** ** Import, [App.jsx] 1202-1304 *)

Module Entry.
(** An element [{ type, id }] of [objectOrder]. *)
Record t : Type := mk { type : string; id : string }.
End Entry.

(** The variables of the [reader.onload] callback that the loop over the
    lines updates. *)
Record ImportState : Type := mkImportState {
  newCylinderParams : obj Cylinder.t;
  newSphereParams : obj Sphere.t;
  cylIndex : nat;
  sphIndex : nat;
  objectOrder : list Entry.t;
  materialList : list N;
  parsingMaterials : bool
}.

Definition initialImportState : ImportState :=
  mkImportState [] [] 1 1 [] [] false.

Section ImportRecords.
Local Open Scope num_scope.

(** Lines 1219-1247: a line that starts with [rcc]. *)
Definition importCylinder (st : ImportState) (line : string) : ImportState :=
  let parts := split_ws line in
  if (9 <=? List.length parts)%nat then
    let posX := parseFloat (nth 2 parts "") in
    let posY := parseFloat (nth 3 parts "") in
    let posZ := parseFloat (nth 4 parts "") in
    let dirX := parseFloat (nth 5 parts "") in
    let dirY := parseFloat (nth 6 parts "") in
    let dirZ := parseFloat (nth 7 parts "") in
    let radius := parseFloat (nth 8 parts "") in
    let height := Math.sqrt (dirX * dirX + dirY * dirY + dirZ * dirZ) in
    let centerX := posX + dirX / Num 2 in
    let centerY := posY + dirY / Num 2 in
    let centerZ := posZ + dirZ / Num 2 in
    let rotY := Math.atan2 dirX dirZ / Math.PI in
    let rotX := Math.atan2 (Math.sqrt (dirX * dirX + dirZ * dirZ)) dirY / Math.PI in
    let id := ("cylinder" ++ showIndex (cylIndex st))%string in
    mkImportState
      (set (newCylinderParams st) id
         (Cylinder.mk radius radius height (rotX, rotY, Num 0)
            (centerX, centerY, centerZ) "concrete"))
      (newSphereParams st)
      (S (cylIndex st))
      (sphIndex st)
      (objectOrder st ++ [Entry.mk "cylinder" id])
      (materialList st)
      (parsingMaterials st)
  else st.

(** Lines 1249-1263: a line that starts with [sph]. *)
Definition importSphere (st : ImportState) (line : string) : ImportState :=
  let parts := split_ws line in
  if (6 <=? List.length parts)%nat then
    let posX := parseFloat (nth 2 parts "") in
    let posY := parseFloat (nth 3 parts "") in
    let posZ := parseFloat (nth 4 parts "") in
    let radius := parseFloat (nth 5 parts "") in
    let id := ("sphere" ++ showIndex (sphIndex st))%string in
    mkImportState
      (newCylinderParams st)
      (set (newSphereParams st) id
         (Sphere.mk radius (posX, posY, posZ) "concrete"))
      (cylIndex st)
      (S (sphIndex st))
      (objectOrder st ++ [Entry.mk "sphere" id])
      (materialList st)
      (parsingMaterials st)
  else st.

End ImportRecords.

(** Body of the loop over the lines, 1216-1269. *)
Definition importLine (st : ImportState) (line : string) : ImportState :=
  let line := trim line in
  if startsWith line "rcc" then importCylinder st line
  else if startsWith line "sph" then importSphere st line
  else if matchesMaterialLine line then
    mkImportState
      (newCylinderParams st) (newSphereParams st) (cylIndex st) (sphIndex st)
      (objectOrder st)
      (map NumberOfDigits (split_ws line))
      true
  else st.

(** [materialMapReverse[matNum] || 'concrete'] *)
Definition materialMapReverse (matNum : N) : option string :=
  match matNum with
  | 1%N => Some "concrete"
  | 2%N => Some "steel"
  | 3%N => Some "wood"
  | 4%N => Some "standard"
  | _ => None
  end.

Definition matTypeOf (matNum : N) : string :=
  match materialMapReverse matNum with
  | Some m => m
  | None => "concrete"
  end.

Definition setCylinderMaterial (c : Cylinder.t) (m : string) : Cylinder.t :=
  Cylinder.mk (Cylinder.radiusTop c) (Cylinder.radiusBottom c)
    (Cylinder.height c) (Cylinder.rotation c) (Cylinder.position c) m.

Definition setSphereMaterial (s : Sphere.t) (m : string) : Sphere.t :=
  Sphere.mk (Sphere.radius s) (Sphere.position s) m.

(** [o[id].materialType = m]; the importer only writes to ids it has just
    created. *)
Definition assignMaterial {A} (setMaterial : A -> string -> A)
    (o : obj A) (id m : string) : obj A :=
  match get o id with
  | Some v => set o id (setMaterial v m)
  | None => o
  end.

(** The callback of [materialList.forEach] at 1278-1286, run from index
    [idx] on. *)
Fixpoint assignMaterials (objectOrder : list Entry.t) (idx : nat)
    (materialList : list N) (o : obj Cylinder.t * obj Sphere.t)
    : obj Cylinder.t * obj Sphere.t :=
  match materialList with
  | [] => o
  | matNum :: rest =>
      let o' :=
        match nth_error objectOrder idx with
        | Some e =>
            let matType := matTypeOf matNum in
            if Entry.type e =? "cylinder" then
              (assignMaterial setCylinderMaterial (fst o) (Entry.id e) matType, snd o)
            else if Entry.type e =? "sphere" then
              (fst o, assignMaterial setSphereMaterial (snd o) (Entry.id e) matType)
            else o
        | None => o
        end in
      assignMaterials objectOrder (S idx) rest o'
  end.

(** Lines 1208-1287: the scene parsed from [text], before it is committed. *)
Definition parseScene (text : string) : obj Cylinder.t * obj Sphere.t :=
  let lines := split_on "010"%char text in
  let st := fold_left importLine lines initialImportState in
  if (0 <? List.length (materialList st))%nat
     && (List.length (objectOrder st) =? List.length (materialList st))%nat
  then assignMaterials (objectOrder st) 0 (materialList st)
         (newCylinderParams st, newSphereParams st)
  else (newCylinderParams st, newSphereParams st).

Definition noDataAlert : string :=
  "No valid cylinder or sphere data found in the file.".

(** The [reader.onload] callback of [handleFileImport] on the text of the
    file: the next state and the alert shown, if any. *)
Definition handleFileImport (text : string) (st : AppState)
    : AppState * option string :=
  let '(newCylinderParams, newSphereParams) := parseScene text in
  if (0 <? List.length (keys newCylinderParams))%nat
     || (0 <? List.length (keys newSphereParams))%nat then
    if (0 <? List.length (keys newCylinderParams))%nat then
      (mkAppState newCylinderParams newSphereParams "cylinder1" "cylinder", None)
    else if (0 <? List.length (keys newSphereParams))%nat then
      (mkAppState newCylinderParams newSphereParams "sphere1" "sphere", None)
    else
      (mkAppState newCylinderParams newSphereParams
         (selectedObject st) (selectedObjectType st), None)
  else (st, Some noDataAlert).

(* ================================================================== *)
(** * Scene editing *)
(* ================================================================== *)

(** ** The handlers of [App], [App.jsx] 1003-1101 and 1307-1383 *)

(** The state [useState] starts from, 1003-1029. *)
Definition initialState : AppState :=
  mkAppState
    [("cylinder1",
      Cylinder.mk (Num 1) (Num 1) (Num 2) (Num 0, Num 0, Num 0)
        (Num 0, Num 0, Num 0) "concrete");
     ("cylinder2",
      Cylinder.mk (Num 1) (Num 1) (Num 2) (Num 0, Num 0, Num 0)
        (Num 2, Num 0, Num 0) "concrete")]
    [("sphere1", Sphere.mk (Num 1) (Num 4, Num 0, Num 0) "concrete")]
    "cylinder1" "cylinder".

(** What a handler leaves behind when it goes through [prev[selectedObject]]
    or writes into an array. *)
Inductive outcome (A : Type) : Type :=
| Done (a : A)    (* it ran to its end and set this state *)
| TypeError       (* it read a property of [undefined] and threw *)
| Malformed.      (* it stored a record or an array of another shape: a
                     record without some of its properties or with one more,
                     an array of more than three elements *)

Arguments Done {A} a.
Arguments TypeError {A}.
Arguments Malformed {A}.

(** [const a = [...v]; a[axisIndex] = value] on a three-element array; an
    index past 2 makes the array longer. *)
Definition setAt (v : vec3) (axisIndex : nat) (value : number) : option vec3 :=
  let '(a, b, c) := v in
  match axisIndex with
  | 0%nat => Some (value, b, c)
  | 1%nat => Some (a, value, c)
  | 2%nat => Some (a, b, value)
  | _ => None
  end.

(** 1037-1040 *)
Definition handleObjectSelect (objectId objectType : string) (st : AppState)
    : AppState :=
  mkAppState (cylinderParams st) (sphereParams st) objectId objectType.

(** The [onChange] of the object list, 1418-1426. *)
Definition selectOnChange (newSelected : string) (st : AppState) : AppState :=
  mkAppState (cylinderParams st) (sphereParams st) newSelected
    (match get (cylinderParams st) newSelected with
     | Some _ => "cylinder"
     | None =>
         match get (sphereParams st) newSelected with
         | Some _ => "sphere"
         | None => selectedObjectType st
         end
     end).

(** 1043-1062.  [{...prev[selectedObject], radiusTop: value, ...}] on a
    missing key is a record of the written properties only. *)
Definition updateRadius (value : number) (st : AppState) : outcome AppState :=
  if selectedObjectType st =? "cylinder" then
    match get (cylinderParams st) (selectedObject st) with
    | Some c =>
        Done (mkAppState
                (set (cylinderParams st) (selectedObject st)
                   (Cylinder.mk value value (Cylinder.height c)
                      (Cylinder.rotation c) (Cylinder.position c)
                      (Cylinder.materialType c)))
                (sphereParams st) (selectedObject st) (selectedObjectType st))
    | None => Malformed
    end
  else
    match get (sphereParams st) (selectedObject st) with
    | Some s =>
        Done (mkAppState (cylinderParams st)
                (set (sphereParams st) (selectedObject st)
                   (Sphere.mk value (Sphere.position s) (Sphere.materialType s)))
                (selectedObject st) (selectedObjectType st))
    | None => Malformed
    end.

(** 1065-1101; [newObjectType] is the choice of the dialog. *)
Definition addObject (newObjectType : string) (st : AppState) : AppState :=
  if newObjectType =? "cylinder" then
    let count := List.length (keys (cylinderParams st)) in
    let newId := "cylinder" ++ showIndex (count + 1) in
    let defaultPosition := (Num (INR count * 2), Num 0, Num 0) in
    mkAppState
      (set (cylinderParams st) newId
         (Cylinder.mk (Num 1) (Num 1) (Num 2) (Num 0, Num 0, Num 0)
            defaultPosition "concrete"))
      (sphereParams st) newId "cylinder"
  else
    let count := List.length (keys (sphereParams st)) in
    let newId := "sphere" ++ showIndex (count + 1) in
    let defaultPosition := (Num (INR count * 2), Num 0, Num 0) in
    mkAppState (cylinderParams st)
      (set (sphereParams st) newId
         (Sphere.mk (Num 1) defaultPosition "concrete"))
      newId "sphere".

(** 1307-1325, for a numeric [value]: [[key]: value] overwrites the numeric
    property of that name; under another name the record changes shape. *)
Definition updateParam (key : string) (value : number) (st : AppState)
    : outcome AppState :=
  if selectedObjectType st =? "cylinder" then
    match get (cylinderParams st) (selectedObject st) with
    | Some c =>
        let put c' :=
          Done (mkAppState (set (cylinderParams st) (selectedObject st) c')
                  (sphereParams st) (selectedObject st) (selectedObjectType st)) in
        if key =? "radiusTop" then
          put (Cylinder.mk value (Cylinder.radiusBottom c) (Cylinder.height c)
                 (Cylinder.rotation c) (Cylinder.position c)
                 (Cylinder.materialType c))
        else if key =? "radiusBottom" then
          put (Cylinder.mk (Cylinder.radiusTop c) value (Cylinder.height c)
                 (Cylinder.rotation c) (Cylinder.position c)
                 (Cylinder.materialType c))
        else if key =? "height" then
          put (Cylinder.mk (Cylinder.radiusTop c) (Cylinder.radiusBottom c) value
                 (Cylinder.rotation c) (Cylinder.position c)
                 (Cylinder.materialType c))
        else Malformed
    | None => Malformed
    end
  else
    match get (sphereParams st) (selectedObject st) with
    | Some s =>
        if key =? "radius" then
          Done (mkAppState (cylinderParams st)
                  (set (sphereParams st) (selectedObject st)
                     (Sphere.mk value (Sphere.position s) (Sphere.materialType s)))
                  (selectedObject st) (selectedObjectType st))
        else Malformed
    | None => Malformed
    end.

(** 1327-1339: nothing happens unless a cylinder is selected. *)
Definition updateRotation (axisIndex : nat) (value : number) (st : AppState)
    : outcome AppState :=
  if selectedObjectType st =? "cylinder" then
    match get (cylinderParams st) (selectedObject st) with
    | Some c =>
        match setAt (Cylinder.rotation c) axisIndex value with
        | Some newRotation =>
            Done (mkAppState
                    (set (cylinderParams st) (selectedObject st)
                       (Cylinder.mk (Cylinder.radiusTop c) (Cylinder.radiusBottom c)
                          (Cylinder.height c) newRotation (Cylinder.position c)
                          (Cylinder.materialType c)))
                    (sphereParams st) (selectedObject st) (selectedObjectType st))
        | None => Malformed
        end
    | None => TypeError
    end
  else Done st.

(** 1341-1363 *)
Definition updatePosition (axisIndex : nat) (value : number) (st : AppState)
    : outcome AppState :=
  if selectedObjectType st =? "cylinder" then
    match get (cylinderParams st) (selectedObject st) with
    | Some c =>
        match setAt (Cylinder.position c) axisIndex value with
        | Some newPosition =>
            Done (mkAppState
                    (set (cylinderParams st) (selectedObject st)
                       (Cylinder.mk (Cylinder.radiusTop c) (Cylinder.radiusBottom c)
                          (Cylinder.height c) (Cylinder.rotation c) newPosition
                          (Cylinder.materialType c)))
                    (sphereParams st) (selectedObject st) (selectedObjectType st))
        | None => Malformed
        end
    | None => TypeError
    end
  else
    match get (sphereParams st) (selectedObject st) with
    | Some s =>
        match setAt (Sphere.position s) axisIndex value with
        | Some newPosition =>
            Done (mkAppState (cylinderParams st)
                    (set (sphereParams st) (selectedObject st)
                       (Sphere.mk (Sphere.radius s) newPosition
                          (Sphere.materialType s)))
                    (selectedObject st) (selectedObjectType st))
        | None => Malformed
        end
    | None => TypeError
    end.

(** 1365-1383; [value] is [e.target.value]. *)
Definition updateMaterialType (value : string) (st : AppState) : outcome AppState :=
  if selectedObjectType st =? "cylinder" then
    match get (cylinderParams st) (selectedObject st) with
    | Some c =>
        Done (mkAppState
                (set (cylinderParams st) (selectedObject st)
                   (setCylinderMaterial c value))
                (sphereParams st) (selectedObject st) (selectedObjectType st))
    | None => Malformed
    end
  else
    match get (sphereParams st) (selectedObject st) with
    | Some s =>
        Done (mkAppState (cylinderParams st)
                (set (sphereParams st) (selectedObject st)
                   (setSphereMaterial s value))
                (selectedObject st) (selectedObjectType st))
    | None => Malformed
    end.

(** [LabeledControl], 624-645: both inputs hand [parseFloat] of their text
    to [onChange]. *)
Definition LabeledControl_onChange {A} (onChange : number -> A) (value : string)
    : A :=
  onChange (parseFloat value).

(* ================================================================== *)
(** * The cylinders-only version, [App.jsx] 1-616 *)
(* ================================================================== *)

(** The file holds an earlier [App] before the one modelled above.  Its
    helpers and handlers are embedded here from their own lines, 110-390;
    that they compute what the later ones do is proved, not assumed. *)
Module V1.

Record AppState : Type := mkAppState {
  cylinderParams : obj Cylinder.t;
  selectedCylinder : string
}.

Section Geometry.
Local Open Scope num_scope.

Local Notation "0" := (Num 0).
Local Notation "1" := (Num 1).

(** 110-128 *)
Definition eulerToDirection (rot : vec3) : vec3 :=
  let '(rotX, rotY, rotZ) := rot in
  let '(v0, v1, v2) := (0, 1, 0) in
  let vy := v1 * Math.cos rotX - v2 * Math.sin rotX in
  let vz := v1 * Math.sin rotX + v2 * Math.cos rotX in
  let vx := v0 in
  let vx2 := vx * Math.cos rotY + vz * Math.sin rotY in
  let vz2 := - vx * Math.sin rotY + vz * Math.cos rotY in
  let vy2 := vy in
  let vx3 := vx2 * Math.cos rotZ - vy2 * Math.sin rotZ in
  let vy3 := vx2 * Math.sin rotZ + vy2 * Math.cos rotZ in
  let vz3 := vz2 in
  let len := Math.sqrt (vx3 * vx3 + vy3 * vy3 + vz3 * vz3) in
  (vx3 / len, vy3 / len, vz3 / len).

(** 131-177 *)
Definition checkCylinderCollision (cyl1 cyl2 : Cylinder.t) : bool :=
  let '(x1, y1, z1) := Cylinder.position cyl1 in
  let '(x2, y2, z2) := Cylinder.position cyl2 in
  let r1 := Cylinder.radiusTop cyl1 in
  let r2 := Cylinder.radiusTop cyl2 in
  let h1 := Cylinder.height cyl1 in
  let h2 := Cylinder.height cyl2 in
  let '(dir1_0, dir1_1, dir1_2) :=
    eulerToDirection (map3 (fun v => v * Math.PI) (Cylinder.rotation cyl1)) in
  let '(dir2_0, dir2_1, dir2_2) :=
    eulerToDirection (map3 (fun v => v * Math.PI) (Cylinder.rotation cyl2)) in
  let '(start1_0, start1_1, start1_2) :=
    (x1 - Num 0.5 * h1 * dir1_0, y1 - Num 0.5 * h1 * dir1_1, z1 - Num 0.5 * h1 * dir1_2) in
  let '(end1_0, end1_1, end1_2) :=
    (x1 + Num 0.5 * h1 * dir1_0, y1 + Num 0.5 * h1 * dir1_1, z1 + Num 0.5 * h1 * dir1_2) in
  let '(start2_0, start2_1, start2_2) :=
    (x2 - Num 0.5 * h2 * dir2_0, y2 - Num 0.5 * h2 * dir2_1, z2 - Num 0.5 * h2 * dir2_2) in
  let '(end2_0, end2_1, end2_2) :=
    (x2 + Num 0.5 * h2 * dir2_0, y2 + Num 0.5 * h2 * dir2_1, z2 + Num 0.5 * h2 * dir2_2) in
  let '(axis1_0, axis1_1, axis1_2) :=
    (end1_0 - start1_0, end1_1 - start1_1, end1_2 - start1_2) in
  let '(axis2_0, axis2_1, axis2_2) :=
    (end2_0 - start2_0, end2_1 - start2_1, end2_2 - start2_2) in
  let '(cross_0, cross_1, cross_2) :=
    (axis1_1 * axis2_2 - axis1_2 * axis2_1,
     axis1_2 * axis2_0 - axis1_0 * axis2_2,
     axis1_0 * axis2_1 - axis1_1 * axis2_0) in
  let crossMag :=
    Math.sqrt (cross_0 * cross_0 + cross_1 * cross_1 + cross_2 * cross_2) in
  if crossMag <? Num 0.001 then
    let centerDist := Math.sqrt (sq (x2 - x1) + sq (y2 - y1) + sq (z2 - z1)) in
    centerDist <? r1 + r2
  else
    let '(vec_0, vec_1, vec_2) :=
      (start2_0 - start1_0, start2_1 - start1_1, start2_2 - start1_2) in
    let dot1 := vec_0 * cross_0 + vec_1 * cross_1 + vec_2 * cross_2 in
    let distance := Math.abs dot1 / crossMag in
    distance <? r1 + r2.

End Geometry.

(** 180-198 *)
Definition detectCollisions (cylinderParams : obj Cylinder.t)
    : list (string * string) :=
  let cylinderIds := keys cylinderParams in
  filter (checkById checkCylinderCollision cylinderParams cylinderParams)
         (pairs cylinderIds).

(** The own properties of the [materialMap] of 276-281, and
    [materialMap[m] || 1]. *)
Definition materialMap (m : string) : option N :=
  if m =? "concrete" then Some 1%N
  else if m =? "steel" then Some 2%N
  else if m =? "wood" then Some 3%N
  else if m =? "standard" then Some 4%N
  else None.

Definition materialInt (m : string) : N :=
  match materialMap m with
  | Some k => k
  | None => 1%N
  end.

Section ExportLoops.
Local Open Scope num_scope.

(** Body of the loop at 286-305. *)
Definition exportCylinder (acc : string * nat) (entry : string * Cylinder.t)
    : string * nat :=
  let '(exportString, index) := acc in
  let '(id, params) := entry in
  let '(centerX, centerY, centerZ) := Cylinder.position params in
  let '(rotX, rotY, rotZ) :=
    map3 (fun v => v * Math.PI) (Cylinder.rotation params) in
  let height := Cylinder.height params in
  let radius := Cylinder.radiusTop params in
  let '(dx, dy, dz) := eulerToDirection (rotX, rotY, rotZ) in
  let bottomX := centerX - Num 0.5 * height * dx in
  let bottomY := centerY - Num 0.5 * height * dy in
  let bottomZ := centerZ - Num 0.5 * height * dz in
  let dirX := dx * height in
  let dirY := dy * height in
  let dirZ := dz * height in
  (exportString ++ "rcc " ++ showIndex index ++ " " ++ toFixed bottomX 6
     ++ " " ++ toFixed bottomY 6 ++ " " ++ toFixed bottomZ 6
     ++ " " ++ toFixed dirX 6 ++ " " ++ toFixed dirY 6 ++ " " ++ toFixed dirZ 6
     ++ " " ++ toFixed radius 6 ++ LF,
   S index)%string.

End ExportLoops.

(** Bodies of the loops at 309-313 and 318-322. *)
Definition exportZone (acc : string * nat) (entry : string * Cylinder.t)
    : string * nat :=
  let '(exportString, index) := acc in
  (exportString ++ "zn" ++ showIndex index ++ " 1 " ++ showIndex index ++ LF,
   S index).

Definition exportMaterial (acc : string * nat) (entry : string * Cylinder.t)
    : string * nat :=
  let '(exportString, index) := acc in
  let '(id, params) := entry in
  (exportString ++ decimal (materialInt (Cylinder.materialType params)) ++ " ", S index).

(** 276-326: the text handed to the Blob. *)
Definition exportText (cylinderParams : obj Cylinder.t) : string :=
  let exportString := "" in
  let index := 1%nat in
  let '(exportString, index) :=
    fold_left exportCylinder cylinderParams (exportString, index) in
  let exportString := exportString ++ "end body" ++ LF in
  let index := 1%nat in
  let '(exportString, index) :=
    fold_left exportZone cylinderParams (exportString, index) in
  let exportString := exportString ++ "end zone" ++ LF in
  let index := 1%nat in
  let '(exportString, index) :=
    fold_left exportMaterial cylinderParams (exportString, index) in
  exportString ++ LF ++ "oesnt worend geom" ++ LF.

(** 260-338; [confirm] as in [handleExport] above. *)
Definition handleExport (st : AppState) (confirm : bool) : option string :=
  let collisions := detectCollisions (cylinderParams st) in
  if (0 <? List.length collisions)%nat && negb confirm then None
  else Some (exportText (cylinderParams st)).

(** The variables the loop of 357-380 updates. *)
Record ImportState : Type := mkImportState {
  newCylinderParams : obj Cylinder.t;
  index : nat
}.

Section ImportRecords.
Local Open Scope num_scope.

(** Body of the loop, 358-379. *)
Definition importLine (st : ImportState) (line : string) : ImportState :=
  let line := trim line in
  if startsWith line "rcc" then
    let parts := split_ws line in
    if (9 <=? List.length parts)%nat then
      let posX := parseFloat (nth 2 parts "") in
      let posY := parseFloat (nth 3 parts "") in
      let posZ := parseFloat (nth 4 parts "") in
      let rotX := parseFloat (nth 5 parts "") in
      let rotY := parseFloat (nth 6 parts "") in
      let topDiameter := parseFloat (nth 7 parts "") in
      let bottomDiameter := parseFloat (nth 8 parts "") in
      mkImportState
        (set (newCylinderParams st) ("cylinder" ++ showIndex (index st))%string
           (Cylinder.mk (topDiameter / Num 2) (bottomDiameter / Num 2) (Num 2)
              (rotX, rotY, Num 0) (posX, posY, posZ) "concrete"))
        (S (index st))
    else st
  else st.

End ImportRecords.

Definition noDataAlert : string := "No valid cylinder data found in the file.".

(** The [reader.onload] callback of 352-388 on the text of the file. *)
Definition handleFileImport (text : string) (st : AppState)
    : AppState * option string :=
  let lines := split_on "010"%char text in
  let st' := fold_left importLine lines (mkImportState [] 1) in
  if (0 <? List.length (keys (newCylinderParams st')))%nat then
    (mkAppState (newCylinderParams st') "cylinder1", None)
  else (st, Some noDataAlert).

End V1.

(* ================================================================== *)
(** * Vocabulary of the specification *)
(* ================================================================== *)

(** Points and vectors with real coordinates, and the finite [vec3] they
    denote. *)
Definition rvec : Type := (R * R * R)%type.

Definition inj (v : rvec) : vec3 :=
  let '(a, b, c) := v in (Num a, Num b, Num c).

Section RealVectors.
Local Open Scope R_scope.

Definition vadd (u v : rvec) : rvec :=
  let '(u0, u1, u2) := u in let '(v0, v1, v2) := v in (u0 + v0, u1 + v1, u2 + v2).

Definition vsub (u v : rvec) : rvec :=
  let '(u0, u1, u2) := u in let '(v0, v1, v2) := v in (u0 - v0, u1 - v1, u2 - v2).

Definition vscale (k : R) (v : rvec) : rvec :=
  let '(v0, v1, v2) := v in (k * v0, k * v1, k * v2).

Definition vdot (u v : rvec) : R :=
  let '(u0, u1, u2) := u in let '(v0, v1, v2) := v in u0 * v0 + u1 * v1 + u2 * v2.

Definition vcross (u v : rvec) : rvec :=
  let '(u0, u1, u2) := u in
  let '(v0, v1, v2) := v in
  (u1 * v2 - u2 * v1, u2 * v0 - u0 * v2, u0 * v1 - u1 * v0).

(** Euclidean magnitude and distance *)
Definition vnorm (v : rvec) : R := sqrt (vdot v v).
Definition vdist (p q : rvec) : R := vnorm (vsub q p).

(** The 6-decimal rounding [toFixed(6)] prints: half away from zero. *)
Definition round6 (x : R) : R :=
  if Rlt_dec x 0 then - (IZR (Zfloor (- x * 10 ^ 6 + / 2)) / 10 ^ 6)
  else IZR (Zfloor (x * 10 ^ 6 + / 2)) / 10 ^ 6.

End RealVectors.

Section GeometryVocabulary.
Local Open Scope R_scope.

(** [x < y] as the boolean the code returns *)
Definition Rltb (x y : R) : bool := if Rlt_dec x y then true else false.

(** The vector [eulerToDirection] reaches from finite angles before it
    normalises: (0,1,0) turned about X, then Y, then Z. *)
Definition rotated (rx ry rz : R) : rvec :=
  (sin rx * sin ry * cos rz - cos rx * sin rz,
   sin rx * sin ry * sin rz + cos rx * cos rz,
   sin rx * cos ry).

(** The end points of the axis segment: center -/+ 0.5 * height * direction. *)
Definition axisStart (c : rvec) (h : R) (d : rvec) : rvec :=
  vsub c (vscale (0.5 * h) d).
Definition axisEnd (c : rvec) (h : R) (d : rvec) : rvec :=
  vadd c (vscale (0.5 * h) d).

(** Distance between the lines through [p1] along [a1] and through [p2]
    along [a2]: the vector between the origins projected on the normalised
    cross product. *)
Definition lineDistance (p1 a1 p2 a2 : rvec) : R :=
  Rabs (vdot (vsub p2 p1) (vcross a1 a2)) / vnorm (vcross a1 a2).

(** Parameter of the projection of [s] on the segment from [p0] to [p1], and
    its clamp to [0,1]. *)
Definition segmentParam (s p0 p1 : rvec) : R :=
  vdot (vsub s p0) (vsub p1 p0) / (vnorm (vsub p1 p0)) ^ 2.

Definition clamp01 (t : R) : R := Rmax 0 (Rmin 1 t).

End GeometryVocabulary.

Section CollisionRules.
Local Open Scope R_scope.

(** The rule of the cylinder-cylinder test, with the magnitude that decides
    between its two branches left open: below 1e-3 the centers are compared,
    otherwise the lines through the axes. *)
Definition cylinderRule (crossMagnitude : R) (c1 c2 : rvec) (h1 h2 r1 r2 : R)
    (d1 d2 : rvec) : Prop :=
  (crossMagnitude < 0.001 /\ vdist c1 c2 < r1 + r2)
  \/ (~ crossMagnitude < 0.001
      /\ lineDistance (axisStart c1 h1 d1) d1 (axisStart c2 h2 d2) d2 < r1 + r2).

(** Offsets of the center [c2] from [c1] along and across the unit
    direction [d]. *)
Definition axialOffset (c1 c2 d : rvec) : R := vdot (vsub c2 c1) d.
Definition perpOffset (c1 c2 d : rvec) : R :=
  vnorm (vsub (vsub c2 c1) (vscale (axialOffset c1 c2 d) d)).

End CollisionRules.

Section TextVocabulary.

(** Every character of [s] satisfies [P]. *)
Fixpoint all_chars (P : ascii -> bool) (s : string) : bool :=
  match s with
  | "" => true
  | String c s' => P c && all_chars P s'
  end.

(** A piece [split(/\s+/)] can return from inside a line: not empty, no white
    space. *)
Definition is_token (t : string) : bool :=
  negb (t =? "") && all_chars (fun c => negb (is_space c)) t.

(** The value of a run of digits, most significant first, on top of [acc]. *)
Fixpoint horner (acc : N) (ds : string) : N :=
  match ds with
  | "" => acc
  | String c ds' => horner (10 * acc + digit_val c) ds'
  end.

(** No line feed in [s]. *)
Definition no_LF (s : string) : bool :=
  all_chars (fun c => negb (Ascii.eqb c "010")) s.

(** The digits [toFixed(6)] prints before and after the point for the
    integer [n] of millionths. *)
Definition fixedDigits (n : N) : string * string :=
  let m := decimal n in
  let m := if (String.length m <=? 6)%nat
           then zeros (6 + 1 - String.length m) ++ m else m in
  let k := String.length m in
  (substring 0 (k - 6) m, substring (k - 6) 6 m).

(** Pieces joined by single blanks. *)
Definition join_sp (ts : list string) : string := concat " " ts.

(** Lines, each closed by a line feed. *)
Fixpoint unlines (ls : list string) : string :=
  match ls with
  | [] => ""
  | l :: ls' => l ++ LF ++ unlines ls'
  end.

End TextVocabulary.

Section ImportVocabulary.
Local Open Scope num_scope.

(** Identifiers the importer hands out. *)
Definition cylinderId (i : nat) : string := ("cylinder" ++ showIndex i)%string.
Definition sphereId (i : nat) : string := ("sphere" ++ showIndex i)%string.

(** The cylinder and the sphere the importer builds from the pieces of an
    [rcc] or [sph] line. *)
Definition parsedCylinder (parts : list string) : Cylinder.t :=
  let posX := parseFloat (nth 2 parts "") in
  let posY := parseFloat (nth 3 parts "") in
  let posZ := parseFloat (nth 4 parts "") in
  let dirX := parseFloat (nth 5 parts "") in
  let dirY := parseFloat (nth 6 parts "") in
  let dirZ := parseFloat (nth 7 parts "") in
  let radius := parseFloat (nth 8 parts "") in
  Cylinder.mk radius radius
    (Math.sqrt (dirX * dirX + dirY * dirY + dirZ * dirZ))
    (Math.atan2 (Math.sqrt (dirX * dirX + dirZ * dirZ)) dirY / Math.PI,
     Math.atan2 dirX dirZ / Math.PI, Num 0)
    (posX + dirX / Num 2, posY + dirY / Num 2, posZ + dirZ / Num 2)
    "concrete".

Definition parsedSphere (parts : list string) : Sphere.t :=
  Sphere.mk (parseFloat (nth 5 parts ""))
    (parseFloat (nth 2 parts ""), parseFloat (nth 3 parts ""),
     parseFloat (nth 4 parts ""))
    "concrete".

(** A primitive of the scene. *)
Inductive prim : Type :=
| PCyl (c : Cylinder.t)
| PSph (s : Sphere.t).

(** The record a line contributes, if it is recognised: an [rcc] line of at
    least 9 pieces or a [sph] line of at least 6. *)
Definition parseLine (line : string) : option prim :=
  let line := trim line in
  if startsWith line "rcc" then
    let parts := split_ws line in
    if (9 <=? List.length parts)%nat then Some (PCyl (parsedCylinder parts)) else None
  else if startsWith line "sph" then
    let parts := split_ws line in
    if (6 <=? List.length parts)%nat then Some (PSph (parsedSphere parts)) else None
  else None.

(** The recognised records of a file, in the order of the file. *)
Fixpoint parsedPrims (lines : list string) : list prim :=
  match lines with
  | [] => []
  | l :: ls =>
      match parseLine l with
      | Some p => p :: parsedPrims ls
      | None => parsedPrims ls
      end
  end.

(** A line of nothing but integers separated by white space, once trimmed,
    and its codes. *)
Definition isMaterialLine (line : string) : bool := matchesMaterialLine (trim line).
Definition codesOf (line : string) : list N :=
  map NumberOfDigits (split_ws (trim line)).

(** The codes of the last all-integer line, starting from [codes]. *)
Definition lastCodesFrom (codes : list N) (lines : list string) : list N :=
  fold_left (fun acc l => if isMaterialLine l then codesOf l else acc) lines codes.

Definition lastCodes (lines : list string) : list N := lastCodesFrom [] lines.

Definition isCyl (p : prim) : bool :=
  match p with PCyl _ => true | PSph _ => false end.

Definition countCyl (ps : list prim) : nat := List.length (filter isCyl ps).
Definition countSph (ps : list prim) : nat :=
  List.length (filter (fun p => negb (isCyl p)) ps).

(** The two dictionaries and the encounter order for a list of primitives,
    with identifiers numbered per type from [ci] and [si]. *)
Fixpoint cylindersFrom (ps : list prim) (ci : nat) : obj Cylinder.t :=
  match ps with
  | [] => []
  | PCyl c :: ps' => (cylinderId ci, c) :: cylindersFrom ps' (S ci)
  | PSph _ :: ps' => cylindersFrom ps' ci
  end.

Fixpoint spheresFrom (ps : list prim) (si : nat) : obj Sphere.t :=
  match ps with
  | [] => []
  | PCyl _ :: ps' => spheresFrom ps' si
  | PSph s :: ps' => (sphereId si, s) :: spheresFrom ps' (S si)
  end.

Fixpoint entriesFrom (ps : list prim) (ci si : nat) : list Entry.t :=
  match ps with
  | [] => []
  | PCyl _ :: ps' => Entry.mk "cylinder" (cylinderId ci) :: entriesFrom ps' (S ci) si
  | PSph _ :: ps' => Entry.mk "sphere" (sphereId si) :: entriesFrom ps' ci (S si)
  end.

Definition primMaterial (p : prim) : string :=
  match p with
  | PCyl c => Cylinder.materialType c
  | PSph s => Sphere.materialType s
  end.

Definition setPrimMaterial (p : prim) (m : string) : prim :=
  match p with
  | PCyl c => PCyl (setCylinderMaterial c m)
  | PSph s => PSph (setSphereMaterial s m)
  end.

(** Materials given to the primitives by position. *)
Fixpoint withMaterials (ps : list prim) (ms : list string) : list prim :=
  match ps, ms with
  | p :: ps', m :: ms' => setPrimMaterial p m :: withMaterials ps' ms'
  | _, _ => ps
  end.

(** The primitives of a file with their final materials: the codes of the
    last all-integer line apply when there are as many as primitives. *)
Definition importedPrims (text : string) : list prim :=
  let lines := split_on "010" text in
  let ps := parsedPrims lines in
  let codes := lastCodes lines in
  if (0 <? List.length codes)%nat && (List.length ps =? List.length codes)%nat
  then withMaterials ps (map matTypeOf codes)
  else ps.

End ImportVocabulary.

(** The state of the import loop after the primitives [ps] were recognised
    and [codes] is the material list read last. *)
Definition represents (st : ImportState) (ps : list prim) (codes : list N) : Prop :=
  newCylinderParams st = cylindersFrom ps 1
  /\ newSphereParams st = spheresFrom ps 1
  /\ cylIndex st = S (countCyl ps)
  /\ sphIndex st = S (countSph ps)
  /\ objectOrder st = entriesFrom ps 1 1
  /\ materialList st = codes.

(** The last line of the file that consists of integers only, if any. *)
Definition lastMaterialLineFrom (acc : option string) (lines : list string)
    : option string :=
  fold_left (fun acc l => if isMaterialLine l then Some l else acc) lines acc.

Definition lastMaterialLine (lines : list string) : option string :=
  lastMaterialLineFrom None lines.

(** The state [handleFileImport] commits for a non-empty list of imported
    primitives. *)
Definition committedState (ps : list prim) : AppState :=
  mkAppState (cylindersFrom ps 1) (spheresFrom ps 1)
    (if (0 <? countCyl ps)%nat then "cylinder1" else "sphere1")
    (if (0 <? countCyl ps)%nat then "cylinder" else "sphere").

Section ExportVocabulary.
Local Open Scope num_scope.

(** The pieces of the body line of a cylinder: [rcc], the index, the base
    [center - 0.5 * height * direction], the axis [direction * height] and
    the radius, every real with 6 decimals. *)
Definition rccTokens (index : nat) (c : Cylinder.t) : list string :=
  let '(dx, dy, dz) :=
    eulerToDirection (map3 (fun v => v * Math.PI) (Cylinder.rotation c)) in
  let '(cx, cy, cz) := Cylinder.position c in
  let h := Cylinder.height c in
  ["rcc"; showIndex index;
   toFixed (cx - Num 0.5 * h * dx) 6;
   toFixed (cy - Num 0.5 * h * dy) 6;
   toFixed (cz - Num 0.5 * h * dz) 6;
   toFixed (dx * h) 6; toFixed (dy * h) 6; toFixed (dz * h) 6;
   toFixed (Cylinder.radiusTop c) 6]%string.

Definition rccLine (index : nat) (c : Cylinder.t) : string :=
  join_sp (rccTokens index c).

(** The pieces of the body line of a sphere. *)
Definition sphTokens (index : nat) (s : Sphere.t) : list string :=
  let '(cx, cy, cz) := Sphere.position s in
  ["sph"; showIndex index; toFixed cx 6; toFixed cy 6; toFixed cz 6;
   toFixed (Sphere.radius s) 6]%string.

Definition sphLine (index : nat) (s : Sphere.t) : string :=
  join_sp (sphTokens index s).

(** The zone line of the primitive with this index. *)
Definition zoneLine (index : nat) : string :=
  ("zn" ++ showIndex index ++ " 1 " ++ showIndex index)%string.

(** The material line: every code followed by one blank. *)
Fixpoint materialLine (codes : list N) : string :=
  match codes with
  | [] => ""%string
  | k :: codes' => (decimal k ++ " " ++ materialLine codes')%string
  end.

Definition footer : string := "oesnt worend geom".

(** The material codes of a scene, cylinders first. *)
Definition sceneCodes (cyls : obj Cylinder.t) (sphs : obj Sphere.t) : list N :=
  map (fun e => materialInt (Cylinder.materialType (snd e))) cyls
  ++ map (fun e => materialInt (Sphere.materialType (snd e))) sphs.

(** Body lines of the entries of a dictionary, numbered from [index]. *)
Fixpoint bodyLines {A} (line : nat -> A -> string) (index : nat) (o : obj A)
    : list string :=
  match o with
  | [] => []
  | (_, params) :: o' => line index params :: bodyLines line (S index) o'
  end.

(** The lines of the exported file. *)
Definition exportLines (cyls : obj Cylinder.t) (sphs : obj Sphere.t)
    : list string :=
  bodyLines rccLine 1 cyls
  ++ bodyLines sphLine (1 + List.length cyls) sphs
  ++ ["end body"%string]
  ++ map zoneLine (seq 1 (List.length cyls + List.length sphs))
  ++ ["end zone"%string]
  ++ [materialLine (sceneCodes cyls sphs)]
  ++ [footer].

End ExportVocabulary.

Section ReconstructionVocabulary.
Local Open Scope R_scope.

(** The cylinder an [rcc] record with base [b], axis vector [d] and the given
    radius stands for: height the magnitude of [d], center [b + d/2], both
    radii the radius, rotation [(atan2(sqrt(dx^2+dz^2), dy)/pi,
    atan2(dx, dz)/pi, 0)], material concrete. *)
Definition reconstructedCylinder (b d : rvec) (radius : R) : Cylinder.t :=
  let '(dx, dy, dz) := d in
  Cylinder.mk (Num radius) (Num radius)
    (Num (vnorm d))
    (Num (Math.Ratan2 (sqrt (dx * dx + dz * dz)) dy / PI),
     Num (Math.Ratan2 dx dz / PI),
     Num 0)
    (inj (vadd b (vscale (/ 2) d)))
    "concrete".

End ReconstructionVocabulary.

Section RoundTripVocabulary.
Local Open Scope R_scope.

(** [round6] on each coordinate. *)
Definition round6v (v : rvec) : rvec :=
  let '(a, b, c) := v in (round6 a, round6 b, round6 c).

(** One primitive is the other up to its material. *)
Definition sameShape (p p' : prim) : Prop :=
  exists m : string, p' = setPrimMaterial p m.

End RoundTripVocabulary.

(** ** Scenes the exporter prints in the fixed notation *)

Section PrintableVocabulary.
Local Open Scope R_scope.

(** A number that [toFixed(6)] prints as NaN or in the fixed notation, with
    room for the half height that the exporter takes off a center. *)
Definition printable (x : number) : Prop :=
  match x with
  | Num r => Rabs r < 10 ^ 20
  | NaN => True
  end.

Definition printable3 (v : vec3) : Prop :=
  let '(a, b, c) := v in printable a /\ printable b /\ printable c.

(** Every center, height and radius of the scene is printable, and no
    material name is a member inherited from [Object.prototype]. *)
Definition plainScene (cyls : obj Cylinder.t) (sphs : obj Sphere.t) : Prop :=
  Forall (fun e => printable3 (Cylinder.position (snd e))
                   /\ printable (Cylinder.height (snd e))
                   /\ printable (Cylinder.radiusTop (snd e))
                   /\ inheritedMember (Cylinder.materialType (snd e)) = false)
         cyls
  /\ Forall (fun e => printable3 (Sphere.position (snd e))
                      /\ printable (Sphere.radius (snd e))
                      /\ inheritedMember (Sphere.materialType (snd e)) = false)
            sphs.

End PrintableVocabulary.

(** ** Example inputs *)

(** A file with one sphere, then the line [2], then the line [7 7]. *)
Definition twoNumericLines : string :=
  "sph 1 0 0 0 1" ++ LF ++ "2" ++ LF ++ "7 7" ++ LF.

(** A scene of one upright cylinder of radius 1 and height 2 at the origin,
    and one of height 2.0000012. *)
Definition uprightScene : obj Cylinder.t :=
  [("cylinder1"%string,
    Cylinder.mk (Num 1) (Num 1) (Num 2) (inj (0, 0, 0)%R) (inj (0, 0, 0)%R)
      "concrete")].

(** One steel sphere of radius 1 at (4, 0, 0). *)
Definition steelSphere : obj Sphere.t :=
  [("sphere1"%string, Sphere.mk (Num 1) (inj (4, 0, 0)%R) "steel")].

(** Two unit spheres 1.5 apart, the first at the origin. *)
Definition twoSpheres : obj Sphere.t :=
  [("sphere1"%string, Sphere.mk (Num 1) (inj (0, 0, 0)%R) "concrete");
   ("sphere2"%string, Sphere.mk (Num 1) (inj (1.5, 0, 0)%R) "steel")].

Definition tallScene : obj Cylinder.t :=
  [("cylinder1"%string,
    Cylinder.mk (Num 1) (Num 1) (Num 2.0000012) (inj (0, 0, 0)%R)
      (inj (0, 0, 0)%R) "concrete")].

(** ** Finite records *)

(** A number that is not NaN; a triple without NaN; a cylinder and a sphere
    whose fields read by the collision tests hold no NaN. *)
Definition isNum (a : number) : bool :=
  match a with Num _ => true | NaN => false end.

Definition finite3 (v : vec3) : bool :=
  let '(a, b, c) := v in isNum a && isNum b && isNum c.

Definition finiteCylinder (c : Cylinder.t) : bool :=
  isNum (Cylinder.radiusTop c) && isNum (Cylinder.height c)
  && finite3 (Cylinder.rotation c) && finite3 (Cylinder.position c).

Definition finiteSphere (s : Sphere.t) : bool :=
  isNum (Sphere.radius s) && finite3 (Sphere.position s).

(** ** Events of the user interface *)

(** What the user can do to the scene, with the values the handlers get. *)
Inductive event : Type :=
| Click (objectId objectType : string)        (* a click on a mesh *)
| Choose (newSelected : string)               (* the object list *)
| EditRadius (text : string)                  (* the Radius control *)
| EditHeight (text : string)                  (* the Height control *)
| EditRotation (axisIndex : nat) (text : string)
| EditPosition (axisIndex : nat) (text : string)
| EditMaterial (value : string)               (* the material list *)
| Add (newObjectType : string)                (* the Add dialog *)
| Import (text : string).                     (* a file read by the importer *)

(** The handler each event runs, as wired in the JSX of 1385-1626. *)
Definition step (st : AppState) (e : event) : outcome AppState :=
  match e with
  | Click objectId objectType => Done (handleObjectSelect objectId objectType st)
  | Choose newSelected => Done (selectOnChange newSelected st)
  | EditRadius text => LabeledControl_onChange (fun v => updateRadius v st) text
  | EditHeight text =>
      LabeledControl_onChange (fun v => updateParam "height" v st) text
  | EditRotation axisIndex text =>
      LabeledControl_onChange (fun v => updateRotation axisIndex v st) text
  | EditPosition axisIndex text =>
      LabeledControl_onChange (fun v => updatePosition axisIndex v st) text
  | EditMaterial value => updateMaterialType value st
  | Add newObjectType => Done (addObject newObjectType st)
  | Import text => Done (fst (handleFileImport text st))
  end.

(** What the rendered page offers in state [st]: meshes and list entries of
    the objects that exist, the Height and Rotation controls for a selected
    cylinder only, the three axes, the four materials and the two kinds of
    the Add dialog. *)
Definition offered (st : AppState) (e : event) : Prop :=
  match e with
  | Click objectId objectType =>
      (objectType = "cylinder" /\ In objectId (keys (cylinderParams st)))
      \/ (objectType = "sphere" /\ In objectId (keys (sphereParams st)))
  | Choose newSelected =>
      In newSelected (keys (cylinderParams st) ++ keys (sphereParams st))
  | EditRadius _ => True
  | EditHeight _ => selectedObjectType st = "cylinder"
  | EditRotation axisIndex _ =>
      selectedObjectType st = "cylinder" /\ (axisIndex < 3)%nat
  | EditPosition axisIndex _ => (axisIndex < 3)%nat
  | EditMaterial value => In value ["standard"; "concrete"; "steel"; "wood"]
  | Add newObjectType => In newObjectType ["cylinder"; "sphere"]
  | Import _ => True
  end.

(** The states the page can be brought to from [initialState]. *)
Inductive reachable : AppState -> Prop :=
| reachable_initial : reachable initialState
| reachable_step (st st' : AppState) (e : event) :
    reachable st -> offered st e -> step st e = Done st' -> reachable st'.

(** The selection names an object of the dictionary of its type. *)
Definition selectionValid (st : AppState) : Prop :=
  (selectedObjectType st = "cylinder"
   /\ In (selectedObject st) (keys (cylinderParams st)))
  \/ (selectedObjectType st = "sphere"
      /\ In (selectedObject st) (keys (sphereParams st))).

(** The identifiers are [cylinder1..cylinderN] and [sphere1..sphereM], in
    this order. *)
Definition numbered (st : AppState) : Prop :=
  keys (cylinderParams st)
  = map cylinderId (seq 1 (List.length (cylinderParams st)))
  /\ keys (sphereParams st)
     = map sphereId (seq 1 (List.length (sphereParams st))).

(** Every cylinder has one radius. *)
Definition symmetric (st : AppState) : Prop :=
  Forall (fun e => Cylinder.radiusTop (snd e) = Cylinder.radiusBottom (snd e))
         (cylinderParams st).

(** The three invariants together. *)
Definition wellFormed (st : AppState) : Prop :=
  selectionValid st /\ numbered st /\ symmetric st.

(** A parsed cylinder has one radius. *)
Definition primSymmetric (p : prim) : Prop :=
  match p with
  | PCyl c => Cylinder.radiusTop c = Cylinder.radiusBottom c
  | PSph _ => True
  end.

(** The events that edit the selected object. *)
Definition isEdit (e : event) : bool :=
  match e with
  | EditRadius _ | EditHeight _ | EditRotation _ _ | EditPosition _ _
  | EditMaterial _ => true
  | _ => false
  end.

(** The cylinder and the sphere [addObject] creates as the [count + 1]-th of
    its kind. *)
Definition defaultCylinder (count : nat) : Cylinder.t :=
  Cylinder.mk (Num 1) (Num 1) (Num 2) (Num 0, Num 0, Num 0)
    (Num (INR count * 2), Num 0, Num 0) "concrete".

Definition defaultSphere (count : nat) : Sphere.t :=
  Sphere.mk (Num 1) (Num (INR count * 2), Num 0, Num 0) "concrete".

(** [st'] is [st] up to the selected object: the selection, the identifiers
    in their order, every other object and the dictionary of the other kind
    are those of [st]. *)
Definition sameExcept (st st' : AppState) : Prop :=
  selectedObject st' = selectedObject st
  /\ selectedObjectType st' = selectedObjectType st
  /\ keys (cylinderParams st') = keys (cylinderParams st)
  /\ keys (sphereParams st') = keys (sphereParams st)
  /\ (forall id, id <> selectedObject st ->
        get (cylinderParams st') id = get (cylinderParams st) id
        /\ get (sphereParams st') id = get (sphereParams st) id)
  /\ (if selectedObjectType st =? "cylinder"
      then sphereParams st' = sphereParams st
      else cylinderParams st' = cylinderParams st).

(** ** The scene read back from an exported file *)

(** What comes back for the cylinder and the sphere written under [index]:
    the record the importer reads from the body line, with the material its
    exported code stands for. *)
Definition reimportedCylinder (index : nat) (c : Cylinder.t) : Cylinder.t :=
  setCylinderMaterial (parsedCylinder (rccTokens index c))
    (matTypeOf (materialInt (Cylinder.materialType c))).

Definition reimportedSphere (index : nat) (s : Sphere.t) : Sphere.t :=
  setSphereMaterial (parsedSphere (sphTokens index s))
    (matTypeOf (materialInt (Sphere.materialType s))).

(** The entries of a dictionary, numbered from [index], each through [f]. *)
Fixpoint numberedFrom {A B} (f : nat -> A -> B) (index : nat) (o : obj A) : list B :=
  match o with
  | [] => []
  | (_, params) :: o' => f index params :: numberedFrom f (S index) o'
  end.

(** A line the importer acts on: a record it recognises or a line of
    integers. *)
Definition relevantLine (line : string) : bool :=
  match parseLine line with
  | Some _ => true
  | None => isMaterialLine line
  end.

(** ** The first version on its own files *)

Section FirstVersionVocabulary.
Local Open Scope num_scope.

(** What the importer of the first version makes of the pieces of an [rcc]
    line: pieces 5 and 6 as angles, pieces 7 and 8 as diameters. *)
Definition V1parsedCylinder (parts : list string) : Cylinder.t :=
  Cylinder.mk (parseFloat (nth 7 parts "") / Num 2)
    (parseFloat (nth 8 parts "") / Num 2) (Num 2)
    (parseFloat (nth 5 parts ""), parseFloat (nth 6 parts ""), Num 0)
    (parseFloat (nth 2 parts ""), parseFloat (nth 3 parts ""),
     parseFloat (nth 4 parts ""))
    "concrete".

(** What comes back, in the first version, for a finite cylinder at [p]
    with unit direction [d], height [h] and radius [r]. *)
Definition V1reimported (p d : rvec) (h r : R) : Cylinder.t :=
  let '(ax, ay, az) := round6v (vscale h d) in
  Cylinder.mk (Num (az / 2)) (Num (round6 r / 2)) (Num 2) (Num ax, Num ay, Num 0)
    (inj (round6v (axisStart p h d))) "concrete".

End FirstVersionVocabulary.


(* ================================================================== *)
(** * Proofs *)
(* ================================================================== *)

(** ** Arithmetic of finite numbers *)

Section NumberFacts.
Local Open Scope R_scope.

Lemma div_Num (x y : R) : y <> 0 -> div (Num x) (Num y) = Num (x / y).
Proof.
  intros Hy. unfold div. destruct (Req_dec_T y 0) as [E | _]; [contradiction | reflexivity].
Qed.

Lemma sqrt_Num (x : R) : 0 <= x -> Math.sqrt (Num x) = Num (sqrt x).
Proof.
  intros Hx. unfold Math.sqrt. destruct (Rlt_dec x 0) as [L | _]; [lra | reflexivity].
Qed.

Lemma ltb_Num (x y : R) : ltb (Num x) (Num y) = true <-> x < y.
Proof.
  unfold ltb. destruct (Rlt_dec x y); split; intros; auto; discriminate.
Qed.

Lemma sum_sq_nonneg (a b c : R) : 0 <= a * a + b * b + c * c.
Proof. nra. Qed.

Lemma sum_pow2_nonneg (a b c : R) : 0 <= a ^ 2 + b ^ 2 + c ^ 2.
Proof.
  pose proof (pow2_ge_0 a); pose proof (pow2_ge_0 b); pose proof (pow2_ge_0 c); lra.
Qed.

Lemma vdot_self_nonneg (v : rvec) : 0 <= vdot v v.
Proof. destruct v as [[a b] c]. simpl. nra. Qed.

Lemma vnorm_sqr (v : rvec) : vnorm v * vnorm v = vdot v v.
Proof. apply sqrt_sqrt, vdot_self_nonneg. Qed.

End NumberFacts.

(** ** Sphere against sphere *)

Section SphereSphere.
Local Open Scope R_scope.

Lemma checkSphereCollision_Num (p1 p2 : rvec) (r1 r2 : R) (m1 m2 : string) :
  checkSphereCollision (Sphere.mk (Num r1) (inj p1) m1)
                       (Sphere.mk (Num r2) (inj p2) m2)
  = ltb (Num (vdist p1 p2)) (Num (r1 + r2 - 0.01)).
Proof.
  destruct p1 as [[x1 y1] z1], p2 as [[x2 y2] z2].
  unfold checkSphereCollision; cbn -[Math.sqrt ltb pow].
  rewrite sqrt_Num by apply sum_pow2_nonneg.
  unfold vdist, vnorm; cbn -[ltb pow].
  do 3 f_equal. ring.
Qed.

End SphereSphere.

(** ** Orientation *)

Section Orientation.
Local Open Scope R_scope.

Lemma rotated_unit (rx ry rz : R) : vdot (rotated rx ry rz) (rotated rx ry rz) = 1.
Proof.
  unfold rotated, vdot.
  pose proof (sin2_cos2 rx) as Hx. pose proof (sin2_cos2 ry) as Hy.
  pose proof (sin2_cos2 rz) as Hz. unfold Rsqr in *.
  set (a := sin rx) in *. set (b := cos rx) in *.
  set (c := sin ry) in *. set (d := cos ry) in *.
  set (e := sin rz) in *. set (f := cos rz) in *.
  replace ((a * c * f - b * e) * (a * c * f - b * e) + (a * c * e + b * f) * (a * c * e + b * f) + a * d * (a * d))
    with (a * a * (c * c + d * d) * (e * e + f * f) + b * b * (e * e + f * f) - a * a * d * d * (e * e + f * f) + a * a * d * d) by ring.
  rewrite Hy, Hz. lra.
Qed.

Lemma eulerToDirection_Num (rx ry rz : R) :
  eulerToDirection (Num rx, Num ry, Num rz) = inj (rotated rx ry rz).
Proof.
  unfold eulerToDirection. cbn -[Math.sqrt div].
  pose proof (rotated_unit rx ry rz) as Hu. unfold rotated, vdot in Hu.
  match goal with
  | |- context [Math.sqrt (Num ?e)] =>
      replace e with 1 by (symmetry; etransitivity; [| exact Hu]; ring)
  end.
  rewrite sqrt_Num, sqrt_1 by lra.
  rewrite !div_Num by lra.
  unfold rotated, inj. f_equal; [f_equal |]; f_equal; field.
Qed.

Lemma eulerToDirection_finite (rot : rvec) :
  exists d : rvec,
    eulerToDirection (map3 (fun v => mul v Math.PI) (inj rot)) = inj d
    /\ vdot d d = 1.
Proof.
  destruct rot as [[rx ry] rz].
  exists (rotated (rx * PI) (ry * PI) (rz * PI)). split.
  - cbn -[eulerToDirection]. apply eulerToDirection_Num.
  - apply rotated_unit.
Qed.

Lemma inj_inv (u v : rvec) : inj u = inj v -> u = v.
Proof.
  destruct u as [[a b] c], v as [[a' b'] c']. cbn. intros H. now inversion H.
Qed.

(** A finite direction returned by [eulerToDirection] is a unit vector. *)
Lemma eulerToDirection_unit (rot d : rvec) :
  eulerToDirection (map3 (fun v => mul v Math.PI) (inj rot)) = inj d ->
  vdot d d = 1.
Proof.
  intros H. destruct (eulerToDirection_finite rot) as (d' & H' & Hu).
  rewrite H in H'. apply inj_inv in H'. now subst.
Qed.

Lemma eulerToDirection_zero :
  eulerToDirection (map3 (fun v => mul v Math.PI) (inj (0, 0, 0))) = inj (0, 1, 0).
Proof.
  cbn -[eulerToDirection]. rewrite eulerToDirection_Num.
  unfold rotated. rewrite Rmult_0_l, sin_0, cos_0. cbn. repeat f_equal; ring.
Qed.


End Orientation.

(** ** Real forms of the cylinder tests *)

Section VectorFacts.
Local Open Scope R_scope.

Lemma ltb_Rltb x y : ltb (Num x) (Num y) = Rltb x y.
Proof. reflexivity. Qed.

Lemma Rltb_true (x y : R) : Rltb x y = true <-> x < y.
Proof. unfold Rltb. destruct (Rlt_dec x y); split; intros; auto; discriminate. Qed.

Lemma Rltb_false (x y : R) : Rltb x y = false <-> ~ x < y.
Proof.
  unfold Rltb. destruct (Rlt_dec x y); split; intros; auto; try discriminate; contradiction.
Qed.

Lemma vcross_scale (k1 k2 : R) (u v : rvec) :
  vcross (vscale k1 u) (vscale k2 v) = vscale (k1 * k2) (vcross u v).
Proof.
  destruct u as [[u0 u1] u2], v as [[v0 v1] v2]. cbn. f_equal; [f_equal |]; ring.
Qed.

Lemma vnorm_scale (k : R) (v : rvec) : vnorm (vscale k v) = Rabs k * vnorm v.
Proof.
  destruct v as [[v0 v1] v2]. unfold vnorm. cbn [vscale vdot].
  rewrite <- sqrt_Rsqr_abs, <- sqrt_mult_alt by apply Rle_0_sqr.
  f_equal. unfold Rsqr. ring.
Qed.

Lemma vdot_scale_r (k : R) (u v : rvec) : vdot u (vscale k v) = k * vdot u v.
Proof. destruct u as [[u0 u1] u2], v as [[v0 v1] v2]. cbn. ring. Qed.

Lemma axis_vector (c : rvec) (h : R) (d : rvec) :
  vsub (axisEnd c h d) (axisStart c h d) = vscale h d.
Proof.
  destruct c as [[x y] z], d as [[a b] e]. unfold axisEnd, axisStart. cbn.
  f_equal; [f_equal |]; lra.
Qed.

Lemma vcross_self (v : rvec) : vcross v v = (0, 0, 0).
Proof. destruct v as [[a b] c]. cbn. f_equal; [f_equal |]; ring. Qed.

Lemma vnorm_zero : vnorm (0, 0, 0) = 0.
Proof. unfold vnorm. cbn. replace (0 * 0 + 0 * 0 + 0 * 0) with 0 by ring. apply sqrt_0. Qed.

(** The centre distance splits into the offsets along and across a unit
    direction. *)
Lemma vdist_axial_perp (c1 c2 d : rvec) :
  vdot d d = 1 ->
  let axial := vdot (vsub c2 c1) d in
  let perp := vnorm (vsub (vsub c2 c1) (vscale axial d)) in
  vdist c1 c2 = sqrt (perp ^ 2 + axial ^ 2).
Proof.
  intros Hu axial perp. unfold vdist, vnorm at 1. f_equal.
  replace (perp ^ 2) with (perp * perp) by ring.
  unfold perp. rewrite vnorm_sqr.
  subst axial. destruct c1 as [[x1 y1] z1], c2 as [[x2 y2] z2], d as [[a b] e].
  cbn [vsub vscale vdot] in *.
  set (u := x2 - x1). set (v := y2 - y1). set (w := z2 - z1).
  transitivity (u * u + v * v + w * w
          + (u * a + v * b + w * e) ^ 2 * (a * a + b * b + e * e - 1)); [| ring].
  rewrite Hu. ring.
Qed.

End VectorFacts.

Section CylCyl.
Local Open Scope R_scope.
Variables (c1 c2 rot1 rot2 d1 d2 : rvec) (h1 h2 r1 r2 : R) (rb1 rb2 : number) (m1 m2 : string).
Hypothesis Hd1 : eulerToDirection (map3 (fun v => mul v Math.PI) (inj rot1)) = inj d1.
Hypothesis Hd2 : eulerToDirection (map3 (fun v => mul v Math.PI) (inj rot2)) = inj d2.

Let cyl1 := Cylinder.mk (Num r1) rb1 (Num h1) (inj rot1) (inj c1) m1.
Let cyl2 := Cylinder.mk (Num r2) rb2 (Num h2) (inj rot2) (inj c2) m2.
Let start1 := axisStart c1 h1 d1.
Let start2 := axisStart c2 h2 d2.
Let cross := vcross (vscale h1 d1) (vscale h2 d2).

Lemma checkCylinderCollision_Num :
  checkCylinderCollision cyl1 cyl2 =
  if Rlt_dec (vnorm cross) 0.001 then Rltb (vdist c1 c2) (r1 + r2)
  else Rltb (Rabs (vdot (vsub start2 start1) cross) / vnorm cross) (r1 + r2).
Proof.
  unfold checkCylinderCollision, cyl1, cyl2.
  cbn [Cylinder.position Cylinder.radiusTop Cylinder.height Cylinder.rotation].
  rewrite Hd1, Hd2.
  destruct c1 as [[x1 y1] z1], c2 as [[x2 y2] z2],
           d1 as [[a1 b1] e1], d2 as [[a2 b2] e2].
  cbn -[Math.sqrt ltb pow div Rabs].
  assert (Ehalf : 0.5 = / 2) by lra.
  rewrite !sqrt_Num by (apply sum_sq_nonneg || apply sum_pow2_nonneg).
  match goal with
  | |- (if ltb (Num (sqrt ?E1)) _ then _ else _) = _ =>
      replace (sqrt E1) with (vnorm cross)
        by (unfold vnorm, cross; cbn [vcross vscale vdot]; rewrite Ehalf; f_equal; field)
  end.
  rewrite !ltb_Rltb. unfold Rltb at 1.
  unfold start1, start2, axisStart, cross, vdist, vnorm.
  cbn [vcross vscale vdot vsub].
  match goal with
  | |- context [Rlt_dec ?a 0.001] => destruct (Rlt_dec a 0.001) as [Hpar | Hskew]
  end.
  - do 2 f_equal. ring.
  - rewrite div_Num by lra. rewrite ltb_Rltb. do 3 f_equal.
    rewrite Ehalf. field.
Qed.
End CylCyl.

Section CylSph.
Local Open Scope R_scope.
Variables (c s rot d : rvec) (h rc rs : R) (rb : number) (mc ms : string).
Hypothesis Hd : eulerToDirection (map3 (fun v => mul v Math.PI) (inj rot)) = inj d.
Hypothesis Hh : h <> 0.

Let cyl := Cylinder.mk (Num rc) rb (Num h) (inj rot) (inj c) mc.
Let sph := Sphere.mk (Num rs) (inj s) ms.
Let p0 := axisStart c h d.
Let p1 := axisEnd c h d.
Let tc := clamp01 (segmentParam s p0 p1).
Let closest := vadd p0 (vscale tc (vsub p1 p0)).
Let cap := if Req_dec_T tc 0 then p0 else p1.
Let u := vscale (/ vnorm (vsub p1 p0)) (vsub p1 p0).
Let axial := vdot (vsub s cap) u.
Let radial := vdist cap (vsub s (vscale axial u)).

Lemma checkCylinderSphereCollision_Num :
  checkCylinderSphereCollision cyl sph =
  if Req_dec_T tc 0 then
    (if Rle_dec radial rc then Rltb (Rabs axial) rs
     else Rltb (sqrt ((radial - rc) ^ 2 + axial ^ 2)) rs)
  else if Req_dec_T tc 1 then
    (if Rle_dec radial rc then Rltb (Rabs axial) rs
     else Rltb (sqrt ((radial - rc) ^ 2 + axial ^ 2)) rs)
  else Rltb (vdist s closest) (rc + rs).
Proof.
  pose proof (eulerToDirection_unit _ _ Hd) as Hu.
  unfold checkCylinderSphereCollision, cyl, sph.
  cbn [Cylinder.position Cylinder.radiusTop Cylinder.height Cylinder.rotation
       Sphere.position Sphere.radius].
  rewrite Hd.
  destruct c as [[cx cy] cz], s as [[sx sy] sz], d as [[a b] e].
  cbn -[Math.sqrt ltb leb eqb pow div Rabs Math.max Math.min].
  assert (Ehalf : 0.5 = / 2) by lra.
  rewrite !sqrt_Num by (apply sum_sq_nonneg || apply sum_pow2_nonneg).
  match goal with
  | |- context [sq (Num (sqrt ?E))] =>
      replace (sqrt E) with (vnorm (vsub p1 p0))
        by (unfold vnorm, p1, p0, axisStart, axisEnd; cbn [vsub vadd vscale vdot];
            f_equal; ring)
  end.
  assert (HL : vnorm (vsub p1 p0) = Rabs h).
  { unfold vnorm, p1, p0, axisStart, axisEnd. cbn [vsub vadd vscale vdot].
    cbn [vdot] in Hu. rewrite <- sqrt_Rsqr_abs. f_equal. unfold Rsqr.
    rewrite Ehalf.
    transitivity (h * h * (a * a + b * b + e * e)); [field | rewrite Hu; ring]. }
  assert (HL0 : vnorm (vsub p1 p0) <> 0).
  { rewrite HL. now apply Rabs_no_R0. }
  set (L := vnorm (vsub p1 p0)) in *.
  cbn [sq lift1].
  rewrite div_Num by (apply pow_nonzero; exact HL0).
  cbn [Math.min Math.max lift2].
  match goal with
  | |- context [Rmax 0 (Rmin 1 ?t)] =>
      replace t with (segmentParam (sx, sy, sz) p0 p1)
        by (unfold segmentParam, p1, p0, axisStart, axisEnd;
            cbn [vsub vadd vscale vdot]; fold p0 p1; reflexivity)
  end.
  change (Rmax 0 (Rmin 1 (segmentParam (sx, sy, sz) p0 p1))) with tc.
  assert (Hcapcase :
    forall capc : rvec, cap = capc ->
    (let '(capCenter_0, capCenter_1, capCenter_2) := inj capc in
     let '(axisNorm_0, axisNorm_1, axisNorm_2) :=
       (div (Num (cx + 0.5 * h * a - (cx - 0.5 * h * a))) (Num L),
        div (Num (cy + 0.5 * h * b - (cy - 0.5 * h * b))) (Num L),
        div (Num (cz + 0.5 * h * e - (cz - 0.5 * h * e))) (Num L)) in
     let '(v_0, v_1, v_2) :=
       (sub (Num sx) capCenter_0, sub (Num sy) capCenter_1, sub (Num sz) capCenter_2) in
     let distAlongAxis :=
       add (add (mul v_0 axisNorm_0) (mul v_1 axisNorm_1)) (mul v_2 axisNorm_2) in
     let '(proj_0, proj_1, proj_2) :=
       (sub (Num sx) (mul distAlongAxis axisNorm_0),
        sub (Num sy) (mul distAlongAxis axisNorm_1),
        sub (Num sz) (mul distAlongAxis axisNorm_2)) in
     let radialDist :=
       Math.sqrt (add (add (sq (sub proj_0 capCenter_0)) (sq (sub proj_1 capCenter_1)))
                      (sq (sub proj_2 capCenter_2))) in
     if leb radialDist (Num rc) then ltb (Math.abs distAlongAxis) (Num rs)
     else ltb (Math.sqrt (add (sq (sub radialDist (Num rc))) (sq distAlongAxis))) (Num rs))
    = if Rle_dec radial rc then Rltb (Rabs axial) rs
      else Rltb (sqrt ((radial - rc) ^ 2 + axial ^ 2)) rs).
  { intros [[k0 k1] k2] Hcap.
    rewrite !div_Num by exact HL0.
    cbn -[Math.sqrt ltb leb pow Rabs].
    rewrite !sqrt_Num by (apply sum_sq_nonneg || apply sum_pow2_nonneg).
    match goal with
    | |- context [Num (Rabs ?X)] =>
        replace X with axial
          by (unfold axial, u, p1, p0, axisStart, axisEnd; rewrite Hcap;
              cbn [vsub vadd vscale vdot]; fold p0 p1; fold L; field; exact HL0)
    end.
    match goal with
    | |- context [leb (Num (sqrt ?E)) _] =>
        replace (sqrt E) with radial
          by (unfold radial, vdist, vnorm, u, p1, p0, axisStart, axisEnd;
              rewrite Hcap; cbn [vsub vadd vscale vdot]; fold p0 p1; fold L;
              f_equal; field; exact HL0)
    end.
    unfold leb. destruct (Rle_dec radial rc) as [Hin | Hout].
    - reflexivity.
    - cbn -[Math.sqrt ltb pow].
      rewrite sqrt_Num; [reflexivity |].
      pose proof (pow2_ge_0 (radial - rc)); pose proof (pow2_ge_0 axial); lra. }
  unfold eqb.
  destruct (Req_dec_T tc 0) as [E0 | N0]; [| destruct (Req_dec_T tc 1) as [E1 | N1]];
    cbn [orb].
  - apply (Hcapcase p0). unfold cap. destruct (Req_dec_T tc 0); [reflexivity | contradiction].
  - apply (Hcapcase p1). unfold cap. destruct (Req_dec_T tc 0); [contradiction | reflexivity].
  - cbn -[Math.sqrt ltb pow].
    rewrite sqrt_Num by apply sum_pow2_nonneg.
    rewrite ltb_Rltb. do 2 f_equal.
    unfold vdist, vnorm, closest, p1, p0, axisStart, axisEnd.
    cbn [vsub vadd vscale vdot]. f_equal. ring.
Qed.
End CylSph.

(** ** Collisions between two ids of one dictionary *)

Section TwoIds.
Context {A : Type} (check : A -> A -> bool).

Lemma checkById_two (id1 id2 : string) (a1 a2 : A) :
  id1 <> id2 ->
  filter (checkById check [(id1, a1); (id2, a2)] [(id1, a1); (id2, a2)])
         (pairs (keys [(id1, a1); (id2, a2)]))
  = if check a1 a2 then [(id1, id2)] else [].
Proof.
  intros Hne. cbn. unfold checkById. cbn.
  rewrite !String.eqb_refl.
  destruct (String.eqb_spec id1 id2) as [E | _]; [contradiction |].
  destruct (check a1 a2); reflexivity.
Qed.

End TwoIds.

Lemma detectCollisions_two_spheres (id1 id2 : string) (s1 s2 : Sphere.t) :
  id1 <> id2 ->
  detectCollisions [] [(id1, s1); (id2, s2)]
  = if checkSphereCollision s1 s2 then [(id1, id2)] else [].
Proof.
  intros Hne. unfold detectCollisions.
  change (keys (@nil (string * Cylinder.t))) with (@nil string).
  cbn [pairs filter list_prod flat_map app].
  rewrite checkById_two by exact Hne. apply app_nil_r.
Qed.

Lemma detectCollisions_two_cylinders (id1 id2 : string) (c1 c2 : Cylinder.t) :
  id1 <> id2 ->
  detectCollisions [(id1, c1); (id2, c2)] []
  = if checkCylinderCollision c1 c2 then [(id1, id2)] else [].
Proof.
  intros Hne. unfold detectCollisions.
  change (keys (@nil (string * Sphere.t))) with (@nil string).
  rewrite checkById_two by exact Hne.
  cbn. rewrite app_nil_r. reflexivity.
Qed.

Section SphereClaims.
Local Open Scope R_scope.

(** C4.  Two spheres collide exactly when the Euclidean distance of their
    centers is strictly below [r1 + r2 - 0.01], and [detectCollisions] on a
    scene that holds just this pair reports it exactly then; two unit
    spheres 1.5 apart give exactly one pair, 2.0 apart none. *)
Theorem sphere_collision_distance :
  forall (id1 id2 : string) (p1 p2 : rvec) (r1 r2 : R) (m1 m2 : string),
  id1 <> id2 ->
  let sph1 := Sphere.mk (Num r1) (inj p1) m1 in
  let sph2 := Sphere.mk (Num r2) (inj p2) m2 in
  (checkSphereCollision sph1 sph2 = true <-> vdist p1 p2 < r1 + r2 - 0.01)
  /\ (detectCollisions [] [(id1, sph1); (id2, sph2)] = [(id1, id2)]
      <-> vdist p1 p2 < r1 + r2 - 0.01)
  /\ (detectCollisions [] [(id1, sph1); (id2, sph2)] = []
      <-> ~ vdist p1 p2 < r1 + r2 - 0.01)
  /\ (r1 = 1 -> r2 = 1 -> vdist p1 p2 = 1.5 ->
      detectCollisions [] [(id1, sph1); (id2, sph2)] = [(id1, id2)])
  /\ (r1 = 1 -> r2 = 1 -> vdist p1 p2 = 2 ->
      detectCollisions [] [(id1, sph1); (id2, sph2)] = []).
Proof.
  intros id1 id2 p1 p2 r1 r2 m1 m2 Hne sph1 sph2.
  assert (Hc : checkSphereCollision sph1 sph2 = true <-> vdist p1 p2 < r1 + r2 - 0.01).
  { unfold sph1, sph2. rewrite checkSphereCollision_Num. apply ltb_Num. }
  rewrite detectCollisions_two_spheres by exact Hne.
  destruct (checkSphereCollision sph1 sph2) eqn:E.
  - assert (Hlt : vdist p1 p2 < r1 + r2 - 0.01) by now apply Hc.
    repeat split; intros; try reflexivity; try assumption; try discriminate; try lra.
  - assert (Hge : ~ vdist p1 p2 < r1 + r2 - 0.01).
    { intros H. apply Hc in H. discriminate. }
    repeat split; intros; try reflexivity; try assumption; try discriminate;
      try contradiction; try (exfalso; lra).
Qed.

Lemma vdist_along_x (x : R) : 0 <= x -> vdist (0, 0, 0) (x, 0, 0) = x.
Proof.
  intros Hx. unfold vdist, vnorm. cbn [vsub vdot].
  replace ((x - 0) * (x - 0) + (0 - 0) * (0 - 0) + (0 - 0) * (0 - 0)) with (Rsqr x)
    by (unfold Rsqr; ring).
  now apply sqrt_Rsqr.
Qed.

Lemma sphere_collision_distance_witness :
  detectCollisions []
    [("sphere1", Sphere.mk (Num 1) (inj (0, 0, 0)) "concrete");
     ("sphere2", Sphere.mk (Num 1) (inj (1.5, 0, 0)) "concrete")]
  = [("sphere1", "sphere2")].
Proof.
  apply (@sphere_collision_distance "sphere1" "sphere2" (0, 0, 0) (1.5, 0, 0)
           1 1 "concrete" "concrete").
  - discriminate.
  - reflexivity.
  - reflexivity.
  - apply vdist_along_x. lra.
Defined.

End SphereClaims.

(** ** Cylinder against cylinder *)

Section CylinderClaims.
Local Open Scope R_scope.

Lemma sqrt_lt_sq (x y : R) : 0 <= x -> 0 <= y -> (sqrt x < y <-> x < y * y).
Proof.
  intros Hx Hy. split; intros H.
  - rewrite <- (sqrt_sqrt x Hx). pose proof (sqrt_pos x). nra.
  - destruct (Rlt_dec (sqrt x) y) as [L | G]; [exact L | exfalso].
    assert (y <= sqrt x) by lra.
    assert (y * y <= sqrt x * sqrt x) by nra.
    rewrite sqrt_sqrt in * by exact Hx. lra.
Qed.

(** The line distance does not depend on the lengths of the two axis
    vectors. *)
Lemma lineDistance_scale (p1 p2 d1 d2 : rvec) (k1 k2 : R) :
  k1 * k2 <> 0 ->
  lineDistance p1 (vscale k1 d1) p2 (vscale k2 d2) = lineDistance p1 d1 p2 d2.
Proof.
  intros Hk. unfold lineDistance.
  rewrite vcross_scale, vdot_scale_r, vnorm_scale, Rabs_mult.
  destruct (Req_dec_T (vnorm (vcross d1 d2)) 0) as [Z | NZ].
  - rewrite Z, Rmult_0_r. unfold Rdiv. now rewrite Rinv_0, !Rmult_0_r.
  - field. split; [exact NZ | now apply Rabs_no_R0].
Qed.

(** C5, amended.  The parallel test of [checkCylinderCollision] is made on
    the cross product of the two axis vectors [end - start], whose magnitude
    is [|h1 * h2|] times that of the cross product of the unit directions:
    below 1e-3 the centers must be closer than [r1 + r2]; otherwise the lines
    through the axes must be, with no clamping to the segments. *)
Theorem checkCylinderCollision_rule :
  forall (c1 c2 rot1 rot2 d1 d2 : rvec) (h1 h2 r1 r2 : R) (rb1 rb2 : number)
         (m1 m2 : string),
  eulerToDirection (map3 (fun v => v * Math.PI)%num (inj rot1)) = inj d1 ->
  eulerToDirection (map3 (fun v => v * Math.PI)%num (inj rot2)) = inj d2 ->
  let cyl1 := Cylinder.mk (Num r1) rb1 (Num h1) (inj rot1) (inj c1) m1 in
  let cyl2 := Cylinder.mk (Num r2) rb2 (Num h2) (inj rot2) (inj c2) m2 in
  let axis1 := vsub (axisEnd c1 h1 d1) (axisStart c1 h1 d1) in
  let axis2 := vsub (axisEnd c2 h2 d2) (axisStart c2 h2 d2) in
  vnorm (vcross axis1 axis2) = Rabs (h1 * h2) * vnorm (vcross d1 d2)
  /\ (checkCylinderCollision cyl1 cyl2 = true
      <-> cylinderRule (vnorm (vcross axis1 axis2)) c1 c2 h1 h2 r1 r2 d1 d2).
Proof.
  intros c1 c2 rot1 rot2 d1 d2 h1 h2 r1 r2 rb1 rb2 m1 m2 Hd1 Hd2
         cyl1 cyl2 axis1 axis2.
  assert (Hmag : vnorm (vcross axis1 axis2) = Rabs (h1 * h2) * vnorm (vcross d1 d2)).
  { unfold axis1, axis2. now rewrite !axis_vector, vcross_scale, vnorm_scale. }
  split; [exact Hmag |].
  unfold cyl1, cyl2.
  rewrite (@checkCylinderCollision_Num c1 c2 rot1 rot2 d1 d2 h1 h2 r1 r2 rb1 rb2
             m1 m2 Hd1 Hd2).
  unfold cylinderRule, axis1, axis2. rewrite !axis_vector.
  destruct (Rlt_dec (vnorm (vcross (vscale h1 d1) (vscale h2 d2))) 0.001)
    as [Hpar | Hskew].
  - rewrite Rltb_true. split; [intros H; left; auto | intros [[_ H] | [H _]]; tauto].
  - rewrite Rltb_true.
    assert (Hk : h1 * h2 <> 0).
    { intros Z. apply Hskew. rewrite vcross_scale, vnorm_scale, Z, Rabs_R0. lra. }
    change (Rabs (vdot (vsub (axisStart c2 h2 d2) (axisStart c1 h1 d1))
                       (vcross (vscale h1 d1) (vscale h2 d2)))
            / vnorm (vcross (vscale h1 d1) (vscale h2 d2)))
      with (lineDistance (axisStart c1 h1 d1) (vscale h1 d1)
                         (axisStart c2 h2 d2) (vscale h2 d2)).
    rewrite lineDistance_scale by exact Hk.
    split; [intros H; right; auto | intros [[H _] | [_ H]]; tauto].
Qed.

Lemma eulerToDirection_quarter_x :
  eulerToDirection (map3 (fun v => v * Math.PI)%num (inj (0.5, 0, 0))) = inj (0, 0, 1).
Proof.
  cbn -[eulerToDirection]. rewrite eulerToDirection_Num. unfold rotated.
  replace (0.5 * PI) with (PI / 2) by lra.
  rewrite Rmult_0_l, sin_PI2, cos_PI2, sin_0, cos_0.
  cbn. repeat f_equal; ring.
Qed.

Lemma checkCylinderCollision_rule_witness :
  let cyl1 := Cylinder.mk (Num 1) (Num 1) (Num 2) (inj (0, 0, 0)) (inj (0, 0, 0)) "concrete" in
  let cyl2 := Cylinder.mk (Num 1) (Num 1) (Num 2) (inj (0.5, 0, 0)) (inj (0, 5, 5)) "concrete" in
  let axis1 := vsub (axisEnd (0, 0, 0) 2 (0, 1, 0)) (axisStart (0, 0, 0) 2 (0, 1, 0)) in
  let axis2 := vsub (axisEnd (0, 5, 5) 2 (0, 0, 1)) (axisStart (0, 5, 5) 2 (0, 0, 1)) in
  vnorm (vcross axis1 axis2) = Rabs (2 * 2) * vnorm (vcross (0, 1, 0) (0, 0, 1))
  /\ (checkCylinderCollision cyl1 cyl2 = true
      <-> cylinderRule (vnorm (vcross axis1 axis2)) (0, 0, 0) (0, 5, 5) 2 2 1 1
            (0, 1, 0) (0, 0, 1)).
Proof.
  exact (@checkCylinderCollision_rule (0, 0, 0) (0, 5, 5) (0, 0, 0) (0.5, 0, 0)
           (0, 1, 0) (0, 0, 1) 2 2 1 1 (Num 1) (Num 1) "concrete" "concrete"
           eulerToDirection_zero eulerToDirection_quarter_x).
Defined.

Lemma vnorm_along_x (k : R) : vnorm (k, 0, 0) = Rabs k.
Proof.
  unfold vnorm. cbn [vdot]. rewrite <- sqrt_Rsqr_abs. f_equal. unfold Rsqr. ring.
Qed.

Lemma rvec_eq (a b c a' b' c' : R) :
  a = a' -> b = b' -> c = c' -> (a, b, c) = (a', b', c').
Proof. now intros -> -> ->. Qed.

(** C5 as stated fails: two thin perpendicular cylinders (heights 0.01) whose
    axis lines meet.  The unit directions have a cross product of magnitude 1,
    so the stated rule compares the lines (distance 0) and reports a
    collision; the code sees a cross product of magnitude 1e-4, compares the
    centers (sqrt 50 apart) and reports none. *)
Lemma checkCylinderCollision_direction_threshold_fails :
  let cyl1 := Cylinder.mk (Num 1) (Num 1) (Num 0.01) (inj (0, 0, 0))
                (inj (0, 0, 0)) "concrete" in
  let cyl2 := Cylinder.mk (Num 1) (Num 1) (Num 0.01) (inj (0.5, 0, 0))
                (inj (0, 5, 5)) "concrete" in
  eulerToDirection (map3 (fun v => v * Math.PI)%num (inj (0, 0, 0))) = inj (0, 1, 0)
  /\ eulerToDirection (map3 (fun v => v * Math.PI)%num (inj (0.5, 0, 0))) = inj (0, 0, 1)
  /\ ~ (checkCylinderCollision cyl1 cyl2 = true
        <-> cylinderRule (vnorm (vcross (0, 1, 0) (0, 0, 1)))
              (0, 0, 0) (0, 5, 5) 0.01 0.01 1 1 (0, 1, 0) (0, 0, 1)).
Proof.
  intros cyl1 cyl2.
  split; [exact eulerToDirection_zero |]. split; [exact eulerToDirection_quarter_x |].
  assert (Hcode : checkCylinderCollision cyl1 cyl2 = false).
  { unfold cyl1, cyl2.
    rewrite (@checkCylinderCollision_Num (0, 0, 0) (0, 5, 5) (0, 0, 0) (0.5, 0, 0)
               (0, 1, 0) (0, 0, 1) 0.01 0.01 1 1 (Num 1) (Num 1)
               "concrete" "concrete" eulerToDirection_zero eulerToDirection_quarter_x).
    rewrite vcross_scale, vnorm_scale.
    replace (vcross (0, 1, 0) (0, 0, 1)) with (1, 0, 0)
      by (cbn [vcross]; apply rvec_eq; ring).
    rewrite vnorm_along_x, !Rabs_pos_eq by lra.
    destruct (Rlt_dec (0.01 * 0.01 * 1) 0.001) as [_ | G]; [| exfalso; lra].
    apply Rltb_false. unfold vdist, vnorm. cbn [vsub vdot].
    rewrite sqrt_lt_sq by nra. nra. }
  intros [_ Hrule]. rewrite Hcode in Hrule.
  assert (Habs : false = true); [apply Hrule | discriminate].
  right.
  replace (vcross (0, 1, 0) (0, 0, 1)) with (1, 0, 0)
    by (cbn [vcross]; apply rvec_eq; ring).
  rewrite vnorm_along_x, Rabs_pos_eq by lra.
  split; [lra |].
  unfold lineDistance.
  replace (vcross (0, 1, 0) (0, 0, 1)) with (1, 0, 0)
    by (cbn [vcross]; apply rvec_eq; ring).
  rewrite vnorm_along_x, (Rabs_pos_eq 1) by lra.
  unfold axisStart. cbn [vsub vscale vdot].
  match goal with
  | |- Rabs ?e / 1 < _ => replace e with 0 by lra
  end.
  rewrite Rabs_R0. lra.
Qed.

(** C6, amended.  For two cylinders with the same axis direction the engine
    compares the distance of the centers, which combines the offset across
    the axis with the offset along it: a collision is reported exactly when
    [sqrt (perp^2 + axial^2) < r1 + r2], whatever the heights. *)
Theorem parallel_cylinders_center_distance :
  forall (id1 id2 : string) (c1 c2 rot1 rot2 d : rvec) (h1 h2 r1 r2 : R)
         (rb1 rb2 : number) (m1 m2 : string),
  id1 <> id2 ->
  eulerToDirection (map3 (fun v => v * Math.PI)%num (inj rot1)) = inj d ->
  eulerToDirection (map3 (fun v => v * Math.PI)%num (inj rot2)) = inj d ->
  let cyl1 := Cylinder.mk (Num r1) rb1 (Num h1) (inj rot1) (inj c1) m1 in
  let cyl2 := Cylinder.mk (Num r2) rb2 (Num h2) (inj rot2) (inj c2) m2 in
  let perp := perpOffset c1 c2 d in
  let axial := axialOffset c1 c2 d in
  vdist c1 c2 = sqrt (perp ^ 2 + axial ^ 2)
  /\ (checkCylinderCollision cyl1 cyl2 = true
      <-> sqrt (perp ^ 2 + axial ^ 2) < r1 + r2)
  /\ (detectCollisions [(id1, cyl1); (id2, cyl2)] [] = [(id1, id2)]
      <-> sqrt (perp ^ 2 + axial ^ 2) < r1 + r2)
  /\ (detectCollisions [(id1, cyl1); (id2, cyl2)] [] = []
      <-> ~ sqrt (perp ^ 2 + axial ^ 2) < r1 + r2).
Proof.
  intros id1 id2 c1 c2 rot1 rot2 d h1 h2 r1 r2 rb1 rb2 m1 m2 Hne Hd1 Hd2
         cyl1 cyl2 perp axial.
  assert (Hdist : vdist c1 c2 = sqrt (perp ^ 2 + axial ^ 2)).
  { apply vdist_axial_perp. exact (eulerToDirection_unit _ _ Hd1). }
  assert (Hc : checkCylinderCollision cyl1 cyl2 = Rltb (vdist c1 c2) (r1 + r2)).
  { unfold cyl1, cyl2.
    rewrite (@checkCylinderCollision_Num c1 c2 rot1 rot2 d d h1 h2 r1 r2 rb1 rb2
               m1 m2 Hd1 Hd2).
    rewrite vcross_scale, vcross_self, vnorm_scale, vnorm_zero, Rmult_0_r.
    destruct (Rlt_dec 0 0.001) as [_ | G]; [reflexivity | exfalso; lra]. }
  rewrite detectCollisions_two_cylinders by exact Hne.
  rewrite Hc, <- Hdist. split; [reflexivity |].
  unfold Rltb. destruct (Rlt_dec (vdist c1 c2) (r1 + r2)) as [L | G].
  - repeat split; intros; try reflexivity; try assumption; try discriminate;
      try contradiction.
  - repeat split; intros; try reflexivity; try assumption; try discriminate;
      try contradiction.
Qed.

Lemma vdist_along_y (y : R) : 0 <= y -> vdist (0, 0, 0) (0, y, 0) = y.
Proof.
  intros Hy. unfold vdist, vnorm. cbn [vsub vdot].
  replace ((0 - 0) * (0 - 0) + (y - 0) * (y - 0) + (0 - 0) * (0 - 0)) with (Rsqr y)
    by (unfold Rsqr; ring).
  now apply sqrt_Rsqr.
Qed.

Lemma parallel_cylinders_center_distance_witness :
  let cyl1 := Cylinder.mk (Num 1) (Num 1) (Num 0.1) (inj (0, 0, 0)) (inj (0, 0, 0)) "concrete" in
  let cyl2 := Cylinder.mk (Num 1) (Num 1) (Num 0.1) (inj (0, 0, 0)) (inj (0, 1.5, 0)) "steel" in
  detectCollisions [("cylinder1", cyl1); ("cylinder2", cyl2)] []
  = [("cylinder1", "cylinder2")].
Proof.
  intros cyl1 cyl2.
  destruct (@parallel_cylinders_center_distance "cylinder1" "cylinder2"
              (0, 0, 0) (0, 1.5, 0) (0, 0, 0) (0, 0, 0) (0, 1, 0) 0.1 0.1 1 1
              (Num 1) (Num 1) "concrete" "steel"
              ltac:(discriminate) eulerToDirection_zero eulerToDirection_zero)
    as (Hdist & _ & Hrep & _).
  apply Hrep. rewrite <- Hdist, vdist_along_y by lra. lra.
Defined.

(** C6 as stated fails: two upright cylinders of radius 1 and height 2 on one
    axis, 100 apart along it.  The offset across the axis is 0, below
    [r1 + r2 = 2], and no collision is reported. *)
Lemma parallel_far_apart_not_reported :
  let cyl1 := Cylinder.mk (Num 1) (Num 1) (Num 2) (inj (0, 0, 0)) (inj (0, 0, 0)) "concrete" in
  let cyl2 := Cylinder.mk (Num 1) (Num 1) (Num 2) (inj (0, 0, 0)) (inj (0, 100, 0)) "concrete" in
  eulerToDirection (map3 (fun v => v * Math.PI)%num (inj (0, 0, 0))) = inj (0, 1, 0)
  /\ perpOffset (0, 0, 0) (0, 100, 0) (0, 1, 0) = 0
  /\ axialOffset (0, 0, 0) (0, 100, 0) (0, 1, 0) = 100
  /\ ~ (perpOffset (0, 0, 0) (0, 100, 0) (0, 1, 0) < 1 + 1 ->
        checkCylinderCollision cyl1 cyl2 = true)
  /\ detectCollisions [("cylinder1", cyl1); ("cylinder2", cyl2)] [] = [].
Proof.
  intros cyl1 cyl2.
  assert (Hax : axialOffset (0, 0, 0) (0, 100, 0) (0, 1, 0) = 100).
  { unfold axialOffset. cbn [vsub vdot]. lra. }
  assert (Hperp : perpOffset (0, 0, 0) (0, 100, 0) (0, 1, 0) = 0).
  { unfold perpOffset. rewrite Hax. cbn [vsub vscale].
    replace (0 - 0 - 100 * 0, 100 - 0 - 100 * 1, 0 - 0 - 100 * 0) with (0, 0, 0)
      by (apply rvec_eq; ring).
    apply vnorm_zero. }
  assert (Hcode : checkCylinderCollision cyl1 cyl2 = false).
  { unfold cyl1, cyl2.
    rewrite (@checkCylinderCollision_Num (0, 0, 0) (0, 100, 0) (0, 0, 0) (0, 0, 0)
               (0, 1, 0) (0, 1, 0) 2 2 1 1 (Num 1) (Num 1)
               "concrete" "concrete" eulerToDirection_zero eulerToDirection_zero).
    rewrite vcross_scale, vcross_self, vnorm_scale, vnorm_zero, Rmult_0_r.
    destruct (Rlt_dec 0 0.001) as [_ | G]; [| exfalso; lra].
    apply Rltb_false. rewrite vdist_along_y by lra. lra. }
  split; [exact eulerToDirection_zero |].
  split; [exact Hperp |]. split; [exact Hax |]. split.
  - intros H. rewrite Hcode in H. rewrite Hperp in H.
    assert (false = true) by (apply H; lra). discriminate.
  - rewrite detectCollisions_two_cylinders by discriminate.
    fold cyl1 cyl2. now rewrite Hcode.
Qed.

End CylinderClaims.

(** ** Cylinder against sphere *)

Section CylinderSphereClaims.
Local Open Scope R_scope.

Lemma clamp01_range (t : R) : 0 <= clamp01 t <= 1.
Proof.
  unfold clamp01, Rmax, Rmin.
  destruct (Rle_dec 1 t); destruct (Rle_dec 0 _); lra.
Qed.

(** C7.  The sphere center is projected on the axis segment with the
    parameter clamped to [0,1].  Strictly inside, the test is the distance to
    the closest axis point against [cylRadius + sphereRadius]; at an end
    point it is the cap test: within [radiusTop] of the cap center in the cap
    plane the axial offset decides, otherwise the distance to the rim. *)
Theorem checkCylinderSphereCollision_cases :
  forall (c s rot d : rvec) (h rc rs : R) (rb : number) (mc ms : string),
  eulerToDirection (map3 (fun v => v * Math.PI)%num (inj rot)) = inj d ->
  h <> 0 ->
  let cyl := Cylinder.mk (Num rc) rb (Num h) (inj rot) (inj c) mc in
  let sph := Sphere.mk (Num rs) (inj s) ms in
  let p0 := axisStart c h d in
  let p1 := axisEnd c h d in
  let tc := clamp01 (segmentParam s p0 p1) in
  let closest := vadd p0 (vscale tc (vsub p1 p0)) in
  let cap := if Req_dec_T tc 0 then p0 else p1 in
  let u := vscale (/ vnorm (vsub p1 p0)) (vsub p1 p0) in
  let axial := vdot (vsub s cap) u in
  let radial := vdist cap (vsub s (vscale axial u)) in
  let hit := checkCylinderSphereCollision cyl sph = true in
  0 <= tc <= 1
  /\ (0 < tc < 1 -> (hit <-> vdist s closest < rc + rs))
  /\ (tc = 0 \/ tc = 1 ->
      (radial <= rc -> (hit <-> Rabs axial < rs))
      /\ (rc < radial -> (hit <-> sqrt ((radial - rc) ^ 2 + axial ^ 2) < rs))).
Proof.
  intros c s rot d h rc rs rb mc ms Hd Hh cyl sph p0 p1 tc closest cap u axial
         radial hit.
  split; [apply clamp01_range |].
  unfold hit, cyl, sph.
  rewrite (@checkCylinderSphereCollision_Num c s rot d h rc rs rb mc ms Hd Hh).
  fold p0 p1. fold tc. fold closest cap u. fold axial. fold radial.
  split.
  - intros [Hlo Hhi].
    destruct (Req_dec_T tc 0) as [E | _]; [lra |].
    destruct (Req_dec_T tc 1) as [E | _]; [lra |].
    apply Rltb_true.
  - intros Hend.
    assert (Hcapcase :
      (if Req_dec_T tc 0
       then if Rle_dec radial rc then Rltb (Rabs axial) rs
            else Rltb (sqrt ((radial - rc) ^ 2 + axial ^ 2)) rs
       else if Req_dec_T tc 1
            then if Rle_dec radial rc then Rltb (Rabs axial) rs
                 else Rltb (sqrt ((radial - rc) ^ 2 + axial ^ 2)) rs
            else Rltb (vdist s closest) (rc + rs))
      = if Rle_dec radial rc then Rltb (Rabs axial) rs
        else Rltb (sqrt ((radial - rc) ^ 2 + axial ^ 2)) rs).
    { destruct (Req_dec_T tc 0) as [E0 | N0]; [reflexivity |].
      destruct (Req_dec_T tc 1) as [E1 | N1]; [reflexivity |].
      destruct Hend; contradiction. }
    rewrite Hcapcase.
    destruct (Rle_dec radial rc) as [Hin | Hout]; split; intros Hr;
      try (exfalso; lra); apply Rltb_true.
Qed.

Lemma vnorm_along_y (k : R) : vnorm (0, k, 0) = Rabs k.
Proof.
  unfold vnorm. cbn [vdot]. rewrite <- sqrt_Rsqr_abs. f_equal. unfold Rsqr. ring.
Qed.

(** An upright cylinder of radius 1 and height 2 at the origin and a unit
    sphere at (1.5, 0, 0): the projection falls in the middle of the axis and
    the side test applies. *)
Lemma checkCylinderSphereCollision_cases_witness :
  checkCylinderSphereCollision
    (Cylinder.mk (Num 1) (Num 1) (Num 2) (inj (0, 0, 0)) (inj (0, 0, 0)) "concrete")
    (Sphere.mk (Num 1) (inj (1.5, 0, 0)) "concrete")
  = true.
Proof.
  destruct (@checkCylinderSphereCollision_cases (0, 0, 0) (1.5, 0, 0) (0, 0, 0)
              (0, 1, 0) 2 1 1 (Num 1) "concrete" "concrete"
              eulerToDirection_zero ltac:(lra))
    as (_ & Hside & _).
  assert (Hp0 : axisStart (0, 0, 0) 2 (0, 1, 0) = (0, -1, 0)).
  { unfold axisStart. cbn [vsub vscale]. apply rvec_eq; lra. }
  assert (Hp1 : axisEnd (0, 0, 0) 2 (0, 1, 0) = (0, 1, 0)).
  { unfold axisEnd. cbn [vadd vscale]. apply rvec_eq; lra. }
  rewrite Hp0, Hp1 in Hside.
  assert (Ht : clamp01 (segmentParam (1.5, 0, 0) (0, -1, 0) (0, 1, 0)) = 0.5).
  { unfold segmentParam. cbn [vsub vdot].
    replace (0 - 0, 1 - -1, 0 - 0) with (0, 2, 0) by (apply rvec_eq; lra).
    rewrite vnorm_along_y, Rabs_pos_eq by lra.
    replace (((1.5 - 0) * (0 - 0) + (0 - -1) * (1 - -1) + (0 - 0) * (0 - 0)) / 2 ^ 2)
      with 0.5 by lra.
    unfold clamp01, Rmin, Rmax.
    destruct (Rle_dec 1 0.5); [lra |]. destruct (Rle_dec 0 0.5); lra. }
  rewrite Ht in Hside.
  apply Hside; [lra |].
  cbn [vsub vadd vscale].
  replace (0 + 0.5 * (0 - 0), -1 + 0.5 * (1 - -1), 0 + 0.5 * (0 - 0)) with (0, 0, 0)
    by (apply rvec_eq; lra).
  unfold vdist. cbn [vsub].
  replace (0 - 1.5, 0 - 0, 0 - 0) with (-1.5, 0, 0) by (apply rvec_eq; lra).
  rewrite vnorm_along_x, Rabs_left by lra. lra.
Defined.

(** With height 0 the axis is a point, the parameter is 0/0 and every
    comparison on it fails: no collision is reported. *)
Lemma checkCylinderSphereCollision_degenerate
    (c s rot d : rvec) (rc rs : R) (rb : number) (mc ms : string) :
  eulerToDirection (map3 (fun v => v * Math.PI)%num (inj rot)) = inj d ->
  checkCylinderSphereCollision
    (Cylinder.mk (Num rc) rb (Num 0) (inj rot) (inj c) mc)
    (Sphere.mk (Num rs) (inj s) ms)
  = false.
Proof.
  intros Hd. unfold checkCylinderSphereCollision.
  cbn [Cylinder.position Cylinder.radiusTop Cylinder.height Cylinder.rotation
       Sphere.position Sphere.radius].
  rewrite Hd.
  destruct c as [[cx cy] cz], s as [[sx sy] sz], d as [[a b] e].
  cbn -[Math.sqrt ltb leb eqb pow div Rabs Math.max Math.min].
  rewrite !sqrt_Num by (apply sum_sq_nonneg || apply sum_pow2_nonneg).
  match goal with
  | |- context [sq (Num (sqrt ?E))] =>
      replace (sqrt E) with 0 by (replace E with 0 by lra; symmetry; apply sqrt_0)
  end.
  cbn [sq lift1].
  assert (Hdiv : forall x y : R, y = 0 -> (Num x / Num y)%num = NaN).
  { intros x y ->. unfold div. destruct (Req_dec_T 0 0); [reflexivity | contradiction]. }
  rewrite !Hdiv by ring.
  reflexivity.
Qed.

End CylinderSphereClaims.

(** ** Strings *)

Section StringFacts.

Lemma append_nil_r (s : string) : s ++ "" = s.
Proof. induction s as [| c s IH]; cbn; [reflexivity | now rewrite IH]. Qed.

Lemma append_assoc (a b c : string) : (a ++ b) ++ c = a ++ (b ++ c).
Proof. induction a as [| x a IH]; cbn; [reflexivity | now rewrite IH]. Qed.

Lemma length_append (a b : string) :
  String.length (a ++ b) = (String.length a + String.length b)%nat.
Proof. induction a as [| x a IH]; cbn; [reflexivity | now rewrite IH]. Qed.

Lemma append_eq_nil (a b : string) : a ++ b = "" -> a = "" /\ b = "".
Proof. destruct a; cbn; [auto | discriminate]. Qed.

Lemma all_chars_append (P : ascii -> bool) (a b : string) :
  all_chars P (a ++ b) = all_chars P a && all_chars P b.
Proof.
  induction a as [| x a IH]; cbn; [reflexivity | now rewrite IH, andb_assoc].
Qed.

Lemma all_chars_impl (P Q : ascii -> bool) (s : string) :
  (forall c, P c = true -> Q c = true) ->
  all_chars P s = true -> all_chars Q s = true.
Proof.
  intros HPQ. induction s as [| c s IH]; cbn; [reflexivity |].
  intros H. apply andb_true_iff in H as [Hc Hs].
  now rewrite (HPQ _ Hc), IH.
Qed.

Lemma substring_all (s : string) : substring 0 (String.length s) s = s.
Proof. induction s as [| c s IH]; cbn; [reflexivity | now rewrite IH]. Qed.

Lemma substring_none (s : string) : substring 0 0 s = "".
Proof. destruct s; reflexivity. Qed.

Lemma substring_split (n : nat) (s : string) :
  (n <= String.length s)%nat ->
  substring 0 n s ++ substring n (String.length s - n) s = s.
Proof.
  revert s. induction n as [| n IH]; intros s Hn.
  - rewrite Nat.sub_0_r, substring_none, substring_all. reflexivity.
  - destruct s as [| c s]; cbn in Hn; [lia |].
    cbn. f_equal. apply IH. lia.
Qed.

Lemma substring_length (n m : nat) (s : string) :
  (n + m <= String.length s)%nat -> String.length (substring n m s) = m.
Proof.
  revert n m. induction s as [| c s IH]; intros n m H; cbn in H.
  - assert (n = 0 /\ m = 0)%nat as [-> ->] by lia. reflexivity.
  - destruct n as [| n]; cbn.
    + destruct m as [| m]; cbn; [reflexivity |]. f_equal. apply (IH 0%nat). lia.
    + apply IH. lia.
Qed.

End StringFacts.

(** ** Decimal digits *)

Section DecimalFacts.
Local Open Scope N_scope.

Lemma is_digit_not_space (c : ascii) : is_digit c = true -> is_space c = false.
Proof.
  unfold is_digit, is_space. intros H.
  apply andb_true_iff in H as [H1 H2].
  apply Nat.leb_le in H1, H2.
  destruct (9 <=? nat_of_ascii c)%nat eqn:A, (nat_of_ascii c <=? 13)%nat eqn:B,
           (nat_of_ascii c =? 32)%nat eqn:C, (nat_of_ascii c =? 160)%nat eqn:D;
    try reflexivity;
    repeat match goal with
    | H : (_ <=? _)%nat = true |- _ => apply Nat.leb_le in H
    | H : (_ =? _)%nat = true |- _ => apply Nat.eqb_eq in H
    end; lia.
Qed.

Lemma digit_char_is_digit (d : N) : d < 10 -> is_digit (digit_char d) = true.
Proof.
  intros Hd. unfold is_digit, digit_char.
  assert (E : nat_of_ascii (ascii_of_N (48 + d)) = N.to_nat (48 + d)).
  { unfold nat_of_ascii. rewrite N_ascii_embedding by lia. reflexivity. }
  rewrite E. apply andb_true_iff. split; apply Nat.leb_le; lia.
Qed.

Lemma digit_val_char (d : N) : d < 10 -> digit_val (digit_char d) = d.
Proof.
  intros Hd. unfold digit_val, digit_char. rewrite N_ascii_embedding by lia. lia.
Qed.

Lemma horner_app (acc : N) (a b : string) :
  horner acc (a ++ b) = horner (horner acc a) b.
Proof. revert acc. induction a as [| c a IH]; intros acc; cbn; [reflexivity | apply IH]. Qed.

Lemma log2_div10 (n : N) : 10 <= n -> N.log2 (n / 10) < N.log2 n.
Proof.
  intros Hn.
  assert (Hq : 0 < n / 10) by (apply N.div_str_pos; lia).
  assert (H2 : 2 * (n / 10) <= n).
  { pose proof (N.Div0.mul_div_le n 10). lia. }
  apply N.log2_le_mono in H2. rewrite N.log2_double in H2 by exact Hq. lia.
Qed.

Lemma decimal_fuel_spec (fuel : nat) (n : N) :
  (N.to_nat (N.log2 n) < fuel)%nat ->
  horner 0 (decimal_fuel fuel n) = n
  /\ all_chars is_digit (decimal_fuel fuel n) = true
  /\ decimal_fuel fuel n <> "".
Proof.
  revert n. induction fuel as [| fuel IH]; intros n Hf; [lia |].
  cbn [decimal_fuel]. destruct (N.ltb_spec n 10) as [Hlt | Hge].
  - cbn [horner all_chars]. rewrite digit_val_char, digit_char_is_digit by exact Hlt.
    split; [lia | split; [reflexivity | discriminate]].
  - destruct (IH (n / 10)) as (Hv & Hd & Hne).
    { pose proof (log2_div10 Hge). lia. }
    assert (Hm : n mod 10 < 10) by (apply N.mod_lt; lia).
    repeat split.
    + rewrite horner_app, Hv. cbn [horner]. rewrite digit_val_char by exact Hm.
      pose proof (N.div_mod n 10 ltac:(lia)). lia.
    + rewrite all_chars_append, Hd. cbn. now rewrite digit_char_is_digit.
    + intros E. apply append_eq_nil in E as [_ E]. discriminate.
Qed.

Lemma decimal_spec (n : N) :
  horner 0 (decimal n) = n
  /\ all_chars is_digit (decimal n) = true
  /\ decimal n <> "".
Proof. apply decimal_fuel_spec. lia. Qed.

Lemma decimal_inj (n m : N) : decimal n = decimal m -> n = m.
Proof.
  intros E. destruct (decimal_spec n) as (Hn & _), (decimal_spec m) as (Hm & _).
  rewrite <- Hn, <- Hm. now rewrite E.
Qed.

Lemma showIndex_inj (i j : nat) : showIndex i = showIndex j -> i = j.
Proof. unfold showIndex. intros E. apply decimal_inj in E. lia. Qed.

(** A run of digits followed by something that is not a digit is read whole. *)
Lemma scan_digits_run (ds rest : string) (acc : N) (count : nat) :
  all_chars is_digit ds = true ->
  match rest with "" => true | String c _ => negb (is_digit c) end = true ->
  scan_digits acc count (ds ++ rest)
  = (horner acc ds, (count + String.length ds)%nat, rest).
Proof.
  intros Hds Hrest. revert acc count.
  induction ds as [| c ds IH]; intros acc count; cbn.
  - rewrite Nat.add_0_r. destruct rest as [| c r]; [reflexivity |].
    cbn. apply negb_true_iff in Hrest. now rewrite Hrest.
  - cbn in Hds. apply andb_true_iff in Hds as [Hc Hds].
    rewrite Hc, IH by exact Hds. do 2 f_equal. lia.
Qed.

Lemma NumberOfDigits_decimal (n : N) : NumberOfDigits (decimal n) = n.
Proof.
  destruct (decimal_spec n) as (Hv & Hd & _).
  unfold NumberOfDigits.
  rewrite <- (append_nil_r (decimal n)), scan_digits_run by auto.
  exact Hv.
Qed.

End DecimalFacts.

(** ** Tokens, lines and white space *)

Section TokenFacts.

Lemma is_token_spec (t : string) :
  is_token t = true <-> t <> "" /\ all_chars (fun c => negb (is_space c)) t = true.
Proof.
  unfold is_token. rewrite andb_true_iff, negb_true_iff, String.eqb_neq. tauto.
Qed.

Lemma digits_token (ds : string) :
  ds <> "" -> all_chars is_digit ds = true -> is_token ds = true.
Proof.
  intros Hne Hd. apply is_token_spec. split; [exact Hne |].
  revert Hd. apply all_chars_impl. intros c Hc.
  now rewrite (is_digit_not_space c Hc).
Qed.

Lemma decimal_token (n : N) : is_token (decimal n) = true.
Proof. destruct (decimal_spec n) as (_ & Hd & Hne). now apply digits_token. Qed.

Lemma trimStart_token (t rest : string) :
  is_token t = true -> trimStart (t ++ rest) = t ++ rest.
Proof.
  intros Ht. apply is_token_spec in Ht as [Hne Hns].
  destruct t as [| c t]; [contradiction |].
  cbn in Hns |- *. apply andb_true_iff in Hns as [Hc _].
  apply negb_true_iff in Hc. now rewrite Hc.
Qed.

Lemma trimEnd_nonspace (t : string) :
  all_chars (fun c => negb (is_space c)) t = true -> trimEnd t = t.
Proof.
  induction t as [| c t IH]; cbn; [reflexivity |].
  intros H. apply andb_true_iff in H as [Hc Ht].
  apply negb_true_iff in Hc. now rewrite Hc, IH.
Qed.

Lemma trimEnd_token (s t : string) :
  is_token t = true -> trimEnd (s ++ t) = s ++ t.
Proof.
  intros Ht. pose proof Ht as Ht'. apply is_token_spec in Ht' as [Hne Hns].
  induction s as [| c s IH]; cbn.
  - now apply trimEnd_nonspace.
  - rewrite IH.
    destruct (String.eqb_spec (s ++ t) "") as [E | _].
    + apply append_eq_nil in E as [_ E]. contradiction.
    + now rewrite andb_false_r.
Qed.

Lemma split_ws_from_nonempty (b : bool) (s : string) : split_ws_from b s <> [].
Proof.
  revert b. induction s as [| c s IH]; intros b; cbn; [discriminate |].
  destruct (is_space c).
  - destruct b; [apply IH | discriminate].
  - destruct (split_ws_from false s); discriminate.
Qed.

(** Non-blank characters go to the first piece. *)
Lemma split_ws_from_nonspace (b : bool) (t rest : string) :
  is_token t = true ->
  split_ws_from b (t ++ rest)
  = match split_ws_from false rest with
    | p :: ps => (t ++ p) :: ps
    | [] => [t]
    end.
Proof.
  intros Ht. apply is_token_spec in Ht as [Hne Hns].
  destruct t as [| c t]; [contradiction |]. clear Hne.
  revert b c Hns. induction t as [| c' t IH]; intros b c Hns.
  - cbn in Hns |- *. rewrite andb_true_r in Hns. apply negb_true_iff in Hns.
    rewrite Hns. reflexivity.
  - cbn [all_chars] in Hns. apply andb_true_iff in Hns as [Hc Hns].
    apply negb_true_iff in Hc.
    change (String c (String c' t) ++ rest) with (String c (String c' t ++ rest)).
    cbn [split_ws_from]. rewrite Hc.
    rewrite (IH false c' Hns).
    destruct (split_ws_from false rest); reflexivity.
Qed.

Lemma split_ws_join (b : bool) (ts : list string) :
  ts <> [] -> forallb is_token ts = true ->
  split_ws_from b (join_sp ts) = ts.
Proof.
  intros Hne Hts. revert b.
  induction ts as [| t ts IH]; intros b; [contradiction |].
  cbn in Hts. apply andb_true_iff in Hts as [Ht Hts].
  destruct ts as [| t' ts].
  - cbn. rewrite <- (append_nil_r t) at 1.
    rewrite split_ws_from_nonspace by exact Ht. cbn. now rewrite append_nil_r.
  - change (join_sp (t :: t' :: ts)) with (t ++ String " " (join_sp (t' :: ts))).
    rewrite split_ws_from_nonspace by exact Ht.
    cbn [split_ws_from]. change (is_space " ") with true. cbn iota.
    rewrite (IH ltac:(discriminate) Hts true). now rewrite append_nil_r.
Qed.

Lemma join_sp_last (ts : list string) :
  ts <> [] -> forallb is_token ts = true ->
  exists s t, join_sp ts = s ++ t /\ is_token t = true.
Proof.
  induction ts as [| t ts IH]; intros Hne Hts; [contradiction |].
  cbn in Hts. apply andb_true_iff in Hts as [Ht Hts].
  destruct ts as [| t' ts].
  - exists "", t. split; [reflexivity | exact Ht].
  - destruct (IH ltac:(discriminate) Hts) as (s & tl & E & Htl).
    exists (t ++ " " ++ s), tl. split; [| exact Htl].
    change (join_sp (t :: t' :: ts)) with (t ++ " " ++ join_sp (t' :: ts)).
    rewrite E. now rewrite !append_assoc.
Qed.

Lemma trim_join (ts : list string) :
  forallb is_token ts = true -> trim (join_sp ts) = join_sp ts.
Proof.
  intros Hts. destruct ts as [| t ts]; [reflexivity |].
  unfold trim.
  assert (Hhead : exists rest, join_sp (t :: ts) = t ++ rest).
  { destruct ts; [exists ""; cbn; now rewrite append_nil_r | eexists; reflexivity]. }
  destruct Hhead as [rest Hhead].
  assert (Ht : is_token t = true).
  { cbn in Hts. now apply andb_true_iff in Hts as [Ht _]. }
  rewrite Hhead, (@trimStart_token t rest Ht). rewrite <- Hhead.
  destruct (@join_sp_last (t :: ts) ltac:(discriminate) Hts) as (s & tl & E & Htl).
  rewrite E. apply (@trimEnd_token s tl Htl).
Qed.

End TokenFacts.

Section LineFacts.

Lemma split_on_line (l rest : string) :
  no_LF l = true ->
  split_on "010" (l ++ LF ++ rest) = l :: split_on "010" rest.
Proof.
  intros Hl. induction l as [| c l IH]; cbn.
  - reflexivity.
  - cbn in Hl. apply andb_true_iff in Hl as [Hc Hl].
    apply negb_true_iff in Hc. rewrite Hc.
    cbn in IH. now rewrite (IH Hl).
Qed.

Lemma split_on_unlines (ls : list string) :
  forallb no_LF ls = true ->
  split_on "010" (unlines ls) = (ls ++ [""])%list.
Proof.
  induction ls as [| l ls IH]; cbn; [reflexivity |].
  intros H. apply andb_true_iff in H as [Hl Hls].
  change (l ++ String "010" (unlines ls)) with (l ++ LF ++ unlines ls).
  now rewrite split_on_line, IH.
Qed.

Lemma unlines_app (a b : list string) :
  unlines (a ++ b)%list = unlines a ++ unlines b.
Proof.
  induction a as [| l a IH]; cbn; [reflexivity |].
  now rewrite IH, !append_assoc.
Qed.

End LineFacts.

(** ** [toFixed(6)] and [parseFloat] *)

Section NumberText.

Lemma zeros_spec (k : nat) :
  all_chars is_digit (zeros k) = true /\ String.length (zeros k) = k
  /\ forall acc, horner acc (zeros k) = (acc * 10 ^ N.of_nat k)%N.
Proof.
  induction k as [| k (Hd & Hl & Hv)].
  - cbn. repeat split. intros acc. lia.
  - cbn [zeros all_chars String.length horner]. repeat split.
    + exact Hd.
    + now rewrite Hl.
    + intros acc. rewrite Hv. change (digit_val "0") with 0%N.
      rewrite Nat2N.inj_succ, N.pow_succ_r'. lia.
Qed.

Lemma fixedDigits_spec (n : N) :
  let '(a, b) := fixedDigits n in
  all_chars is_digit a = true /\ a <> ""
  /\ all_chars is_digit b = true /\ String.length b = 6%nat
  /\ horner 0 (a ++ b) = n.
Proof.
  unfold fixedDigits.
  destruct (decimal_spec n) as (Hv & Hd & Hne).
  destruct (zeros_spec (6 + 1 - String.length (decimal n))) as (Zd & Zl & Zv).
  set (m := if (String.length (decimal n) <=? 6)%nat
            then zeros (6 + 1 - String.length (decimal n)) ++ decimal n
            else decimal n).
  assert (Hm : all_chars is_digit m = true /\ (7 <= String.length m)%nat
               /\ horner 0 m = n).
  { unfold m. destruct (Nat.leb_spec (String.length (decimal n)) 6) as [Hle | Hgt].
    - repeat split.
      + now rewrite all_chars_append, Zd, Hd.
      + rewrite length_append, Zl. lia.
      + rewrite horner_app, Zv. exact Hv.
    - repeat split; [exact Hd | lia | exact Hv]. }
  destruct Hm as (Hmd & Hml & Hmv).
  pose proof (@substring_split (String.length m - 6) m ltac:(lia)) as Hsplit.
  replace (String.length m - (String.length m - 6))%nat with 6%nat in Hsplit by lia.
  assert (Hb : String.length (substring (String.length m - 6) 6 m) = 6%nat).
  { apply substring_length. lia. }
  set (a := substring 0 (String.length m - 6) m) in *.
  set (b := substring (String.length m - 6) 6 m) in *.
  rewrite <- Hsplit, all_chars_append in Hmd. apply andb_true_iff in Hmd as [Ha Hbd].
  repeat split; try assumption.
  - intros E. rewrite <- Hsplit, length_append, E, Hb in Hml. cbn in Hml. lia.
  - now rewrite Hsplit.
Qed.

Lemma toFixed_Num (r : R) :
  toFixed (Num r) 6
  = (if Rlt_dec r 0 then "-" else "")
    ++ fst (fixedDigits (Z.to_N (Zfloor ((if Rlt_dec r 0 then - r else r) * 10 ^ 6 + / 2))))
    ++ "."
    ++ snd (fixedDigits (Z.to_N (Zfloor ((if Rlt_dec r 0 then - r else r) * 10 ^ 6 + / 2)))).
Proof. reflexivity. Qed.

(** What [toFixed(6)] prints is one token. *)
Lemma toFixed_token (x : number) : is_token (toFixed x 6) = true.
Proof.
  destruct x as [r |]; [| reflexivity].
  rewrite toFixed_Num.
  set (n := Z.to_N _).
  pose proof (fixedDigits_spec n) as H. destruct (fixedDigits n) as [a b].
  destruct H as (Ha & Hane & Hb & _ & _). cbn [fst snd].
  assert (Hspace : forall s, all_chars is_digit s = true ->
                             all_chars (fun c => negb (is_space c)) s = true).
  { intros s. apply all_chars_impl. intros c Hc. now rewrite is_digit_not_space. }
  apply is_token_spec. split.
  - destruct (Rlt_dec r 0); [discriminate |].
    cbn [append]. intros E. apply append_eq_nil in E as [E _]. contradiction.
  - rewrite !all_chars_append, (Hspace a Ha), (Hspace b Hb).
    destruct (Rlt_dec r 0); reflexivity.
Qed.

Lemma scan_sign_digit (c : ascii) (s : string) :
  is_digit c = true -> scan_sign (String c s) = (false, String c s).
Proof.
  destruct c as [[] [] [] [] [] [] [] []]; cbn; intros H;
    try reflexivity; discriminate.
Qed.

Local Open Scope R_scope.

(** Reading a printed fixed-point literal back. *)
Lemma parseFloat_fixed (minus : bool) (a b : string) :
  all_chars is_digit a = true -> a <> "" ->
  all_chars is_digit b = true -> String.length b = 6%nat ->
  parseFloat ((if minus then "-" else "") ++ a ++ "." ++ b)
  = Num (if minus then - (IZR (Z.of_N (horner 0 (a ++ b))) / 10 ^ 6)
         else IZR (Z.of_N (horner 0 (a ++ b))) / 10 ^ 6).
Proof.
  intros Ha Hane Hb Hlen.
  destruct a as [| c a]; [contradiction |].
  pose proof Ha as Ha'. cbn [all_chars] in Ha'. apply andb_true_iff in Ha' as [Hc _].
  assert (Hsign : scan_sign (trimStart ((if minus then "-" else "")
                                        ++ String c a ++ "." ++ b))
                  = (minus, String c a ++ "." ++ b)).
  { destruct minus.
    - reflexivity.
    - cbn [append trimStart]. rewrite (is_digit_not_space c Hc).
      now apply scan_sign_digit. }
  unfold parseFloat. rewrite Hsign.
  rewrite (@scan_digits_run (String c a) ("." ++ b) 0%N 0%nat Ha eq_refl).
  cbn [append].
  rewrite <- (append_nil_r b) at 1.
  rewrite (@scan_digits_run b "" (horner 0 (String c a)) 0%nat Hb eq_refl).
  rewrite Hlen. cbn [String.length Nat.add Nat.eqb scan_exponent].
  rewrite <- horner_app.
  change (pow10 (0 - Z.of_nat (0 + 6))) with (/ 10 ^ 6).
  reflexivity.
Qed.

Lemma round_digits_nonneg (x : R) : 0 <= x -> (0 <= Zfloor (x * 10 ^ 6 + / 2))%Z.
Proof.
  intros Hx. apply Zfloor_lub.
  assert (0 < 10 ^ 6) by (apply pow_lt; lra). nra.
Qed.

(** C1, the codec of one number: text printed with [toFixed(6)] reads back
    as the 6-decimal rounding. *)
Lemma parseFloat_toFixed (r : R) : parseFloat (toFixed (Num r) 6) = Num (round6 r).
Proof.
  rewrite toFixed_Num.
  set (n := Z.to_N _).
  pose proof (fixedDigits_spec n) as H. destruct (fixedDigits n) as [a b] eqn:E.
  destruct H as (Ha & Hane & Hb & Hlen & Hv). cbn [fst snd].
  pose proof (@parseFloat_fixed (if Rlt_dec r 0 then true else false) a b
                Ha Hane Hb Hlen) as Hp.
  unfold round6. unfold n in Hv.
  destruct (Rlt_dec r 0) as [Hneg | Hpos]; rewrite Hp, Hv, Z2N.id;
    try reflexivity; apply round_digits_nonneg; lra.
Qed.

End NumberText.

(** ** Dictionaries *)

Section ObjFacts.
Context {A : Type}.
Local Open Scope list_scope.

Lemma set_fresh (o : obj A) (k : string) (v : A) :
  ~ In k (keys o) -> set o k v = o ++ [(k, v)].
Proof.
  induction o as [| [k' v'] o IH]; cbn; intros Hk; [reflexivity |].
  destruct (String.eqb_spec k' k) as [E | _]; [tauto |].
  rewrite IH; tauto.
Qed.

Lemma get_middle (a b : obj A) (k : string) (v : A) :
  ~ In k (keys a) -> get (a ++ (k, v) :: b) k = Some v.
Proof.
  induction a as [| [k' v'] a IH]; cbn; intros Hk.
  - now rewrite String.eqb_refl.
  - destruct (String.eqb_spec k' k) as [E | _]; [tauto |]. apply IH. tauto.
Qed.

Lemma set_middle (a b : obj A) (k : string) (v v' : A) :
  ~ In k (keys a) -> set (a ++ (k, v) :: b) k v' = a ++ (k, v') :: b.
Proof.
  induction a as [| [k' w] a IH]; cbn; intros Hk.
  - now rewrite String.eqb_refl.
  - destruct (String.eqb_spec k' k) as [E | _]; [tauto |]. rewrite IH; tauto.
Qed.

End ObjFacts.

(** ** Numbering of the imported primitives *)

Section Numbering.
Local Open Scope list_scope.

Lemma cylinderId_inj (i j : nat) : cylinderId i = cylinderId j -> i = j.
Proof. unfold cylinderId. intros E. inversion E. now apply showIndex_inj. Qed.

Lemma sphereId_inj (i j : nat) : sphereId i = sphereId j -> i = j.
Proof. unfold sphereId. intros E. inversion E. now apply showIndex_inj. Qed.

Lemma countCyl_app (ps qs : list prim) :
  countCyl (ps ++ qs) = (countCyl ps + countCyl qs)%nat.
Proof. unfold countCyl. now rewrite filter_app, length_app. Qed.

Lemma countSph_app (ps qs : list prim) :
  countSph (ps ++ qs) = (countSph ps + countSph qs)%nat.
Proof. unfold countSph. now rewrite filter_app, length_app. Qed.

Lemma count_total (ps : list prim) :
  (countCyl ps + countSph ps)%nat = List.length ps.
Proof.
  unfold countCyl, countSph.
  induction ps as [| [c | s] ps IH]; cbn; [reflexivity | |]; lia.
Qed.

Lemma cylindersFrom_app (ps qs : list prim) (ci : nat) :
  cylindersFrom (ps ++ qs) ci
  = cylindersFrom ps ci ++ cylindersFrom qs (ci + countCyl ps).
Proof.
  revert ci. induction ps as [| [c | s] ps IH]; intros ci; cbn.
  - f_equal. unfold countCyl. cbn. lia.
  - rewrite IH. do 3 f_equal. unfold countCyl. cbn. lia.
  - rewrite IH. do 2 f_equal.
Qed.

Lemma spheresFrom_app (ps qs : list prim) (si : nat) :
  spheresFrom (ps ++ qs) si
  = spheresFrom ps si ++ spheresFrom qs (si + countSph ps).
Proof.
  revert si. induction ps as [| [c | s] ps IH]; intros si; cbn.
  - f_equal. unfold countSph. cbn. lia.
  - rewrite IH. do 2 f_equal.
  - rewrite IH. do 3 f_equal. unfold countSph. cbn. lia.
Qed.

Lemma entriesFrom_app (ps qs : list prim) (ci si : nat) :
  entriesFrom (ps ++ qs) ci si
  = entriesFrom ps ci si ++ entriesFrom qs (ci + countCyl ps) (si + countSph ps).
Proof.
  revert ci si. induction ps as [| [c | s] ps IH]; intros ci si; cbn.
  - f_equal; unfold countCyl, countSph; cbn; lia.
  - rewrite IH. do 2 f_equal. f_equal; unfold countCyl, countSph; cbn; lia.
  - rewrite IH. do 2 f_equal. f_equal; unfold countCyl, countSph; cbn; lia.
Qed.

Lemma keys_cylindersFrom (ps : list prim) (ci : nat) :
  keys (cylindersFrom ps ci) = map cylinderId (seq ci (countCyl ps)).
Proof.
  revert ci. induction ps as [| [c | s] ps IH]; intros ci; cbn.
  - reflexivity.
  - unfold keys in *. cbn. now rewrite IH.
  - apply IH.
Qed.

Lemma keys_spheresFrom (ps : list prim) (si : nat) :
  keys (spheresFrom ps si) = map sphereId (seq si (countSph ps)).
Proof.
  revert si. induction ps as [| [c | s] ps IH]; intros si; cbn.
  - reflexivity.
  - apply IH.
  - unfold keys in *. cbn. now rewrite IH.
Qed.

Lemma cylinderId_fresh (ps : list prim) (ci j : nat) :
  (j < ci \/ ci + countCyl ps <= j)%nat -> ~ In (cylinderId j) (keys (cylindersFrom ps ci)).
Proof.
  intros Hj Hin. rewrite keys_cylindersFrom in Hin.
  apply in_map_iff in Hin as (i & E & Hi). apply cylinderId_inj in E. subst i.
  apply in_seq in Hi. lia.
Qed.

Lemma sphereId_fresh (ps : list prim) (si j : nat) :
  (j < si \/ si + countSph ps <= j)%nat -> ~ In (sphereId j) (keys (spheresFrom ps si)).
Proof.
  intros Hj Hin. rewrite keys_spheresFrom in Hin.
  apply in_map_iff in Hin as (i & E & Hi). apply sphereId_inj in E. subst i.
  apply in_seq in Hi. lia.
Qed.

Lemma length_entriesFrom (ps : list prim) (ci si : nat) :
  List.length (entriesFrom ps ci si) = List.length ps.
Proof.
  revert ci si. induction ps as [| [c | s] ps IH]; intros ci si; cbn;
    [reflexivity | |]; now rewrite IH.
Qed.

End Numbering.

(** ** The import loop *)

Section ImportLoop.
Local Open Scope list_scope.

Lemma material_line_not_record (l : string) :
  matchesMaterialLine l = true ->
  startsWith l "rcc" = false /\ startsWith l "sph" = false.
Proof.
  unfold matchesMaterialLine, startsWith.
  destruct l as [| c l]; cbn -[ascii_dec]; [discriminate |].
  intros H. apply andb_true_iff in H as [Hc _].
  split.
  - destruct (ascii_dec "r" c) as [<- | _]; [discriminate | reflexivity].
  - destruct (ascii_dec "s" c) as [<- | _]; [discriminate | reflexivity].
Qed.

Lemma represents_initial : represents initialImportState [] [].
Proof. repeat split. Qed.

Lemma importCylinder_represents (st : ImportState) (ps : list prim)
    (codes : list N) (line : string) :
  represents st ps codes ->
  (9 <= List.length (split_ws line))%nat ->
  represents (importCylinder st line)
             (ps ++ [PCyl (parsedCylinder (split_ws line))]) codes.
Proof.
  intros (Hc & Hs & Hci & Hsi & Ho & Hm) Hlen.
  unfold importCylinder. apply Nat.leb_le in Hlen. rewrite Hlen.
  unfold represents. cbn [newCylinderParams newSphereParams cylIndex sphIndex
                          objectOrder materialList].
  rewrite Hc, Hs, Hci, Hsi, Ho, Hm.
  rewrite cylindersFrom_app, spheresFrom_app, entriesFrom_app, countCyl_app,
    countSph_app.
  cbn [cylindersFrom spheresFrom entriesFrom Nat.add].
  fold (cylinderId (S (countCyl ps))).
  rewrite set_fresh by (apply cylinderId_fresh; lia).
  rewrite app_nil_r.
  change (countCyl [PCyl (parsedCylinder (split_ws line))]) with 1%nat.
  change (countSph [PCyl (parsedCylinder (split_ws line))]) with 0%nat.
  repeat split; f_equal; lia.
Qed.

Lemma importSphere_represents (st : ImportState) (ps : list prim)
    (codes : list N) (line : string) :
  represents st ps codes ->
  (6 <= List.length (split_ws line))%nat ->
  represents (importSphere st line)
             (ps ++ [PSph (parsedSphere (split_ws line))]) codes.
Proof.
  intros (Hc & Hs & Hci & Hsi & Ho & Hm) Hlen.
  unfold importSphere. apply Nat.leb_le in Hlen. rewrite Hlen.
  unfold represents. cbn [newCylinderParams newSphereParams cylIndex sphIndex
                          objectOrder materialList].
  rewrite Hc, Hs, Hci, Hsi, Ho, Hm.
  rewrite cylindersFrom_app, spheresFrom_app, entriesFrom_app, countCyl_app,
    countSph_app.
  cbn [cylindersFrom spheresFrom entriesFrom Nat.add].
  fold (sphereId (S (countSph ps))).
  rewrite set_fresh by (apply sphereId_fresh; lia).
  rewrite app_nil_r.
  change (countCyl [PSph (parsedSphere (split_ws line))]) with 0%nat.
  change (countSph [PSph (parsedSphere (split_ws line))]) with 1%nat.
  repeat split; f_equal; lia.
Qed.

(** One line: a recognised record is appended, an all-integer line replaces
    the material list, any other line is skipped. *)
Lemma importLine_represents (st : ImportState) (ps : list prim)
    (codes : list N) (line : string) :
  represents st ps codes ->
  represents (importLine st line)
             (ps ++ match parseLine line with Some p => [p] | None => [] end)
             (if isMaterialLine line then codesOf line else codes).
Proof.
  intros Hst. unfold importLine, parseLine, isMaterialLine, codesOf.
  destruct (matchesMaterialLine (trim line)) eqn:Hmat.
  - destruct (material_line_not_record _ Hmat) as [-> ->].
    rewrite app_nil_r.
    destruct Hst as (Hc & Hs & Hci & Hsi & Ho & Hm).
    repeat split; assumption.
  - destruct (startsWith (trim line) "rcc") eqn:Hrcc.
    + destruct (Nat.leb_spec 9 (List.length (split_ws (trim line)))) as [Hlen | Hlen].
      * now apply importCylinder_represents.
      * unfold importCylinder. apply Nat.leb_gt in Hlen. rewrite Hlen.
        now rewrite app_nil_r.
    + destruct (startsWith (trim line) "sph") eqn:Hsph.
      * destruct (Nat.leb_spec 6 (List.length (split_ws (trim line)))) as [Hlen | Hlen].
        -- now apply importSphere_represents.
        -- unfold importSphere. apply Nat.leb_gt in Hlen. rewrite Hlen.
           now rewrite app_nil_r.
      * now rewrite app_nil_r.
Qed.

Lemma fold_importLine_represents (lines : list string) (st : ImportState)
    (ps : list prim) (codes : list N) :
  represents st ps codes ->
  represents (fold_left importLine lines st)
             (ps ++ parsedPrims lines) (lastCodesFrom codes lines).
Proof.
  revert st ps codes. induction lines as [| l lines IH]; intros st ps codes Hst.
  - cbn. now rewrite app_nil_r.
  - cbn [fold_left parsedPrims]. unfold lastCodesFrom. cbn [fold_left].
    fold (lastCodesFrom (if isMaterialLine l then codesOf l else codes) lines).
    pose proof (importLine_represents l Hst) as Hstep.
    apply IH in Hstep.
    destruct (parseLine l) as [p |]; cbn [app] in Hstep.
    + now rewrite <- app_assoc in Hstep.
    + now rewrite app_nil_r in Hstep.
Qed.

End ImportLoop.

(** ** Material assignment *)

Section MaterialAssignment.
Local Open Scope list_scope.

Lemma entriesFrom_setMaterial (pre suf : list prim) (p : prim) (m : string)
    (ci si : nat) :
  entriesFrom (pre ++ setPrimMaterial p m :: suf) ci si
  = entriesFrom (pre ++ p :: suf) ci si.
Proof.
  rewrite !entriesFrom_app. f_equal. destruct p; reflexivity.
Qed.

Lemma assignMaterials_past_end (entries : list Entry.t) (idx : nat)
    (codes : list N) (o : obj Cylinder.t * obj Sphere.t) :
  (List.length entries <= idx)%nat ->
  assignMaterials entries idx codes o = o.
Proof.
  revert idx o. induction codes as [| m codes IH]; intros idx o Hidx; cbn;
    [reflexivity |].
  assert (E : nth_error entries idx = None) by now apply nth_error_None.
  rewrite E. apply IH. lia.
Qed.

(** One step of [forEach]: the primitive in position [length pre] takes the
    material of the code. *)
Lemma assignMaterial_step (pre suf : list prim) (p : prim) (m : string) :
  match nth_error (entriesFrom (pre ++ p :: suf) 1 1) (List.length pre) with
  | Some e =>
      if Entry.type e =? "cylinder" then
        (assignMaterial setCylinderMaterial (cylindersFrom (pre ++ p :: suf) 1)
           (Entry.id e) m,
         spheresFrom (pre ++ p :: suf) 1)
      else if Entry.type e =? "sphere" then
        (cylindersFrom (pre ++ p :: suf) 1,
         assignMaterial setSphereMaterial (spheresFrom (pre ++ p :: suf) 1)
           (Entry.id e) m)
      else (cylindersFrom (pre ++ p :: suf) 1, spheresFrom (pre ++ p :: suf) 1)
  | None => (cylindersFrom (pre ++ p :: suf) 1, spheresFrom (pre ++ p :: suf) 1)
  end
  = (cylindersFrom (pre ++ setPrimMaterial p m :: suf) 1,
     spheresFrom (pre ++ setPrimMaterial p m :: suf) 1).
Proof.
  rewrite entriesFrom_app, nth_error_app2 by (rewrite length_entriesFrom; lia).
  rewrite length_entriesFrom, Nat.sub_diag.
  rewrite !cylindersFrom_app, !spheresFrom_app.
  destruct p as [c | s]; cbn [entriesFrom nth_error Entry.type Entry.id
                              setPrimMaterial cylindersFrom spheresFrom].
  - change ("cylinder" =? "cylinder") with true. cbn iota.
    unfold assignMaterial.
    rewrite get_middle by (apply cylinderId_fresh; lia).
    rewrite set_middle by (apply cylinderId_fresh; lia).
    reflexivity.
  - change ("sphere" =? "cylinder") with false.
    change ("sphere" =? "sphere") with true. cbn iota.
    unfold assignMaterial.
    rewrite get_middle by (apply sphereId_fresh; lia).
    rewrite set_middle by (apply sphereId_fresh; lia).
    reflexivity.
Qed.

Lemma assignMaterials_spec (codes : list N) (pre suf : list prim) :
  assignMaterials (entriesFrom (pre ++ suf) 1 1) (List.length pre) codes
    (cylindersFrom (pre ++ suf) 1, spheresFrom (pre ++ suf) 1)
  = (cylindersFrom (pre ++ withMaterials suf (map matTypeOf codes)) 1,
     spheresFrom (pre ++ withMaterials suf (map matTypeOf codes)) 1).
Proof.
  revert pre suf. induction codes as [| m codes IH]; intros pre suf.
  - cbn. destruct suf; reflexivity.
  - destruct suf as [| p suf].
    + rewrite assignMaterials_past_end
        by (rewrite length_entriesFrom, app_nil_r; lia).
      reflexivity.
    + cbn [assignMaterials map withMaterials fst snd].
      rewrite (assignMaterial_step pre suf p (matTypeOf m)).
      rewrite <- (entriesFrom_setMaterial pre suf p (matTypeOf m)).
      replace (S (List.length pre))
        with (List.length (pre ++ [setPrimMaterial p (matTypeOf m)]))
        by (rewrite length_app; cbn; lia).
      replace (pre ++ setPrimMaterial p (matTypeOf m) :: suf)
        with ((pre ++ [setPrimMaterial p (matTypeOf m)]) ++ suf)
        by (now rewrite <- app_assoc).
      rewrite IH. now rewrite <- app_assoc.
Qed.

(** The scene [parseScene] returns is the numbered dictionaries of the
    recognised primitives with their final materials. *)
Lemma parseScene_spec (text : string) :
  parseScene text
  = (cylindersFrom (importedPrims text) 1, spheresFrom (importedPrims text) 1).
Proof.
  unfold parseScene, importedPrims.
  pose proof (fold_importLine_represents (split_on "010" text) represents_initial)
    as (Hc & Hs & _ & _ & Ho & Hm).
  cbn [app] in *. fold (lastCodes (split_on "010" text)) in Hm.
  rewrite Hc, Hs, Ho, Hm, length_entriesFrom.
  destruct ((0 <? List.length (lastCodes (split_on "010" text)))%nat
            && (List.length (parsedPrims (split_on "010" text))
                =? List.length (lastCodes (split_on "010" text)))%nat);
    [| reflexivity].
  apply (assignMaterials_spec (lastCodes (split_on "010" text)) []
           (parsedPrims (split_on "010" text))).
Qed.

End MaterialAssignment.

(** ** Import: completion and materials *)

Section ImportClaims.
Local Open Scope list_scope.

Lemma length_withMaterials (ps : list prim) (ms : list string) :
  List.length (withMaterials ps ms) = List.length ps.
Proof.
  revert ms. induction ps as [| p ps IH]; intros [| m ms]; cbn; try reflexivity.
  now rewrite IH.
Qed.

Lemma countCyl_withMaterials (ps : list prim) (ms : list string) :
  countCyl (withMaterials ps ms) = countCyl ps.
Proof.
  unfold countCyl. revert ms.
  induction ps as [| [c | s] ps IH]; intros [| m ms]; cbn; try reflexivity.
  - now rewrite IH.
  - apply IH.
Qed.

Lemma countSph_withMaterials (ps : list prim) (ms : list string) :
  countSph (withMaterials ps ms) = countSph ps.
Proof.
  pose proof (count_total (withMaterials ps ms)) as H1.
  pose proof (count_total ps) as H2.
  rewrite length_withMaterials, countCyl_withMaterials in H1. lia.
Qed.

Lemma importedPrims_counts (text : string) :
  List.length (importedPrims text) = List.length (parsedPrims (split_on "010" text))
  /\ countCyl (importedPrims text) = countCyl (parsedPrims (split_on "010" text))
  /\ countSph (importedPrims text) = countSph (parsedPrims (split_on "010" text)).
Proof.
  unfold importedPrims. destruct (_ && _); [| auto].
  now rewrite length_withMaterials, countCyl_withMaterials, countSph_withMaterials.
Qed.

Lemma handleFileImport_spec (text : string) (st : AppState) :
  handleFileImport text st
  = match importedPrims text with
    | [] => (st, Some noDataAlert)
    | _ :: _ => (committedState (importedPrims text), None)
    end.
Proof.
  unfold handleFileImport. rewrite parseScene_spec.
  rewrite keys_cylindersFrom, keys_spheresFrom, !length_map, !length_seq.
  pose proof (count_total (importedPrims text)) as Htot.
  unfold committedState.
  destruct (importedPrims text) as [| p ps] eqn:E.
  - reflexivity.
  - destruct (Nat.ltb_spec 0 (countCyl (p :: ps))) as [Hc | Hc].
    + reflexivity.
    + destruct (Nat.ltb_spec 0 (countSph (p :: ps))) as [Hs | Hs].
      * reflexivity.
      * cbn [List.length] in Htot. lia.
Qed.

(** C8.  Import is atomic: without a recognised [rcc]/[sph] record the alert
    is raised and the state returned unchanged; otherwise the scene is
    replaced by the parsed one, whose identifiers are [cylinder1..] and
    [sphere1..] in file order, and the first cylinder, or without cylinders
    the first sphere, is selected. *)
Theorem import_atomic :
  forall (text : string) (st : AppState),
  let recognised := parsedPrims (split_on "010" text) in
  let ps := importedPrims text in
  List.length ps = List.length recognised
  /\ handleFileImport text st
     = match recognised with
       | [] => (st, Some noDataAlert)
       | _ :: _ => (committedState ps, None)
       end
  /\ keys (cylinderParams (committedState ps))
     = map cylinderId (seq 1 (countCyl recognised))
  /\ keys (sphereParams (committedState ps))
     = map sphereId (seq 1 (countSph recognised))
  /\ (selectedObject (committedState ps), selectedObjectType (committedState ps))
     = (if (0 <? countCyl recognised)%nat then (cylinderId 1, "cylinder")
        else (sphereId 1, "sphere")).
Proof.
  intros text st recognised ps.
  destruct (importedPrims_counts text) as (Hlen & Hcc & Hcs).
  fold ps recognised in Hlen, Hcc, Hcs.
  split; [exact Hlen |]. split.
  - rewrite handleFileImport_spec. fold ps.
    destruct ps, recognised; try reflexivity; discriminate.
  - unfold committedState. cbn [cylinderParams sphereParams selectedObject
                                 selectedObjectType].
    rewrite keys_cylindersFrom, keys_spheresFrom, Hcc, Hcs.
    repeat split. now destruct (0 <? countCyl recognised)%nat.
Qed.

Lemma lastCodesFrom_line (lines : list string) (acc : option string)
    (codes : list N) :
  codes = match acc with Some l => codesOf l | None => [] end ->
  lastCodesFrom codes lines
  = match lastMaterialLineFrom acc lines with
    | Some l => codesOf l
    | None => []
    end.
Proof.
  revert acc codes. induction lines as [| l lines IH]; intros acc codes Hc.
  - exact Hc.
  - unfold lastCodesFrom, lastMaterialLineFrom. cbn [fold_left].
    apply IH. destruct (isMaterialLine l); [reflexivity | exact Hc].
Qed.

Lemma lastCodes_line (lines : list string) :
  lastCodes lines
  = match lastMaterialLine lines with
    | Some l => codesOf l
    | None => []
    end.
Proof. now apply lastCodesFrom_line. Qed.

Lemma lastMaterialLineFrom_none (lines : list string) (acc : option string) :
  forallb (fun l => negb (isMaterialLine l)) lines = true ->
  lastMaterialLineFrom acc lines = acc.
Proof.
  revert acc. induction lines as [| l lines IH]; intros acc H; [reflexivity |].
  cbn in H. apply andb_true_iff in H as [Hl H]. apply negb_true_iff in Hl.
  unfold lastMaterialLineFrom. cbn [fold_left]. rewrite Hl. now apply IH.
Qed.

(** Whatever comes before it, the last all-integer line is the one kept. *)
Lemma lastMaterialLine_last (lines1 lines2 : list string) (l : string) :
  isMaterialLine l = true ->
  forallb (fun l' => negb (isMaterialLine l')) lines2 = true ->
  lastMaterialLine (lines1 ++ l :: lines2) = Some l.
Proof.
  intros Hl H2. unfold lastMaterialLine, lastMaterialLineFrom.
  rewrite fold_left_app. cbn [fold_left]. rewrite Hl.
  now apply lastMaterialLineFrom_none.
Qed.

Lemma length_codesOf (l : string) : (0 < List.length (codesOf l))%nat.
Proof.
  unfold codesOf, split_ws. rewrite length_map.
  pose proof (split_ws_from_nonempty false (trim l)).
  destruct (split_ws_from false (trim l)); [contradiction | cbn; lia].
Qed.

(** The final materials in terms of the last all-integer line. *)
Lemma importedPrims_cases (text : string) :
  importedPrims text
  = match lastMaterialLine (split_on "010" text) with
    | Some l =>
        if (List.length (parsedPrims (split_on "010" text))
            =? List.length (codesOf l))%nat
        then withMaterials (parsedPrims (split_on "010" text))
               (map matTypeOf (codesOf l))
        else parsedPrims (split_on "010" text)
    | None => parsedPrims (split_on "010" text)
    end.
Proof.
  unfold importedPrims. rewrite lastCodes_line.
  destruct (lastMaterialLine (split_on "010" text)) as [l |]; [| reflexivity].
  pose proof (length_codesOf l) as Hpos. apply Nat.ltb_lt in Hpos.
  now rewrite Hpos.
Qed.

Lemma parseLine_concrete (l : string) (p : prim) :
  parseLine l = Some p -> primMaterial p = "concrete".
Proof.
  unfold parseLine.
  destruct (startsWith (trim l) "rcc").
  - destruct (9 <=? _)%nat; [| discriminate]. intros E. now inversion E.
  - destruct (startsWith (trim l) "sph"); [| discriminate].
    destruct (6 <=? _)%nat; [| discriminate]. intros E. now inversion E.
Qed.

Lemma parsedPrims_concrete (lines : list string) :
  Forall (fun p => primMaterial p = "concrete") (parsedPrims lines).
Proof.
  induction lines as [| l lines IH]; cbn; [constructor |].
  destruct (parseLine l) as [p |] eqn:E; [| exact IH].
  constructor; [now apply (parseLine_concrete l) | exact IH].
Qed.

Lemma matTypeOf_table (k : N) :
  matTypeOf k
  = if (k =? 1)%N then "concrete" else if (k =? 2)%N then "steel"
    else if (k =? 3)%N then "wood" else if (k =? 4)%N then "standard"
    else "concrete".
Proof.
  destruct k as [| [[[] | [] |] | [[] | [] |] |]]; reflexivity.
Qed.

Lemma nth_error_withMaterials (ps : list prim) (ms : list string) (k : nat)
    (p : prim) (m : string) :
  nth_error ps k = Some p -> nth_error ms k = Some m ->
  nth_error (withMaterials ps ms) k = Some (setPrimMaterial p m).
Proof.
  revert ms k. induction ps as [| q ps IH]; intros [| m' ms] [| k]; cbn;
    try discriminate.
  - intros E1 E2. now inversion E1; inversion E2.
  - apply IH.
Qed.

(** C9, amended.  The last trimmed line that consists of integers only is
    the material list exactly when it has as many pieces as primitives were
    parsed: then the codes apply by position, in file order, through the
    table 1 concrete, 2 steel, 3 wood, 4 standard, anything else concrete;
    with another count, or without such a line, every primitive keeps
    concrete. *)
Theorem material_list_last_line :
  forall (text : string),
  let lines := split_on "010" text in
  let parsed := parsedPrims lines in
  parseScene text
  = (cylindersFrom (importedPrims text) 1, spheresFrom (importedPrims text) 1)
  /\ Forall (fun p => primMaterial p = "concrete") parsed
  /\ match lastMaterialLine lines with
     | Some l =>
         let codes := codesOf l in
         List.length codes = List.length (split_ws (trim l))
         /\ (List.length codes = List.length parsed ->
             importedPrims text = withMaterials parsed (map matTypeOf codes)
             /\ forall k p c, nth_error parsed k = Some p ->
                  nth_error codes k = Some c ->
                  nth_error (importedPrims text) k
                  = Some (setPrimMaterial p (matTypeOf c)))
         /\ (List.length codes <> List.length parsed ->
             importedPrims text = parsed)
     | None => importedPrims text = parsed
     end
  /\ (forall k, matTypeOf k
       = if (k =? 1)%N then "concrete" else if (k =? 2)%N then "steel"
         else if (k =? 3)%N then "wood" else if (k =? 4)%N then "standard"
         else "concrete").
Proof.
  intros text lines parsed.
  split; [apply parseScene_spec |].
  split; [apply parsedPrims_concrete |].
  split; [| apply matTypeOf_table].
  rewrite importedPrims_cases. fold lines parsed.
  destruct (lastMaterialLine lines) as [l |]; [| reflexivity].
  cbn zeta. split; [apply length_map |]. split.
  - intros E. rewrite <- E, Nat.eqb_refl. split; [reflexivity |].
    intros k p c Hp Hc. apply nth_error_withMaterials; [exact Hp |].
    now apply map_nth_error.
  - intros NE. destruct (Nat.eqb_spec (List.length parsed) (List.length (codesOf l)));
      [congruence | reflexivity].
Qed.

Lemma cylindersFrom_concrete (ps : list prim) (ci : nat) :
  Forall (fun p => primMaterial p = "concrete") ps ->
  Forall (fun e => Cylinder.materialType (snd e) = "concrete") (cylindersFrom ps ci).
Proof.
  intros H. revert ci. induction H as [| [c | s] ps Hp Hps IH]; intros ci;
    cbn [cylindersFrom]; [constructor | | apply IH].
  constructor; [exact Hp | apply IH].
Qed.

Lemma spheresFrom_concrete (ps : list prim) (si : nat) :
  Forall (fun p => primMaterial p = "concrete") ps ->
  Forall (fun e => Sphere.materialType (snd e) = "concrete") (spheresFrom ps si).
Proof.
  intros H. revert si. induction H as [| [c | s] ps Hp Hps IH]; intros si;
    cbn [spheresFrom]; [constructor | apply IH |].
  constructor; [exact Hp | apply IH].
Qed.

(** C10.  With several all-integer lines only the last one counts.  Whatever
    precedes it, once the loop of [handleFileImport] has run, [materialList]
    holds the codes of the last such line [l]: an earlier one is gone even
    when its count fits.  When the count of [l] is the number of recognised
    records, the scene carries the materials of [l]; when it is not, the
    scene is the one the loop built and every cylinder and sphere keeps
    concrete. *)
Theorem material_list_later_line_wins :
  forall (text : string) (lines1 lines2 : list string) (l : string)
         (st : AppState),
  split_on "010" text = lines1 ++ l :: lines2 ->
  matchesMaterialLine (trim l) = true ->
  forallb (fun l' => negb (matchesMaterialLine (trim l'))) lines2 = true ->
  let final := fold_left importLine (split_on "010" text) initialImportState in
  let parsed := parsedPrims (split_on "010" text) in
  let codes := map NumberOfDigits (split_ws (trim l)) in
  materialList final = codes
  /\ List.length (objectOrder final) = List.length parsed
  /\ (List.length codes = List.length (objectOrder final) ->
      parseScene text
      = (cylindersFrom (withMaterials parsed (map matTypeOf codes)) 1,
         spheresFrom (withMaterials parsed (map matTypeOf codes)) 1))
  /\ (List.length codes <> List.length (objectOrder final) ->
      parseScene text = (newCylinderParams final, newSphereParams final)
      /\ Forall (fun e => Cylinder.materialType (snd e) = "concrete")
           (fst (parseScene text))
      /\ Forall (fun e => Sphere.materialType (snd e) = "concrete")
           (snd (parseScene text)))
  /\ (parsed <> [] ->
      cylinderParams (fst (handleFileImport text st)) = fst (parseScene text)
      /\ sphereParams (fst (handleFileImport text st)) = snd (parseScene text)).
Proof.
  intros text lines1 lines2 l st Hsplit Hl H2 final parsed codes.
  pose proof (lastMaterialLine_last lines1 lines2 l Hl H2) as Hlast.
  pose proof (fold_importLine_represents (split_on "010" text) represents_initial)
    as (Hc & Hs & _ & _ & Ho & Hm).
  cbn [app] in Hc, Hs, Ho, Hm. fold final parsed in Hc, Hs, Ho, Hm.
  fold (lastCodes (split_on "010" text)) in Hm.
  assert (Hcodes : lastCodes (split_on "010" text) = codes).
  { rewrite lastCodes_line, Hsplit, Hlast. reflexivity. }
  assert (Hlen : List.length (objectOrder final) = List.length parsed)
    by (rewrite Ho; apply length_entriesFrom).
  assert (Hcases : importedPrims text
                   = if (List.length parsed =? List.length codes)%nat
                     then withMaterials parsed (map matTypeOf codes)
                     else parsed).
  { rewrite importedPrims_cases, Hsplit, Hlast, <- Hsplit. reflexivity. }
  split; [now rewrite Hm |].
  split; [exact Hlen |].
  split; [| split].
  - intros E. rewrite parseScene_spec, Hcases.
    rewrite Hlen in E. now rewrite <- E, Nat.eqb_refl.
  - intros NE. rewrite parseScene_spec, Hcases. rewrite Hlen in NE.
    destruct (Nat.eqb_spec (List.length parsed) (List.length codes));
      [congruence |].
    rewrite Hc, Hs. split; [reflexivity |]. cbn [fst snd].
    split; [apply cylindersFrom_concrete | apply spheresFrom_concrete];
      apply parsedPrims_concrete.
  - intros Hne. rewrite handleFileImport_spec, parseScene_spec.
    pose proof (importedPrims_counts text) as (Hn & _). fold parsed in Hn.
    destruct (importedPrims text) as [| p ps] eqn:E.
    + destruct parsed; [contradiction | discriminate].
    + split; reflexivity.
Qed.

(** In the file [twoNumericLines] the line [2] has as many pieces as there
    are records, the later line [7 7] has not: the list that is kept is
    [7 7] and the sphere stays concrete. *)
Lemma material_list_later_line_wins_witness :
  matchesMaterialLine (trim "2") = true
  /\ List.length (split_ws (trim "2"))
     = List.length (parsedPrims (split_on "010" twoNumericLines))
  /\ materialList
       (fold_left importLine (split_on "010" twoNumericLines) initialImportState)
     = [7; 7]%N
  /\ Forall (fun e => Sphere.materialType (snd e) = "concrete")
       (snd (parseScene twoNumericLines))
  /\ Forall (fun e => Sphere.materialType (snd e) = "concrete")
       (sphereParams (fst (handleFileImport twoNumericLines initialState))).
Proof.
  destruct (@material_list_later_line_wins twoNumericLines
              ["sph 1 0 0 0 1"; "2"] [""] "7 7" initialState
              eq_refl eq_refl eq_refl) as (Hm & Hlen & _ & Hno & Hcommit).
  split; [reflexivity |]. split; [reflexivity |].
  split; [exact Hm |].
  assert (Hconcrete : Forall (fun e => Sphere.materialType (snd e) = "concrete")
                        (snd (parseScene twoNumericLines))).
  { apply Hno. rewrite Hlen. cbv -[parseFloat]. discriminate. }
  split; [exact Hconcrete |].
  destruct Hcommit as (_ & Hs); [cbv -[parseFloat]; discriminate |].
  rewrite Hs. exact Hconcrete.
Defined.

(** C9 as stated fails on the same file: the line [2] consists of integers
    only and has as many pieces as there are primitives, yet it is not used;
    the sphere stays concrete where code 2 would make it steel. *)
Lemma earlier_matching_line_not_applied :
  let lines := split_on "010" twoNumericLines in
  In "2" lines
  /\ isMaterialLine "2" = true
  /\ List.length (codesOf "2") = List.length (parsedPrims lines)
  /\ map primMaterial (withMaterials (parsedPrims lines) (map matTypeOf (codesOf "2")))
     = ["steel"]
  /\ map primMaterial (importedPrims twoNumericLines) = ["concrete"]
  /\ importedPrims twoNumericLines
     <> withMaterials (parsedPrims lines) (map matTypeOf (codesOf "2")).
Proof.
  cbv zeta.
  assert (H1 : map primMaterial
                 (withMaterials (parsedPrims (split_on "010" twoNumericLines))
                    (map matTypeOf (codesOf "2"))) = ["steel"])
    by (cbv -[parseFloat]; reflexivity).
  assert (H2 : map primMaterial (importedPrims twoNumericLines) = ["concrete"])
    by (cbv -[parseFloat]; reflexivity).
  split; [cbv -[parseFloat]; auto |].
  split; [reflexivity |]. split; [reflexivity |].
  split; [exact H1 |]. split; [exact H2 |].
  intros E. rewrite E, H1 in H2. discriminate.
Qed.

End ImportClaims.

(** ** Export *)

Section ExportFacts.

Lemma exportCylinder_line (s : string) (index : nat) (id : string)
    (params : Cylinder.t) :
  exportCylinder (s, index) (id, params)
  = (s ++ rccLine index params ++ LF, S index).
Proof.
  unfold exportCylinder, rccLine, rccTokens.
  destruct (Cylinder.position params) as [[cx cy] cz].
  destruct (Cylinder.rotation params) as [[rx ry] rz].
  cbn [map3].
  destruct (eulerToDirection _) as [[dx dy] dz].
  f_equal. f_equal. unfold join_sp. cbn [concat append].
  repeat (first [rewrite append_assoc | progress cbn [append]]). reflexivity.
Qed.

Lemma exportSphere_line (s : string) (index : nat) (id : string)
    (params : Sphere.t) :
  exportSphere (s, index) (id, params)
  = (s ++ sphLine index params ++ LF, S index).
Proof.
  unfold exportSphere, sphLine, sphTokens.
  destruct (Sphere.position params) as [[cx cy] cz].
  f_equal. f_equal. unfold join_sp. cbn [concat append].
  repeat (first [rewrite append_assoc | progress cbn [append]]). reflexivity.
Qed.

Lemma fold_exportCylinder (o : obj Cylinder.t) (s : string) (index : nat) :
  fold_left exportCylinder o (s, index)
  = (s ++ unlines (bodyLines rccLine index o), (index + List.length o)%nat).
Proof.
  revert s index. induction o as [| [id params] o IH]; intros s index.
  - cbn. now rewrite append_nil_r, Nat.add_0_r.
  - cbn [fold_left bodyLines unlines List.length].
    rewrite exportCylinder_line, IH. f_equal; [| lia].
    now rewrite !append_assoc.
Qed.

Lemma fold_exportSphere (o : obj Sphere.t) (s : string) (index : nat) :
  fold_left exportSphere o (s, index)
  = (s ++ unlines (bodyLines sphLine index o), (index + List.length o)%nat).
Proof.
  revert s index. induction o as [| [id params] o IH]; intros s index.
  - cbn. now rewrite append_nil_r, Nat.add_0_r.
  - cbn [fold_left bodyLines unlines List.length].
    rewrite exportSphere_line, IH. f_equal; [| lia].
    now rewrite !append_assoc.
Qed.

Lemma fold_exportZone {A} (o : obj A) (s : string) (index : nat) :
  fold_left exportZone o (s, index)
  = (s ++ unlines (map zoneLine (seq index (List.length o))),
     (index + List.length o)%nat).
Proof.
  revert s index. induction o as [| e o IH]; intros s index.
  - cbn. now rewrite append_nil_r, Nat.add_0_r.
  - cbn [fold_left List.length seq map unlines]. unfold exportZone at 2.
    rewrite IH. f_equal; [| lia].
    unfold zoneLine. now rewrite !append_assoc.
Qed.

Lemma materialLine_app (a b : list N) :
  materialLine (a ++ b) = materialLine a ++ materialLine b.
Proof.
  induction a as [| k a IH]; cbn; [reflexivity |]. now rewrite IH, !append_assoc.
Qed.

Lemma fold_exportMaterial {A} (materialType : A -> string) (o : obj A)
    (s : string) (index : nat) :
  fold_left (exportMaterial materialType) o (s, index)
  = (s ++ materialLine (map (fun e => materialInt (materialType (snd e))) o),
     (index + List.length o)%nat).
Proof.
  revert s index. induction o as [| [id params] o IH]; intros s index.
  - cbn. now rewrite append_nil_r, Nat.add_0_r.
  - cbn [fold_left List.length map materialLine snd]. unfold exportMaterial at 2.
    rewrite IH. f_equal; [| lia]. now rewrite !append_assoc.
Qed.

Lemma exportText_lines (cyls : obj Cylinder.t) (sphs : obj Sphere.t) :
  exportText cyls sphs = unlines (exportLines cyls sphs).
Proof.
  unfold exportText, exportLines.
  rewrite fold_exportCylinder, fold_exportSphere.
  rewrite fold_exportZone, fold_exportZone.
  rewrite fold_exportMaterial, fold_exportMaterial.
  rewrite !unlines_app, seq_app, map_app, unlines_app.
  unfold sceneCodes. rewrite materialLine_app.
  cbn [unlines append Nat.add]. rewrite !append_assoc.
  cbn [append]. rewrite !append_nil_r. reflexivity.
Qed.

Lemma nth_error_bodyLines {A} (line : nat -> A -> string) (o : obj A)
    (index k : nat) (id : string) (params : A) :
  nth_error o k = Some (id, params) ->
  nth_error (bodyLines line index o) k = Some (line (index + k)%nat params).
Proof.
  revert index k. induction o as [| [id' p'] o IH]; intros index [| k] H;
    cbn in *; try discriminate.
  - inversion H; subst. now rewrite Nat.add_0_r.
  - rewrite (IH (S index) k H). do 2 f_equal. lia.
Qed.

Lemma length_bodyLines {A} (line : nat -> A -> string) (o : obj A) (index : nat) :
  List.length (bodyLines line index o) = List.length o.
Proof.
  revert index. induction o as [| [id p] o IH]; intros index; cbn;
    [reflexivity | now rewrite IH].
Qed.

(** What [toFixed(6)] prints for a finite number: a sign, digits, the point
    and exactly six digits, which read back as the 6-decimal rounding. *)
Lemma toFixed_six_decimals (r : R) :
  exists a b : string,
    toFixed (Num r) 6 = (if Rlt_dec r 0 then "-" else "") ++ a ++ "." ++ b
    /\ all_chars is_digit a = true /\ a <> ""
    /\ all_chars is_digit b = true /\ String.length b = 6%nat
    /\ parseFloat (toFixed (Num r) 6) = Num (round6 r).
Proof.
  pose proof (fixedDigits_spec
                (Z.to_N (Zfloor ((if Rlt_dec r 0 then - r else r) * 10 ^ 6 + / 2))))
    as H.
  rewrite parseFloat_toFixed, toFixed_Num.
  destruct (fixedDigits _) as [a b]. destruct H as (Ha & Hane & Hb & Hlen & _).
  exists a, b. cbn [fst snd]. repeat split; assumption.
Qed.

Lemma length_exportLines (cyls : obj Cylinder.t) (sphs : obj Sphere.t) :
  List.length (exportLines cyls sphs)
  = (2 * (List.length cyls + List.length sphs) + 4)%nat.
Proof.
  unfold exportLines.
  rewrite !length_app, !length_bodyLines, length_map, length_seq.
  cbn [List.length]. lia.
Qed.

Lemma nth_error_tail {A} (x : A) (l : list A) (k : nat) :
  nth_error (x :: l) (S k) = nth_error l k.
Proof. reflexivity. Qed.

(** The lines of the file by position. *)
Lemma exportLines_layout (cyls : obj Cylinder.t) (sphs : obj Sphere.t) :
  let n := List.length cyls in
  let m := List.length sphs in
  let lines := exportLines cyls sphs in
  (forall k id c, nth_error cyls k = Some (id, c) ->
     nth_error lines k = Some (rccLine (1 + k) c))
  /\ (forall k id s, nth_error sphs k = Some (id, s) ->
        nth_error lines (n + k) = Some (sphLine (1 + n + k) s))
  /\ nth_error lines (n + m) = Some "end body"
  /\ (forall k, (k < n + m)%nat ->
        nth_error lines (n + m + 1 + k) = Some (zoneLine (1 + k)))
  /\ nth_error lines (2 * (n + m) + 1) = Some "end zone"
  /\ nth_error lines (2 * (n + m) + 2) = Some (materialLine (sceneCodes cyls sphs))
  /\ nth_error lines (2 * (n + m) + 3) = Some footer.
Proof.
  intros n m lines. unfold lines, exportLines.
  change (List.length cyls) with n. change (List.length sphs) with m.
  assert (Hb1 : List.length (bodyLines rccLine 1 cyls) = n)
    by apply length_bodyLines.
  assert (Hb2 : List.length (bodyLines sphLine (1 + n) sphs) = m)
    by apply length_bodyLines.
  assert (Hz : List.length (map zoneLine (seq 1 (n + m))) = (n + m)%nat)
    by now rewrite length_map, length_seq.
  split.
  { intros k id c H.
    rewrite nth_error_app1 by (rewrite Hb1; apply nth_error_Some; congruence).
    now apply nth_error_bodyLines with (id := id). }
  split.
  { intros k id s H0.
    rewrite nth_error_app2 by lia. rewrite Hb1.
    replace (n + k - n)%nat with k by lia.
    rewrite nth_error_app1 by (rewrite Hb2; apply nth_error_Some; congruence).
    rewrite (nth_error_bodyLines sphLine sphs (1 + n) k H0).
    do 2 f_equal. }
  split.
  { rewrite nth_error_app2 by lia. rewrite Hb1.
    rewrite nth_error_app2 by lia. rewrite Hb2.
    replace (n + m - n - m)%nat with 0%nat by lia. reflexivity. }
  split.
  { intros k Hk.
    rewrite nth_error_app2 by lia. rewrite Hb1.
    rewrite nth_error_app2 by lia. rewrite Hb2.
    replace (n + m + 1 + k - n - m)%nat with (S k) by lia.
    cbn [app]. rewrite nth_error_tail.
    rewrite nth_error_app1 by lia.
    rewrite nth_error_map, nth_error_nth' with (d := 0%nat)
      by (rewrite length_seq; exact Hk).
    cbn [option_map]. now rewrite seq_nth by exact Hk. }
  split.
  { rewrite nth_error_app2 by lia. rewrite Hb1.
    rewrite nth_error_app2 by lia. rewrite Hb2.
    replace (2 * (n + m) + 1 - n - m)%nat with (S (n + m)) by lia.
    cbn [app]. rewrite nth_error_tail.
    rewrite nth_error_app2 by lia. rewrite Hz.
    replace (n + m - (n + m))%nat with 0%nat by lia. reflexivity. }
  split.
  { rewrite nth_error_app2 by lia. rewrite Hb1.
    rewrite nth_error_app2 by lia. rewrite Hb2.
    replace (2 * (n + m) + 2 - n - m)%nat with (S (S (n + m))) by lia.
    cbn [app]. rewrite nth_error_tail.
    rewrite nth_error_app2 by lia. rewrite Hz.
    replace (S (n + m) - (n + m))%nat with 1%nat by lia. reflexivity. }
  { rewrite nth_error_app2 by lia. rewrite Hb1.
    rewrite nth_error_app2 by lia. rewrite Hb2.
    replace (2 * (n + m) + 3 - n - m)%nat with (S (S (S (n + m)))) by lia.
    cbn [app]. rewrite nth_error_tail.
    rewrite nth_error_app2 by lia. rewrite Hz.
    replace (S (S (n + m)) - (n + m))%nat with 2%nat by lia. reflexivity. }
Qed.

(** The pieces of the line of a finite cylinder and of a finite sphere,
    with the direction written out. *)
Lemma rccTokens_finite (index : nat) (rt h rx ry rz cx cy cz : R)
    (rb : number) (mat : string) :
  rccTokens index
    (Cylinder.mk (Num rt) rb (Num h) (Num rx, Num ry, Num rz)
       (Num cx, Num cy, Num cz) mat)
  = (let '(dx, dy, dz) := rotated (rx * PI) (ry * PI) (rz * PI) in
     ["rcc"; decimal (N.of_nat index);
      toFixed (Num (cx - 0.5 * h * dx)) 6;
      toFixed (Num (cy - 0.5 * h * dy)) 6;
      toFixed (Num (cz - 0.5 * h * dz)) 6;
      toFixed (Num (dx * h)) 6; toFixed (Num (dy * h)) 6;
      toFixed (Num (dz * h)) 6; toFixed (Num rt) 6])%R.
Proof.
  unfold rccTokens.
  cbn [Cylinder.rotation Cylinder.position Cylinder.height Cylinder.radiusTop
       map3 mul lift2 Math.PI].
  rewrite eulerToDirection_Num. unfold rotated, inj, showIndex.
  reflexivity.
Qed.

Lemma nth_error_sceneCodes (cyls : obj Cylinder.t) (sphs : obj Sphere.t) :
  (forall k id c, nth_error cyls k = Some (id, c) ->
     nth_error (sceneCodes cyls sphs) k
     = Some (materialInt (Cylinder.materialType c)))
  /\ (forall k id s, nth_error sphs k = Some (id, s) ->
        nth_error (sceneCodes cyls sphs) (List.length cyls + k)
        = Some (materialInt (Sphere.materialType s))).
Proof.
  unfold sceneCodes. split.
  - intros k id c H.
    rewrite nth_error_app1
      by (rewrite length_map; apply nth_error_Some; congruence).
    now rewrite nth_error_map, H.
  - intros k id s0 H.
    rewrite nth_error_app2 by (rewrite length_map; lia).
    rewrite length_map.
    replace (List.length cyls + k - List.length cyls)%nat with k by lia.
    now rewrite nth_error_map, H.
Qed.

Lemma materialInt_table (mat : string) :
  materialInt mat
  = if mat =? "steel" then 2%N else if mat =? "wood" then 3%N
    else if mat =? "standard" then 4%N else 1%N.
Proof.
  unfold materialInt, materialMap.
  destruct (String.eqb_spec mat "concrete") as [-> | _]; [reflexivity |].
  destruct (mat =? "steel"); [reflexivity |].
  destruct (mat =? "wood"); [reflexivity |].
  destruct (mat =? "standard"); reflexivity.
Qed.

(** C3.  For a scene whose centers, heights and radii are NaN or below
    10^20 in magnitude and whose material names are not members inherited
    from [Object.prototype], [handleExport] writes, unless the user cancels
    after a collision warning, [2 (n + m) + 4] lines: the cylinders in
    insertion order, then the spheres, under one index running from 1; [end body]; one
    zone line per primitive in the same order; [end zone]; the line of
    material codes (steel 2, wood 3, standard 4, anything else 1) in the
    order of the bodies; the footer.  The line of a finite cylinder carries
    the base [center - 0.5 height direction], the vector [direction height]
    and the upper radius, with the direction the unit vector [rotated] of
    the angles times pi.  Below 10^21 a real is printed with six decimals.
    The empty scene gives [end body], [end zone], an empty material line and
    the footer. *)
Theorem export_format :
  forall (st : AppState) (confirm : bool),
  let cyls := cylinderParams st in
  let sphs := sphereParams st in
  let n := List.length cyls in
  let m := List.length sphs in
  let lines := exportLines cyls sphs in
  let code := fun mat : string =>
    if mat =? "steel" then 2%N else if mat =? "wood" then 3%N
    else if mat =? "standard" then 4%N else 1%N in
  plainScene cyls sphs ->
  handleExport st confirm
  = (if (0 <? List.length (detectCollisions cyls sphs))%nat && negb confirm
     then None else Some (unlines lines))
  /\ List.length lines = (2 * (n + m) + 4)%nat
  /\ (forall k id c, nth_error cyls k = Some (id, c) ->
       nth_error lines k = Some (rccLine (1 + k) c))
  /\ (forall k id rt rb h rx ry rz cx cy cz mat,
       nth_error cyls k
       = Some (id, Cylinder.mk (Num rt) rb (Num h) (Num rx, Num ry, Num rz)
                     (Num cx, Num cy, Num cz) mat) ->
       nth_error lines k
       = Some (join_sp
                 (let '(dx, dy, dz) := rotated (rx * PI) (ry * PI) (rz * PI) in
                  ["rcc"; decimal (N.of_nat (1 + k));
                   toFixed (Num (cx - 0.5 * h * dx)) 6;
                   toFixed (Num (cy - 0.5 * h * dy)) 6;
                   toFixed (Num (cz - 0.5 * h * dz)) 6;
                   toFixed (Num (dx * h)) 6; toFixed (Num (dy * h)) 6;
                   toFixed (Num (dz * h)) 6; toFixed (Num rt) 6])%R))
  /\ (forall k id r cx cy cz mat,
       nth_error sphs k = Some (id, Sphere.mk r (cx, cy, cz) mat) ->
       nth_error lines (n + k)
       = Some (join_sp ["sph"; decimal (N.of_nat (1 + n + k)); toFixed cx 6;
                        toFixed cy 6; toFixed cz 6; toFixed r 6]))
  /\ nth_error lines (n + m) = Some "end body"
  /\ (forall k, (k < n + m)%nat ->
       nth_error lines (n + m + 1 + k)
       = Some ("zn" ++ decimal (N.of_nat (1 + k)) ++ " 1 "
               ++ decimal (N.of_nat (1 + k))))
  /\ nth_error lines (2 * (n + m) + 1) = Some "end zone"
  /\ (exists codes : list N,
       nth_error lines (2 * (n + m) + 2) = Some (materialLine codes)
       /\ List.length codes = (n + m)%nat
       /\ (forall k id c, nth_error cyls k = Some (id, c) ->
            nth_error codes k = Some (code (Cylinder.materialType c)))
       /\ (forall k id s, nth_error sphs k = Some (id, s) ->
            nth_error codes (n + k) = Some (code (Sphere.materialType s))))
  /\ nth_error lines (2 * (n + m) + 3) = Some "oesnt worend geom"
  /\ (forall r : R, (Rabs r < 10 ^ 21)%R -> exists a b : string,
       toFixed (Num r) 6 = (if Rlt_dec r 0 then "-" else "") ++ a ++ "." ++ b
       /\ all_chars is_digit a = true /\ a <> ""
       /\ all_chars is_digit b = true /\ String.length b = 6%nat
       /\ parseFloat (toFixed (Num r) 6) = Num (round6 r))
  /\ exportText [] []
     = "end body" ++ LF ++ "end zone" ++ LF ++ LF ++ "oesnt worend geom" ++ LF.
Proof.
  intros st confirm cyls sphs n m lines code _.
  destruct (exportLines_layout cyls sphs)
    as (Hcyl & Hsph & Hbody & Hzone & Hendzone & Hmat & Hfoot).
  fold n m lines in Hcyl, Hsph, Hbody, Hzone, Hendzone, Hmat, Hfoot.
  destruct (nth_error_sceneCodes cyls sphs) as (Hcc & Hcs).
  split; [unfold handleExport; fold cyls sphs; now rewrite exportText_lines |].
  split; [apply length_exportLines |].
  split; [exact Hcyl |].
  split.
  { intros k id rt rb h rx ry rz cx cy cz mat H.
    rewrite (Hcyl k id _ H). unfold rccLine. now rewrite rccTokens_finite. }
  split.
  { intros k id r cx cy cz mat H. now rewrite (Hsph k id _ H). }
  split; [exact Hbody |].
  split; [exact Hzone |].
  split; [exact Hendzone |].
  split.
  { exists (sceneCodes cyls sphs). split; [exact Hmat |].
    split; [unfold sceneCodes; now rewrite length_app, !length_map |].
    split.
    - intros k id c H. rewrite (Hcc k id c H). f_equal. apply materialInt_table.
    - intros k id s0 H. unfold n. rewrite (Hcs k id s0 H). f_equal.
      apply materialInt_table. }
  split; [exact Hfoot |].
  split; [intros r _; apply toFixed_six_decimals |].
  reflexivity.
Qed.

End ExportFacts.

(** ** Reconstruction of a cylinder from an [rcc] record *)

Section Reconstruction.
Local Open Scope R_scope.

Lemma PI_neq0' : PI <> 0.
Proof. pose proof PI_RGT_0. lra. Qed.

(** The arithmetic of the importer on finite values. *)
Lemma parsedCylinder_finite (parts : list string) (b d : rvec) (radius : R) :
  (parseFloat (nth 2 parts ""), parseFloat (nth 3 parts ""),
   parseFloat (nth 4 parts "")) = inj b ->
  (parseFloat (nth 5 parts ""), parseFloat (nth 6 parts ""),
   parseFloat (nth 7 parts "")) = inj d ->
  parseFloat (nth 8 parts "") = Num radius ->
  parsedCylinder parts = reconstructedCylinder b d radius.
Proof.
  destruct b as [[bx by_] bz], d as [[dx dy] dz]. cbn [inj].
  intros Hb Hd Hr. inversion Hb as [[Hbx Hby Hbz]]. inversion Hd as [[Hdx Hdy Hdz]].
  unfold parsedCylinder, reconstructedCylinder.
  rewrite Hbx, Hby, Hbz, Hdx, Hdy, Hdz, Hr.
  cbn [mul add lift2].
  rewrite !sqrt_Num by (apply sum_sq_nonneg || nra).
  cbn [Math.atan2 lift2]. unfold Math.PI.
  rewrite !div_Num by (apply PI_neq0' || lra).
  unfold vnorm. cbn [vdot vadd vscale inj].
  f_equal. f_equal; [f_equal |]; f_equal; lra.
Qed.


Lemma parseFloat_digit_0 : parseFloat "0" = Num 0.
Proof. cbv -[IZR Rmult pow Ropp Rinv]. f_equal. lra. Qed.

Lemma parseFloat_digit_1 : parseFloat "1" = Num 1.
Proof. cbv -[IZR Rmult pow Ropp Rinv]. f_equal. lra. Qed.

Lemma parseFloat_digit_2 : parseFloat "2" = Num 2.
Proof. cbv -[IZR Rmult pow Ropp Rinv]. f_equal. lra. Qed.





End Reconstruction.

(** ** Reading an exported file *)

Section ExportedLines.
Local Open Scope list_scope.

Lemma no_LF_append (a b : string) : no_LF (a ++ b)%string = no_LF a && no_LF b.
Proof. apply all_chars_append. Qed.

Lemma token_no_LF (t : string) : is_token t = true -> no_LF t = true.
Proof.
  intros Ht. apply is_token_spec in Ht as [_ Hns]. revert Hns.
  apply all_chars_impl. intros c Hc.
  destruct (Ascii.eqb_spec c "010") as [-> | _]; [discriminate | reflexivity].
Qed.

Lemma join_no_LF (ts : list string) :
  forallb is_token ts = true -> no_LF (join_sp ts) = true.
Proof.
  induction ts as [| t ts IH]; intros H; [reflexivity |].
  cbn in H. apply andb_true_iff in H as [Ht Hts].
  destruct ts as [| t' ts].
  - now apply token_no_LF.
  - change (join_sp (t :: t' :: ts)) with (t ++ " " ++ join_sp (t' :: ts))%string.
    rewrite !no_LF_append, (token_no_LF t Ht), (IH Hts). reflexivity.
Qed.

Lemma rccTokens_tokens (index : nat) (c : Cylinder.t) :
  forallb is_token (rccTokens index c) = true
  /\ List.length (rccTokens index c) = 9%nat.
Proof.
  unfold rccTokens.
  destruct (eulerToDirection _) as [[dx dy] dz].
  destruct (Cylinder.position c) as [[cx cy] cz].
  cbn [forallb List.length]. unfold showIndex.
  rewrite !toFixed_token, decimal_token. split; reflexivity.
Qed.

Lemma sphTokens_tokens (index : nat) (s : Sphere.t) :
  forallb is_token (sphTokens index s) = true
  /\ List.length (sphTokens index s) = 6%nat.
Proof.
  unfold sphTokens. destruct (Sphere.position s) as [[cx cy] cz].
  cbn [forallb List.length]. unfold showIndex.
  rewrite !toFixed_token, decimal_token. split; reflexivity.
Qed.

Lemma rccTokens_head (index : nat) (c : Cylinder.t) :
  exists ts, rccTokens index c = "rcc"%string :: showIndex index :: ts.
Proof.
  unfold rccTokens.
  destruct (eulerToDirection _) as [[dx dy] dz].
  destruct (Cylinder.position c) as [[cx cy] cz]. eexists. reflexivity.
Qed.

Lemma sphTokens_head (index : nat) (s : Sphere.t) :
  exists ts, sphTokens index s = "sph"%string :: showIndex index :: ts.
Proof.
  unfold sphTokens. destruct (Sphere.position s) as [[cx cy] cz].
  eexists. reflexivity.
Qed.

Lemma parseLine_rccLine (index : nat) (c : Cylinder.t) :
  parseLine (rccLine index c) = Some (PCyl (parsedCylinder (rccTokens index c))).
Proof.
  destruct (rccTokens_tokens index c) as (Htok & Hlen).
  unfold parseLine, rccLine.
  rewrite trim_join by exact Htok.
  unfold split_ws. rewrite split_ws_join; [| | exact Htok].
  - assert (Hrcc : startsWith (join_sp (rccTokens index c)) "rcc" = true).
    { destruct (rccTokens_head index c) as (ts & E). now rewrite E. }
    now rewrite Hrcc, Hlen.
  - intros E. rewrite E in Hlen. discriminate.
Qed.

Lemma parseLine_sphLine (index : nat) (s : Sphere.t) :
  parseLine (sphLine index s) = Some (PSph (parsedSphere (sphTokens index s))).
Proof.
  destruct (sphTokens_tokens index s) as (Htok & Hlen).
  unfold parseLine, sphLine.
  rewrite trim_join by exact Htok.
  unfold split_ws. rewrite split_ws_join; [| | exact Htok].
  - assert (Hrcc : startsWith (join_sp (sphTokens index s)) "rcc" = false).
    { destruct (sphTokens_head index s) as (ts & E). now rewrite E. }
    assert (Hsph : startsWith (join_sp (sphTokens index s)) "sph" = true).
    { destruct (sphTokens_head index s) as (ts & E). now rewrite E. }
    now rewrite Hrcc, Hsph, Hlen.
  - intros E. rewrite E in Hlen. discriminate.
Qed.

(** A line whose first character is neither white space nor [r] nor [s] is
    no record. *)
Lemma parseLine_other (c : ascii) (s : string) :
  is_space c = false -> c <> "r"%char -> c <> "s"%char ->
  parseLine (String c s) = None.
Proof.
  intros Hsp Hr Hs. unfold parseLine, trim.
  cbn [trimStart]. rewrite Hsp. cbn [trimEnd]. rewrite Hsp. cbn [andb].
  unfold startsWith. cbn -[ascii_dec].
  destruct (ascii_dec "r" c) as [E | _]; [congruence |].
  destruct (ascii_dec "s" c) as [E | _]; [congruence |]. reflexivity.
Qed.

Lemma digit_not_r_s (c : ascii) :
  is_digit c = true -> c <> "r"%char /\ c <> "s"%char.
Proof. intros H. split; intros ->; discriminate. Qed.

Lemma decimal_head (n : N) :
  exists c r, decimal n = String c r /\ is_digit c = true.
Proof.
  destruct (decimal_spec n) as (_ & Hd & Hne).
  destruct (decimal n) as [| c r]; [contradiction |].
  cbn in Hd. apply andb_true_iff in Hd as [Hc _]. now exists c, r.
Qed.

Lemma parseLine_materialLine (codes : list N) :
  parseLine (materialLine codes) = None.
Proof.
  destruct codes as [| k codes]; [reflexivity |].
  cbn [materialLine]. destruct (decimal_head k) as (c & r & E & Hc). rewrite E.
  destruct (digit_not_r_s c Hc) as [Hr Hs].
  apply parseLine_other; [now apply is_digit_not_space | exact Hr | exact Hs].
Qed.

Lemma parseLine_zoneLine (index : nat) : parseLine (zoneLine index) = None.
Proof. unfold zoneLine. now apply parseLine_other. Qed.

Lemma parsedPrims_app (a b : list string) :
  parsedPrims (a ++ b) = parsedPrims a ++ parsedPrims b.
Proof.
  induction a as [| l a IH]; cbn; [reflexivity |].
  destruct (parseLine l); cbn; now rewrite IH.
Qed.

Lemma parsedPrims_rcc (o : obj Cylinder.t) (index : nat) :
  parsedPrims (bodyLines rccLine index o)
  = map (fun l => PCyl (parsedCylinder (split_ws l))) (bodyLines rccLine index o).
Proof.
  revert index. induction o as [| [id c] o IH]; intros index; cbn [bodyLines];
    [reflexivity |].
  cbn [parsedPrims map]. rewrite parseLine_rccLine, IH. do 3 f_equal.
  destruct (rccTokens_tokens index c) as (Htok & Hlen).
  unfold rccLine, split_ws. rewrite split_ws_join; [reflexivity | | exact Htok].
  intros E. rewrite E in Hlen. discriminate.
Qed.

Lemma parsedPrims_sph (o : obj Sphere.t) (index : nat) :
  parsedPrims (bodyLines sphLine index o)
  = map (fun l => PSph (parsedSphere (split_ws l))) (bodyLines sphLine index o).
Proof.
  revert index. induction o as [| [id s] o IH]; intros index; cbn [bodyLines];
    [reflexivity |].
  cbn [parsedPrims map]. rewrite parseLine_sphLine, IH. do 3 f_equal.
  destruct (sphTokens_tokens index s) as (Htok & Hlen).
  unfold sphLine, split_ws. rewrite split_ws_join; [reflexivity | | exact Htok].
  intros E. rewrite E in Hlen. discriminate.
Qed.

Lemma parsedPrims_zones (l : list nat) : parsedPrims (map zoneLine l) = [].
Proof.
  induction l as [| i l IH]; cbn [map parsedPrims]; [reflexivity |].
  now rewrite parseLine_zoneLine.
Qed.

(** The records read from an exported file: its cylinders, then its spheres. *)
Lemma parsedPrims_exportLines (cyls : obj Cylinder.t) (sphs : obj Sphere.t) :
  parsedPrims (exportLines cyls sphs ++ [""%string])
  = map (fun l => PCyl (parsedCylinder (split_ws l))) (bodyLines rccLine 1 cyls)
    ++ map (fun l => PSph (parsedSphere (split_ws l)))
         (bodyLines sphLine (1 + List.length cyls) sphs).
Proof.
  unfold exportLines. rewrite !parsedPrims_app.
  rewrite parsedPrims_rcc, parsedPrims_sph, parsedPrims_zones.
  cbn [parsedPrims]. rewrite parseLine_materialLine.
  change (parseLine "end body") with (@None prim).
  change (parseLine "end zone") with (@None prim).
  change (parseLine footer) with (@None prim).
  change (parseLine "") with (@None prim).
  now rewrite !app_nil_r.
Qed.

Lemma materialLine_no_LF (codes : list N) : no_LF (materialLine codes) = true.
Proof.
  induction codes as [| k codes IH]; [reflexivity |].
  cbn [materialLine]. rewrite !no_LF_append, IH.
  now rewrite (token_no_LF _ (decimal_token k)).
Qed.

Lemma zoneLine_no_LF (index : nat) : no_LF (zoneLine index) = true.
Proof.
  unfold zoneLine, showIndex. rewrite !no_LF_append.
  now rewrite (token_no_LF _ (decimal_token (N.of_nat index))).
Qed.

Lemma bodyLines_no_LF {A} (line : nat -> A -> string) (o : obj A) (index : nat) :
  (forall i a, no_LF (line i a) = true) ->
  forallb no_LF (bodyLines line index o) = true.
Proof.
  intros Hline. revert index.
  induction o as [| [id a] o IH]; intros index; cbn; [reflexivity |].
  now rewrite Hline, IH.
Qed.

Lemma exportLines_no_LF (cyls : obj Cylinder.t) (sphs : obj Sphere.t) :
  forallb no_LF (exportLines cyls sphs) = true.
Proof.
  unfold exportLines. rewrite !forallb_app.
  assert (H1 : forallb no_LF (bodyLines rccLine 1 cyls) = true).
  { apply bodyLines_no_LF. intros i c. apply join_no_LF, rccTokens_tokens. }
  assert (H2 : forallb no_LF (bodyLines sphLine (1 + List.length cyls) sphs) = true).
  { apply bodyLines_no_LF. intros i s. apply join_no_LF, sphTokens_tokens. }
  assert (H3 : forallb no_LF
                 (map zoneLine (seq 1 (List.length cyls + List.length sphs))) = true).
  { apply forallb_forall. intros l Hl. apply in_map_iff in Hl as (i & <- & _).
    apply zoneLine_no_LF. }
  rewrite H1, H2, H3. cbn [forallb]. rewrite materialLine_no_LF. reflexivity.
Qed.

Lemma split_exportText (cyls : obj Cylinder.t) (sphs : obj Sphere.t) :
  split_on "010" (exportText cyls sphs) = exportLines cyls sphs ++ [""%string].
Proof.
  rewrite exportText_lines. apply split_on_unlines, exportLines_no_LF.
Qed.

End ExportedLines.

(** ** Round trip of a cylinder *)

Section RoundTrip.
Local Open Scope list_scope.

Lemma setPrimMaterial_same (p : prim) : setPrimMaterial p (primMaterial p) = p.
Proof. destruct p as [[] | []]; reflexivity. Qed.

Lemma withMaterials_sameShape (ps : list prim) (ms : list string) :
  Forall2 sameShape ps (withMaterials ps ms).
Proof.
  revert ms. induction ps as [| p ps IH]; intros ms; [destruct ms; constructor |].
  destruct ms as [| m ms]; cbn [withMaterials].
  - constructor.
    + exists (primMaterial p). now rewrite setPrimMaterial_same.
    + specialize (IH []). destruct ps; exact IH.
  - constructor; [now exists m | apply IH].
Qed.

Lemma importedPrims_sameShape (text : string) :
  Forall2 sameShape (parsedPrims (split_on "010" text)) (importedPrims text).
Proof.
  unfold importedPrims. destruct (_ && _).
  - apply withMaterials_sameShape.
  - pose proof (withMaterials_sameShape (parsedPrims (split_on "010" text)) []) as H.
    destruct (parsedPrims (split_on "010" text)); exact H.
Qed.

(** Among leading cylinders, position [i] of the list is position [i] of the
    cylinder dictionary, under the identifier [ci + i]. *)
Lemma cylindersFrom_nth (cs : list Cylinder.t) (rest ps' : list prim)
    (ci i : nat) (c : Cylinder.t) :
  Forall2 sameShape (map PCyl cs ++ rest) ps' ->
  nth_error cs i = Some c ->
  exists m,
    nth_error (cylindersFrom ps' ci) i
    = Some (cylinderId (ci + i), setCylinderMaterial c m).
Proof.
  revert ps' ci i. induction cs as [| c0 cs IH]; intros ps' ci i H12 Hi.
  - destruct i; discriminate.
  - cbn [map app] in H12. inversion H12 as [| p p' l l' [m Hm] Htl]; subst.
    cbn [setPrimMaterial cylindersFrom].
    destruct i as [| i]; cbn [nth_error] in *.
    + inversion Hi; subst. exists m. now rewrite Nat.add_0_r.
    + destruct (IH l' (S ci) i Htl Hi) as (m' & E).
      exists m'. rewrite E. do 3 f_equal. lia.
Qed.

Lemma nth_error_rcc_prims (o : obj Cylinder.t) (index i : nat) (id : string)
    (c : Cylinder.t) :
  nth_error o i = Some (id, c) ->
  nth_error (map (fun l => parsedCylinder (split_ws l)) (bodyLines rccLine index o)) i
  = Some (parsedCylinder (rccTokens (index + i) c)).
Proof.
  intros H. rewrite nth_error_map.
  rewrite (nth_error_bodyLines rccLine o index i H). cbn [option_map].
  destruct (rccTokens_tokens (index + i) c) as (Htok & Hlen).
  unfold rccLine, split_ws. rewrite split_ws_join; [reflexivity | | exact Htok].
  intros E. rewrite E in Hlen. discriminate.
Qed.

(** The cylinder in position [i] of a scene comes back in position [i], as
    the importer reads its body line, under the identifier [cylinder(i+1)]. *)
Lemma reimported_cylinder (cyls : obj Cylinder.t) (sphs : obj Sphere.t)
    (i : nat) (id : string) (c : Cylinder.t) :
  nth_error cyls i = Some (id, c) ->
  exists m,
    nth_error (cylindersFrom (importedPrims (exportText cyls sphs)) 1) i
    = Some (cylinderId (S i),
            setCylinderMaterial (parsedCylinder (rccTokens (S i) c)) m).
Proof.
  intros Hi.
  pose proof (importedPrims_sameShape (exportText cyls sphs)) as Hshape.
  rewrite split_exportText, parsedPrims_exportLines in Hshape.
  rewrite <- (map_map (fun l => parsedCylinder (split_ws l)) PCyl) in Hshape.
  apply (cylindersFrom_nth _ _ 1 i Hshape).
  apply (nth_error_rcc_prims cyls 1 i Hi).
Qed.

End RoundTrip.

(** ** Six-decimal rounding *)

Section Rounding.
Local Open Scope R_scope.

Lemma pow10_6 : 10 ^ 6 = 1000000.
Proof. lra. Qed.

Lemma round6_nonneg_eq (x : R) (n : Z) :
  0 <= x -> IZR n <= x * 1000000 + / 2 < IZR n + 1 -> round6 x = IZR n / 1000000.
Proof.
  intros Hx Hn. unfold round6. destruct (Rlt_dec x 0) as [L | _]; [lra |].
  rewrite pow10_6. now rewrite (Zfloor_eq n).
Qed.

Lemma round6_neg_eq (x : R) (n : Z) :
  x < 0 -> IZR n <= - x * 1000000 + / 2 < IZR n + 1 -> round6 x = - (IZR n / 1000000).
Proof.
  intros Hx Hn. unfold round6. destruct (Rlt_dec x 0) as [_ | G]; [| lra].
  rewrite pow10_6. now rewrite (Zfloor_eq n).
Qed.

Lemma round6_0 : round6 0 = 0.
Proof. rewrite (round6_nonneg_eq (x := 0) 0); lra. Qed.

Lemma round6_nonneg (x : R) : 0 <= x -> 0 <= round6 x.
Proof.
  intros Hx. unfold round6. destruct (Rlt_dec x 0) as [L | _]; [lra |].
  pose proof (round_digits_nonneg Hx) as Hz. apply IZR_le in Hz.
  rewrite pow10_6 in *. lra.
Qed.

(** The rounding moves a number by at most half a millionth. *)
Lemma round6_error (x : R) : - (5 / 10000000) <= round6 x - x <= 5 / 10000000.
Proof.
  unfold round6. rewrite pow10_6.
  destruct (Rlt_dec x 0) as [L | G].
  - pose proof (Zfloor_bound (- x * 1000000 + / 2)) as [H1 H2]. lra.
  - pose proof (Zfloor_bound (x * 1000000 + / 2)) as [H1 H2]. lra.
Qed.

Lemma Ratan2_0_nonneg (x : R) : 0 <= x -> Math.Ratan2 0 x = 0.
Proof.
  intros Hx. unfold Math.Ratan2.
  destruct (Rlt_dec 0 x) as [L | G].
  - unfold Rdiv. rewrite Rmult_0_l. apply atan_0.
  - destruct (Rlt_dec x 0); [lra |].
    destruct (Rlt_dec 0 0); [lra |]. reflexivity.
Qed.

End Rounding.

(** ** Export followed by import *)

Section ExportImport.
Local Open Scope R_scope.

(** The text of an exported cylinder with finite fields and direction [d]
    reads back as the record of the rounded base, axis and radius. *)
Lemma parsedCylinder_rccTokens (index : nat) (p rot d : rvec) (h r : R)
    (rb : number) (m : string) :
  eulerToDirection (map3 (fun v => v * Math.PI)%num (inj rot)) = inj d ->
  parsedCylinder (rccTokens index (Cylinder.mk (Num r) rb (Num h) (inj rot) (inj p) m))
  = reconstructedCylinder (round6v (axisStart p h d)) (round6v (vscale h d))
      (round6 r).
Proof.
  intros Hd. apply parsedCylinder_finite.
  - unfold rccTokens. cbn [Cylinder.rotation Cylinder.position Cylinder.height
                           Cylinder.radiusTop]. rewrite Hd.
    destruct d as [[dx dy] dz], p as [[px py] pz].
    cbn [inj nth sub mul lift2]. rewrite !parseFloat_toFixed. reflexivity.
  - unfold rccTokens. cbn [Cylinder.rotation Cylinder.position Cylinder.height
                           Cylinder.radiusTop]. rewrite Hd.
    destruct d as [[dx dy] dz], p as [[px py] pz].
    cbn [inj nth sub mul lift2]. rewrite !parseFloat_toFixed.
    cbn [vscale round6v inj]. now rewrite !(Rmult_comm h).
  - unfold rccTokens. cbn [Cylinder.rotation Cylinder.position Cylinder.height
                           Cylinder.radiusTop]. rewrite Hd.
    destruct d as [[dx dy] dz], p as [[px py] pz].
    cbn [inj nth]. apply parseFloat_toFixed.
Qed.

(** Export then import of any finite cylinder: it comes back in the same
    position, rebuilt from its base, axis and radius rounded to six
    decimals. *)
Lemma roundtrip_cylinder (st st0 : AppState) (confirm : bool) (text : string)
    (i : nat) (id : string) (p rot d : rvec) (h r : R) (rb : number) (m : string) :
  handleExport st confirm = Some text ->
  nth_error (cylinderParams st) i
  = Some (id, Cylinder.mk (Num r) rb (Num h) (inj rot) (inj p) m) ->
  eulerToDirection (map3 (fun v => v * Math.PI)%num (inj rot)) = inj d ->
  exists m',
    snd (handleFileImport text st0) = None
    /\ nth_error (cylinderParams (fst (handleFileImport text st0))) i
       = Some (cylinderId (S i),
               setCylinderMaterial
                 (reconstructedCylinder (round6v (axisStart p h d))
                    (round6v (vscale h d)) (round6 r)) m').
Proof.
  intros Hexp Hi Hd.
  assert (Htext : text = exportText (cylinderParams st) (sphereParams st)).
  { unfold handleExport in Hexp. destruct (_ && _); [discriminate |].
    now inversion Hexp. }
  subst text.
  destruct (@reimported_cylinder (cylinderParams st) (sphereParams st) i id _ Hi)
    as (m' & Hnth).
  rewrite (@parsedCylinder_rccTokens (S i) p rot d h r rb m Hd) in Hnth.
  exists m'. rewrite handleFileImport_spec.
  destruct (importedPrims (exportText (cylinderParams st) (sphereParams st)))
    as [| q qs] eqn:E.
  - destruct i; discriminate.
  - split; [reflexivity | exact Hnth].
Qed.

(** The record rebuilt from an upright cylinder (direction (0,1,0)). *)
Lemma reconstructed_upright (x y z h rr : R) :
  0 <= h ->
  let c := reconstructedCylinder (round6v (axisStart (x, y, z) h (0, 1, 0)))
             (round6v (vscale h (0, 1, 0))) rr in
  Cylinder.position c = inj (round6 x, round6 (y - 0.5 * h) + round6 h / 2, round6 z)
  /\ Cylinder.height c = Num (round6 h)
  /\ Cylinder.radiusTop c = Num rr
  /\ Cylinder.radiusBottom c = Num rr
  /\ Cylinder.rotation c = inj (0, 0, 0).
Proof.
  intros Hh c. subst c.
  unfold axisStart. cbn [vsub vscale round6v].
  replace (x - 0.5 * h * 0) with x by lra.
  replace (y - 0.5 * h * 1) with (y - 0.5 * h) by lra.
  replace (z - 0.5 * h * 0) with z by lra.
  replace (h * 0) with 0 by lra. replace (h * 1) with h by lra.
  rewrite round6_0.
  pose proof (round6_nonneg Hh) as HR.
  unfold reconstructedCylinder.
  cbn [Cylinder.position Cylinder.height Cylinder.radiusTop Cylinder.radiusBottom
       Cylinder.rotation vadd vscale].
  split; [| split; [| split; [reflexivity | split; [reflexivity |]]]].
  - f_equal. apply rvec_eq; lra.
  - f_equal. rewrite vnorm_along_y. now apply Rabs_pos_eq.
  - replace (0 * 0 + 0 * 0) with 0 by lra. rewrite sqrt_0.
    rewrite (Ratan2_0_nonneg HR), (@Ratan2_0_nonneg 0) by lra.
    unfold Rdiv. now rewrite Rmult_0_l.
Qed.

(** C1, amended.  A cylinder with orientation [0,0,0] and height at least 0
    comes back, in the same position of the scene, with the 6-decimal
    roundings of its X and Z coordinates, height and radius and with
    rotation [0,0,0]; its Y coordinate comes back as
    [round6 (y - h/2) + round6 h / 2], within 7.5e-7 of the original. *)
Theorem roundtrip_upright_cylinder :
  forall (st st0 : AppState) (confirm : bool) (text : string) (i : nat)
         (id : string) (x y z h r : R) (rb : number) (m : string),
  handleExport st confirm = Some text ->
  nth_error (cylinderParams st) i
  = Some (id, Cylinder.mk (Num r) rb (Num h) (inj (0, 0, 0)) (inj (x, y, z)) m) ->
  0 <= h ->
  exists c' : Cylinder.t,
    snd (handleFileImport text st0) = None
    /\ nth_error (cylinderParams (fst (handleFileImport text st0))) i
       = Some (cylinderId (S i), c')
    /\ Cylinder.position c'
       = inj (round6 x, round6 (y - 0.5 * h) + round6 h / 2, round6 z)
    /\ Cylinder.height c' = Num (round6 h)
    /\ Cylinder.radiusTop c' = Num (round6 r)
    /\ Cylinder.radiusBottom c' = Num (round6 r)
    /\ Cylinder.rotation c' = inj (0, 0, 0)
    /\ Rabs (round6 (y - 0.5 * h) + round6 h / 2 - y) <= 75 / 100000000.
Proof.
  intros st st0 confirm text i id x y z h r rb m Hexp Hi Hh.
  destruct (@roundtrip_cylinder st st0 confirm text i id (x, y, z) (0, 0, 0)
              (0, 1, 0) h r rb m Hexp Hi eulerToDirection_zero)
    as (m' & Hnone & Hnth).
  eexists. split; [exact Hnone |]. split; [exact Hnth |].
  destruct (@reconstructed_upright x y z h (round6 r) Hh)
    as (Hp & Hhe & Hrt & Hrb & Hrot).
  repeat split; try assumption.
  pose proof (round6_error (y - 0.5 * h)) as E1.
  pose proof (round6_error h) as E2.
  apply Rabs_le. lra.
Qed.

Lemma handleExport_confirmed (st : AppState) :
  handleExport st true = Some (exportText (cylinderParams st) (sphereParams st)).
Proof. unfold handleExport. now rewrite andb_false_r. Qed.

Lemma roundtrip_upright_cylinder_witness :
  exists c' : Cylinder.t,
    nth_error (cylinderParams (fst (handleFileImport (exportText uprightScene [])
                                      (mkAppState [] [] "" "")))) 0
    = Some ("cylinder1", c')
    /\ Cylinder.height c' = Num (round6 2)
    /\ Cylinder.rotation c' = inj (0, 0, 0).
Proof.
  destruct (@roundtrip_upright_cylinder
              (mkAppState uprightScene [] "cylinder1" "cylinder")
              (mkAppState [] [] "" "") true (exportText uprightScene []) 0
              "cylinder1" 0 0 0 2 1 (Num 1) "concrete"
              (handleExport_confirmed _) eq_refl ltac:(lra))
    as (c' & _ & Hnth & _ & Hh & _ & _ & Hrot & _).
  exists c'. repeat split; assumption.
Defined.

(** C1 as stated fails: an upright cylinder at the origin with height
    2.0000012.  Its base (0, -1.0000006, 0) is written as -1.000001 and its
    axis as 2.000001, so the centre comes back at y = -0.0000005, which is
    not the 6-decimal rounding 0 of the original y. *)
Lemma roundtrip_position_not_rounded :
  exists c' : Cylinder.t,
    handleExport (mkAppState tallScene [] "cylinder1" "cylinder") true
    = Some (exportText tallScene [])
    /\ nth_error (cylinderParams (fst (handleFileImport (exportText tallScene [])
                                         (mkAppState [] [] "" "")))) 0
       = Some ("cylinder1", c')
    /\ Cylinder.position c' = inj (0, - (5 / 10000000), 0)
    /\ Cylinder.position c' <> inj (round6 0, round6 0, round6 0).
Proof.
  destruct (@roundtrip_cylinder
              (mkAppState tallScene [] "cylinder1" "cylinder")
              (mkAppState [] [] "" "") true (exportText tallScene []) 0
              "cylinder1" (0, 0, 0) (0, 0, 0) (0, 1, 0) 2.0000012 1 (Num 1)
              "concrete" (handleExport_confirmed _) eq_refl eulerToDirection_zero)
    as (m' & _ & Hnth).
  eexists. split; [apply handleExport_confirmed |]. split; [exact Hnth |].
  destruct (@reconstructed_upright 0 0 0 2.0000012 (round6 1) ltac:(lra))
    as (Hp & _).
  assert (Hpos : Cylinder.position
                   (setCylinderMaterial
                      (reconstructedCylinder
                         (round6v (axisStart (0, 0, 0) 2.0000012 (0, 1, 0)))
                         (round6v (vscale 2.0000012 (0, 1, 0))) (round6 1)) m')
                 = inj (0, - (5 / 10000000), 0)).
  { change (Cylinder.position (setCylinderMaterial ?c m'))
      with (Cylinder.position c).
    rewrite Hp. f_equal. rewrite round6_0.
    rewrite (@round6_neg_eq (0 - 0.5 * 2.0000012) 1000001) by lra.
    rewrite (@round6_nonneg_eq 2.0000012 2000001) by lra.
    apply rvec_eq; lra. }
  split; [exact Hpos |].
  rewrite Hpos, round6_0. intros E. apply inj_inv in E. inversion E. lra.
Qed.

End ExportImport.

(** ** Worked examples *)

Section Examples.
Local Open Scope R_scope.

(** [toFixed(6)] on a number whose millionths round to [n]. *)
Lemma toFixed_nonneg (r : R) (n : Z) :
  0 <= r -> IZR n <= r * 1000000 + / 2 < IZR n + 1 ->
  toFixed (Num r) 6
  = (fst (fixedDigits (Z.to_N n)) ++ "." ++ snd (fixedDigits (Z.to_N n)))%string.
Proof.
  intros Hr Hn. rewrite toFixed_Num.
  destruct (Rlt_dec r 0) as [L | _]; [lra |].
  rewrite pow10_6, (Zfloor_eq n) by exact Hn. reflexivity.
Qed.

Lemma toFixed_neg (r : R) (n : Z) :
  r < 0 -> IZR n <= - r * 1000000 + / 2 < IZR n + 1 ->
  toFixed (Num r) 6
  = ("-" ++ fst (fixedDigits (Z.to_N n)) ++ "." ++ snd (fixedDigits (Z.to_N n)))%string.
Proof.
  intros Hr Hn. rewrite toFixed_Num.
  destruct (Rlt_dec r 0) as [_ | G]; [| lra].
  rewrite pow10_6, (Zfloor_eq n) by exact Hn. reflexivity.
Qed.

(** The body line of the upright cylinder of [uprightScene]. *)
Example rccLine_upright :
  rccLine 1 (Cylinder.mk (Num 1) (Num 1) (Num 2) (inj (0, 0, 0)) (inj (0, 0, 0))
               "concrete")
  = "rcc 1 0.000000 -1.000000 0.000000 0.000000 2.000000 0.000000 1.000000".
Proof.
  unfold rccLine, rccTokens.
  cbn [Cylinder.rotation Cylinder.position Cylinder.height Cylinder.radiusTop].
  rewrite eulerToDirection_zero. cbn [inj sub mul lift2].
  rewrite (@toFixed_nonneg (0 - 0.5 * 2 * 0) 0) by lra.
  rewrite (@toFixed_neg (0 - 0.5 * 2 * 1) 1000000) by lra.
  rewrite (@toFixed_nonneg (0 * 2) 0) by lra.
  rewrite (@toFixed_nonneg (1 * 2) 2000000) by lra.
  rewrite (@toFixed_nonneg 1 1000000) by lra.
  reflexivity.
Qed.

(** The file of the upright concrete cylinder and a steel sphere. *)
Lemma export_format_witness :
  handleExport (mkAppState uprightScene steelSphere "cylinder1" "cylinder") true
  = Some ("rcc 1 0.000000 -1.000000 0.000000 0.000000 2.000000 0.000000 1.000000"
          ++ LF ++ "sph 2 4.000000 0.000000 0.000000 1.000000"
          ++ LF ++ "end body" ++ LF ++ "zn1 1 1" ++ LF ++ "zn2 1 2" ++ LF
          ++ "end zone" ++ LF ++ "1 2 " ++ LF ++ "oesnt worend geom" ++ LF)%string.
Proof.
  assert (Hsmall : forall r, - 4 <= r <= 4 -> printable (Num r)).
  { intros r Hr. cbn [printable pow]. apply Rabs_def1; lra. }
  assert (Hplain : plainScene uprightScene steelSphere).
  { split; repeat constructor; cbn [fst snd Cylinder.position Cylinder.height
      Cylinder.radiusTop Sphere.position Sphere.radius inj printable3];
      try apply Hsmall; lra. }
  destruct (export_format
              (mkAppState uprightScene steelSphere "cylinder1" "cylinder") true
              Hplain)
    as (Hexp & _).
  rewrite Hexp, andb_false_r. f_equal.
  unfold exportLines.
  cbn [cylinderParams sphereParams uprightScene steelSphere bodyLines app
       List.length Nat.add].
  rewrite rccLine_upright. unfold sphLine, sphTokens.
  cbn [Sphere.position Sphere.radius inj].
  rewrite (@toFixed_nonneg 4 4000000) by lra.
  rewrite (@toFixed_nonneg 0 0) by lra.
  rewrite (@toFixed_nonneg 1 1000000) by lra.
  reflexivity.
Defined.

Lemma import_atomic_witness :
  handleFileImport "no records here" (mkAppState uprightScene [] "cylinder1" "cylinder")
  = (mkAppState uprightScene [] "cylinder1" "cylinder", Some noDataAlert)
  /\ snd (handleFileImport ("sph 7 0 0 0 1" ++ LF ++ "sph 9 4 0 0 1" ++ LF)
            (mkAppState uprightScene [] "cylinder1" "cylinder")) = None
  /\ keys (sphereParams
             (fst (handleFileImport ("sph 7 0 0 0 1" ++ LF ++ "sph 9 4 0 0 1" ++ LF)
                     (mkAppState uprightScene [] "cylinder1" "cylinder"))))
     = ["sphere1"; "sphere2"]%string
  /\ selectedObject
       (fst (handleFileImport ("sph 7 0 0 0 1" ++ LF ++ "sph 9 4 0 0 1" ++ LF)
               (mkAppState uprightScene [] "cylinder1" "cylinder")))
     = "sphere1"%string.
Proof.
  split.
  - apply (import_atomic "no records here"
             (mkAppState uprightScene [] "cylinder1" "cylinder")).
  - destruct (import_atomic ("sph 7 0 0 0 1" ++ LF ++ "sph 9 4 0 0 1" ++ LF)
                (mkAppState uprightScene [] "cylinder1" "cylinder"))
      as (_ & Himp & _ & Hks & Hsel).
    assert (Hrec : exists s1 s2,
               parsedPrims (split_on "010" ("sph 7 0 0 0 1" ++ LF ++ "sph 9 4 0 0 1" ++ LF))
               = [PSph s1; PSph s2]).
    { eexists. eexists. cbv -[parseFloat]. reflexivity. }
    destruct Hrec as (s1 & s2 & Hrec). rewrite Hrec in Himp, Hks, Hsel.
    rewrite Himp. cbn [fst snd].
    split; [reflexivity |]. split; [exact Hks |].
    now inversion Hsel.
Defined.

Lemma material_list_last_line_witness :
  map primMaterial
    (importedPrims ("sph 1 0 0 0 1" ++ LF ++ "rcc 2 0 0 0 0 1 0 1" ++ LF
                    ++ "end body" ++ LF ++ "3 9" ++ LF))
  = ["wood"; "concrete"]%string.
Proof.
  destruct (material_list_last_line
              ("sph 1 0 0 0 1" ++ LF ++ "rcc 2 0 0 0 0 1 0 1" ++ LF
               ++ "end body" ++ LF ++ "3 9" ++ LF))
    as (_ & _ & Hcase & _).
  assert (Hlast : lastMaterialLine
                    (split_on "010"
                       ("sph 1 0 0 0 1" ++ LF ++ "rcc 2 0 0 0 0 1 0 1" ++ LF
                        ++ "end body" ++ LF ++ "3 9" ++ LF))
                  = Some "3 9"%string) by reflexivity.
  rewrite Hlast in Hcase. destruct Hcase as (_ & Hfit & _).
  destruct Hfit as (Himp & _); [cbv -[parseFloat]; reflexivity |].
  rewrite Himp. cbv -[parseFloat]. reflexivity.
Defined.

End Examples.

(** ** Orientation: what [eulerToDirection] returns *)

Section DirectionFacts.
Local Open Scope R_scope.

Lemma eulerToDirection_NaN (rot : vec3) :
  finite3 rot = false -> eulerToDirection rot = (NaN, NaN, NaN).
Proof.
  destruct rot as [[[rx |] [ry |]] [rz |]]; intros H;
    try reflexivity; discriminate.
Qed.

Lemma finite3_inj (v : vec3) : finite3 v = true -> exists r : rvec, v = inj r.
Proof.
  destruct v as [[[a |] [b |]] [c |]]; try discriminate.
  intros _. now exists (a, b, c).
Qed.

Lemma finite3_map3 (v : vec3) :
  finite3 (map3 (fun a => a * Math.PI)%num v) = finite3 v.
Proof. now destruct v as [[[a |] [b |]] [c |]]. Qed.

(** X1.  For finite angles the vector that [eulerToDirection] normalises
    has length 1 already, so the division never meets a zero and the result
    is the unit vector [rotated]; an angle that is NaN makes all three
    coordinates NaN. *)
Theorem eulerToDirection_unit_or_NaN :
  (forall rx ry rz : R,
     eulerToDirection (Num rx, Num ry, Num rz) = inj (rotated rx ry rz)
     /\ vnorm (rotated rx ry rz) = 1)
  /\ (forall rot : vec3,
        finite3 rot = false -> eulerToDirection rot = (NaN, NaN, NaN)).
Proof.
  split; [| exact eulerToDirection_NaN].
  intros rx ry rz. split; [apply eulerToDirection_Num |].
  unfold vnorm. rewrite rotated_unit. apply sqrt_1.
Qed.

Lemma direction_upright (ry rz : R) :
  eulerToDirection (map3 (fun v => v * Math.PI)%num (Num 0, Num ry, Num rz))
  = inj (- sin (rz * PI), cos (rz * PI), 0).
Proof.
  cbn [map3 mul lift2 Math.PI]. rewrite eulerToDirection_Num.
  unfold rotated. rewrite Rmult_0_l, sin_0, cos_0. unfold inj.
  f_equal; [f_equal |]; f_equal; ring.
Qed.

(** X2.  A cylinder that is not tilted about X points along
    [(-sin(pi rz), cos(pi rz), 0)] whatever its rotation about Y: the Y
    angle changes neither what the export loop appends for the cylinder, nor
    the exported file of a scene that holds it, nor any collision test. *)
Theorem upright_cylinder_ignores_rotY (ry rz : R) (r rb h : number) (p : vec3)
    (m : string) :
  let turned := Cylinder.mk r rb h (Num 0, Num ry, Num rz) p m in
  let plain := Cylinder.mk r rb h (Num 0, Num 0, Num rz) p m in
  eulerToDirection (map3 (fun v => v * Math.PI)%num (Cylinder.rotation turned))
  = inj (- sin (rz * PI), cos (rz * PI), 0)
  /\ (forall (acc : string * nat) (id : string),
        exportCylinder acc (id, turned) = exportCylinder acc (id, plain))
  /\ (forall (before after : obj Cylinder.t) (sphs : obj Sphere.t) (id : string),
        exportText (before ++ (id, turned) :: after)%list sphs
        = exportText (before ++ (id, plain) :: after)%list sphs)
  /\ (forall other : Cylinder.t,
        checkCylinderCollision turned other = checkCylinderCollision plain other
        /\ checkCylinderCollision other turned = checkCylinderCollision other plain)
  /\ (forall sph : Sphere.t,
        checkCylinderSphereCollision turned sph
        = checkCylinderSphereCollision plain sph).
Proof.
  intros turned plain.
  assert (E : eulerToDirection
                (map3 (fun v => v * Math.PI)%num (Cylinder.rotation turned))
              = eulerToDirection
                  (map3 (fun v => v * Math.PI)%num (Cylinder.rotation plain))).
  { unfold turned, plain. cbn [Cylinder.rotation].
    now rewrite !direction_upright. }
  assert (Hline : forall index, rccLine index turned = rccLine index plain).
  { intros index. unfold rccLine, rccTokens. now rewrite E. }
  split; [apply direction_upright |].
  split; [| split; [| split]].
  - intros [text index] id. now rewrite !exportCylinder_line, Hline.
  - intros before after sphs id. rewrite !exportText_lines. f_equal.
    unfold exportLines, sceneCodes.
    rewrite !length_app, !map_app. cbn [List.length map snd].
    f_equal.
    generalize 1%nat as index.
    induction before as [| [id' c'] before IH]; intros index;
      cbn [app bodyLines]; [now rewrite Hline | now rewrite IH].
  - intros other. unfold checkCylinderCollision. now rewrite E.
  - intros sph. unfold checkCylinderSphereCollision. now rewrite E.
Qed.

End DirectionFacts.

(** ** NaN in the collision tests *)

Section NaNFacts.
Local Open Scope num_scope.

Lemma add_NaN_r a : a + NaN = NaN. Proof. now destruct a. Qed.
Lemma sub_NaN_r a : a - NaN = NaN. Proof. now destruct a. Qed.
Lemma mul_NaN_r a : a * NaN = NaN. Proof. now destruct a. Qed.
Lemma div_NaN_r a : a / NaN = NaN. Proof. now destruct a. Qed.
Lemma max_NaN_r a : Math.max a NaN = NaN. Proof. now destruct a. Qed.
Lemma min_NaN_r a : Math.min a NaN = NaN. Proof. now destruct a. Qed.
Lemma ltb_NaN_r a : (a <? NaN) = false. Proof. now destruct a. Qed.
Lemma leb_NaN_r a : (a <=? NaN) = false. Proof. now destruct a. Qed.
Lemma eqb_NaN_r a : (a === NaN) = false. Proof. now destruct a. Qed.
Lemma add_NaN_l a : NaN + a = NaN. Proof. reflexivity. Qed.
Lemma sub_NaN_l a : NaN - a = NaN. Proof. reflexivity. Qed.
Lemma mul_NaN_l a : NaN * a = NaN. Proof. reflexivity. Qed.
Lemma div_NaN_l a : NaN / a = NaN. Proof. reflexivity. Qed.
Lemma max_NaN_l a : Math.max NaN a = NaN. Proof. reflexivity. Qed.
Lemma min_NaN_l a : Math.min NaN a = NaN. Proof. reflexivity. Qed.
Lemma ltb_NaN_l a : (NaN <? a) = false. Proof. reflexivity. Qed.
Lemma leb_NaN_l a : (NaN <=? a) = false. Proof. reflexivity. Qed.
Lemma eqb_NaN_l a : (NaN === a) = false. Proof. reflexivity. Qed.
Lemma sq_NaN : sq NaN = NaN. Proof. reflexivity. Qed.
Lemma sqrt_NaN : Math.sqrt NaN = NaN. Proof. reflexivity. Qed.
Lemma abs_NaN : Math.abs NaN = NaN. Proof. reflexivity. Qed.

End NaNFacts.

Create Rewrite HintDb nan.
#[local] Hint Rewrite add_NaN_r sub_NaN_r mul_NaN_r div_NaN_r max_NaN_r min_NaN_r
  ltb_NaN_r leb_NaN_r eqb_NaN_r add_NaN_l sub_NaN_l mul_NaN_l div_NaN_l
  max_NaN_l min_NaN_l ltb_NaN_l leb_NaN_l eqb_NaN_l sq_NaN sqrt_NaN abs_NaN : nan.

Section NaNCollisions.
Local Open Scope num_scope.

Lemma isNum_false (a : number) : isNum a = false -> a = NaN.
Proof. destruct a; [discriminate | reflexivity]. Qed.

Lemma finite3_false (v : vec3) :
  finite3 v = false ->
  exists a b c, v = (NaN, b, c) \/ v = (a, NaN, c) \/ v = (a, b, NaN).
Proof.
  destruct v as [[a b] c]. exists a, b, c.
  destruct a, b, c; try discriminate; auto.
Qed.

Lemma finiteCylinder_false (c : Cylinder.t) :
  finiteCylinder c = false ->
  Cylinder.radiusTop c = NaN \/ Cylinder.height c = NaN
  \/ finite3 (Cylinder.rotation c) = false
  \/ finite3 (Cylinder.position c) = false.
Proof.
  unfold finiteCylinder. intros H.
  destruct (isNum (Cylinder.radiusTop c)) eqn:E1; [| left; now apply isNum_false].
  destruct (isNum (Cylinder.height c)) eqn:E2;
    [| right; left; now apply isNum_false].
  destruct (finite3 (Cylinder.rotation c)); [| now right; right; left].
  now right; right; right.
Qed.

Lemma finiteCylinder_true (c : Cylinder.t) :
  finiteCylinder c = true ->
  exists (r h : R) (rot p : rvec),
    c = Cylinder.mk (Num r) (Cylinder.radiusBottom c) (Num h) (inj rot) (inj p)
          (Cylinder.materialType c).
Proof.
  destruct c as [[r |] rb [h |] rot p m]; try discriminate.
  unfold finiteCylinder.
  cbn [Cylinder.radiusTop Cylinder.radiusBottom Cylinder.height Cylinder.rotation
       Cylinder.position Cylinder.materialType isNum andb].
  intros H. apply andb_prop in H. destruct H as [H1 H2].
  apply finite3_inj in H1, H2. destruct H1 as [rot' ->], H2 as [p' ->].
  now exists r, h, rot', p'.
Qed.

Lemma finiteSphere_true (s : Sphere.t) :
  finiteSphere s = true ->
  exists (r : R) (p : rvec), s = Sphere.mk (Num r) (inj p) (Sphere.materialType s).
Proof.
  destruct s as [[r |] p m]; try discriminate.
  unfold finiteSphere.
  cbn [Sphere.radius Sphere.position Sphere.materialType isNum andb].
  intros H. apply finite3_inj in H. destruct H as [p' ->]. now exists r, p'.
Qed.

Ltac nan_direction :=
  repeat match goal with
    | H : finite3 ?rot = false |- context [eulerToDirection (map3 ?f ?rot)] =>
        rewrite (@eulerToDirection_NaN (map3 f rot))
          by (rewrite finite3_map3; exact H)
    end;
  repeat match goal with
    | |- context [eulerToDirection ?r] =>
        let a := fresh "a" in let b := fresh "b" in let e := fresh "e" in
        destruct (eulerToDirection r) as [[a b] e]
    end.

Ltac nan_false :=
  cbn zeta beta iota; autorewrite with nan;
  repeat (match goal with
          | |- context [if ?b then _ else _] => destruct b
          end;
          cbn zeta beta iota; autorewrite with nan);
  try reflexivity.

Lemma checkCylinderCollision_NaN_l (cyl1 cyl2 : Cylinder.t) :
  finiteCylinder cyl1 = false -> checkCylinderCollision cyl1 cyl2 = false.
Proof.
  intros H. apply finiteCylinder_false in H.
  unfold checkCylinderCollision.
  destruct cyl1 as [r1 rb1 h1 rot1 p1 m1], cyl2 as [r2 rb2 h2 rot2 [[x2 y2] z2] m2].
  cbn [Cylinder.position Cylinder.radiusTop Cylinder.height Cylinder.rotation] in *.
  destruct H as [-> | [-> | [H | H]]].
  - destruct p1 as [[x1 y1] z1]. nan_direction. nan_false.
  - destruct p1 as [[x1 y1] z1]. nan_direction. nan_false.
  - destruct p1 as [[x1 y1] z1]. nan_direction. nan_false.
  - apply finite3_false in H. destruct H as (a & b & c & [-> | [-> | ->]]);
      nan_direction; nan_false.
Qed.

Lemma checkCylinderCollision_NaN_r (cyl1 cyl2 : Cylinder.t) :
  finiteCylinder cyl2 = false -> checkCylinderCollision cyl1 cyl2 = false.
Proof.
  intros H. apply finiteCylinder_false in H.
  unfold checkCylinderCollision.
  destruct cyl2 as [r2 rb2 h2 rot2 p2 m2], cyl1 as [r1 rb1 h1 rot1 [[x1 y1] z1] m1].
  cbn [Cylinder.position Cylinder.radiusTop Cylinder.height Cylinder.rotation] in *.
  destruct H as [-> | [-> | [H | H]]].
  - destruct p2 as [[x2 y2] z2]. nan_direction. nan_false.
  - destruct p2 as [[x2 y2] z2]. nan_direction. nan_false.
  - destruct p2 as [[x2 y2] z2]. nan_direction. nan_false.
  - apply finite3_false in H. destruct H as (a & b & c & [-> | [-> | ->]]);
      nan_direction; nan_false.
Qed.

Lemma checkSphereCollision_NaN_l (sph1 sph2 : Sphere.t) :
  finiteSphere sph1 = false -> checkSphereCollision sph1 sph2 = false.
Proof.
  unfold finiteSphere, checkSphereCollision.
  destruct sph1 as [r1 p1 m1], sph2 as [r2 [[x2 y2] z2] m2].
  cbn [Sphere.position Sphere.radius]. intros H.
  destruct (isNum r1) eqn:E; [| apply isNum_false in E; subst r1;
                                destruct p1 as [[x1 y1] z1]; nan_false].
  apply finite3_false in H. destruct H as (a & b & c & [-> | [-> | ->]]); nan_false.
Qed.

Lemma checkSphereCollision_NaN_r (sph1 sph2 : Sphere.t) :
  finiteSphere sph2 = false -> checkSphereCollision sph1 sph2 = false.
Proof.
  unfold finiteSphere, checkSphereCollision.
  destruct sph2 as [r2 p2 m2], sph1 as [r1 [[x1 y1] z1] m1].
  cbn [Sphere.position Sphere.radius]. intros H.
  destruct (isNum r2) eqn:E; [| apply isNum_false in E; subst r2;
                                destruct p2 as [[x2 y2] z2]; nan_false].
  apply finite3_false in H. destruct H as (a & b & c & [-> | [-> | ->]]); nan_false.
Qed.

Lemma checkCylinderSphereCollision_NaN_l (cyl : Cylinder.t) (sph : Sphere.t) :
  finiteCylinder cyl = false -> checkCylinderSphereCollision cyl sph = false.
Proof.
  intros H. apply finiteCylinder_false in H.
  unfold checkCylinderSphereCollision.
  destruct cyl as [rc rb h rot p m], sph as [rs [[sx sy] sz] ms].
  cbn [Cylinder.position Cylinder.radiusTop Cylinder.height Cylinder.rotation
       Sphere.position Sphere.radius] in *.
  destruct H as [-> | [-> | [H | H]]].
  - destruct p as [[cx cy] cz]. nan_direction. nan_false.
  - destruct p as [[cx cy] cz]. nan_direction. nan_false.
  - destruct p as [[cx cy] cz]. nan_direction. nan_false.
  - apply finite3_false in H. destruct H as (a & b & c & [-> | [-> | ->]]);
      nan_direction; nan_false.
Qed.

Lemma checkCylinderSphereCollision_NaN_r (cyl : Cylinder.t) (sph : Sphere.t) :
  finiteSphere sph = false -> checkCylinderSphereCollision cyl sph = false.
Proof.
  unfold finiteSphere, checkCylinderSphereCollision.
  destruct cyl as [rc rb h rot [[cx cy] cz] m], sph as [rs ps ms].
  cbn [Cylinder.position Cylinder.radiusTop Cylinder.height Cylinder.rotation
       Sphere.position Sphere.radius]. intros H.
  destruct (isNum rs) eqn:E.
  - apply finite3_false in H. destruct H as (a & b & c & [-> | [-> | ->]]);
      nan_direction; nan_false.
  - apply isNum_false in E; subst rs. destruct ps as [[sx sy] sz].
    nan_direction. nan_false.
Qed.

End NaNCollisions.

(** ** Properties of the three collision tests *)

Section CollisionTests.
Local Open Scope R_scope.

(** X3.  A NaN in the radius, the height, the rotation or the position of a
    cylinder, or in the radius or the position of a sphere, makes every test
    that involves it answer false: such an object is never reported. *)
Theorem collision_tests_false_on_NaN :
  (forall cyl1 cyl2 : Cylinder.t,
     finiteCylinder cyl1 && finiteCylinder cyl2 = false ->
     checkCylinderCollision cyl1 cyl2 = false)
  /\ (forall sph1 sph2 : Sphere.t,
        finiteSphere sph1 && finiteSphere sph2 = false ->
        checkSphereCollision sph1 sph2 = false)
  /\ (forall (cyl : Cylinder.t) (sph : Sphere.t),
        finiteCylinder cyl && finiteSphere sph = false ->
        checkCylinderSphereCollision cyl sph = false).
Proof.
  split; [| split].
  - intros cyl1 cyl2 H. apply andb_false_iff in H. destruct H as [H | H].
    + now apply checkCylinderCollision_NaN_l.
    + now apply checkCylinderCollision_NaN_r.
  - intros sph1 sph2 H. apply andb_false_iff in H. destruct H as [H | H].
    + now apply checkSphereCollision_NaN_l.
    + now apply checkSphereCollision_NaN_r.
  - intros cyl sph H. apply andb_false_iff in H. destruct H as [H | H].
    + now apply checkCylinderSphereCollision_NaN_l.
    + now apply checkCylinderSphereCollision_NaN_r.
Qed.

Lemma vnorm_vcross_swap (u v : rvec) : vnorm (vcross v u) = vnorm (vcross u v).
Proof.
  destruct u as [[u0 u1] u2], v as [[v0 v1] v2]. unfold vnorm. f_equal.
  cbn [vcross vdot]. ring.
Qed.

Lemma vdist_swap (p q : rvec) : vdist q p = vdist p q.
Proof.
  destruct p as [[p0 p1] p2], q as [[q0 q1] q2]. unfold vdist, vnorm. f_equal.
  cbn [vsub vdot]. ring.
Qed.

Lemma vdot_vsub_vcross_swap (p q u v : rvec) :
  vdot (vsub p q) (vcross v u) = vdot (vsub q p) (vcross u v).
Proof.
  destruct p as [[p0 p1] p2], q as [[q0 q1] q2], u as [[u0 u1] u2],
           v as [[v0 v1] v2].
  cbn [vsub vcross vdot]. ring.
Qed.

Lemma checkCylinderCollision_finite_sym (c1 c2 rot1 rot2 : rvec)
    (h1 h2 r1 r2 : R) (rb1 rb2 : number) (m1 m2 : string) :
  checkCylinderCollision (Cylinder.mk (Num r1) rb1 (Num h1) (inj rot1) (inj c1) m1)
                         (Cylinder.mk (Num r2) rb2 (Num h2) (inj rot2) (inj c2) m2)
  = checkCylinderCollision (Cylinder.mk (Num r2) rb2 (Num h2) (inj rot2) (inj c2) m2)
                           (Cylinder.mk (Num r1) rb1 (Num h1) (inj rot1) (inj c1) m1).
Proof.
  destruct (eulerToDirection_finite rot1) as (d1 & Hd1 & _).
  destruct (eulerToDirection_finite rot2) as (d2 & Hd2 & _).
  rewrite (@checkCylinderCollision_Num c1 c2 rot1 rot2 d1 d2 h1 h2 r1 r2 rb1 rb2
             m1 m2 Hd1 Hd2).
  rewrite (@checkCylinderCollision_Num c2 c1 rot2 rot1 d2 d1 h2 h1 r2 r1 rb2 rb1
             m2 m1 Hd2 Hd1).
  rewrite (vnorm_vcross_swap (vscale h1 d1) (vscale h2 d2)).
  rewrite (vdist_swap c1 c2), (Rplus_comm r2 r1).
  now rewrite vdot_vsub_vcross_swap.
Qed.

Lemma checkSphereCollision_finite_sym (p1 p2 : rvec) (r1 r2 : R) (m1 m2 : string) :
  checkSphereCollision (Sphere.mk (Num r1) (inj p1) m1) (Sphere.mk (Num r2) (inj p2) m2)
  = checkSphereCollision (Sphere.mk (Num r2) (inj p2) m2) (Sphere.mk (Num r1) (inj p1) m1).
Proof.
  rewrite !checkSphereCollision_Num.
  now rewrite (vdist_swap p1 p2), (Rplus_comm r2 r1).
Qed.

(** X4.  The cylinder-cylinder and the sphere-sphere tests are symmetric:
    which of two objects comes first in its dictionary does not change
    whether the pair is reported. *)
Theorem collision_tests_symmetric :
  (forall cyl1 cyl2 : Cylinder.t,
     checkCylinderCollision cyl1 cyl2 = checkCylinderCollision cyl2 cyl1)
  /\ (forall sph1 sph2 : Sphere.t,
        checkSphereCollision sph1 sph2 = checkSphereCollision sph2 sph1).
Proof.
  split.
  - intros cyl1 cyl2.
    destruct (finiteCylinder cyl1) eqn:F1.
    + destruct (finiteCylinder cyl2) eqn:F2.
      * apply finiteCylinder_true in F1, F2.
        destruct F1 as (r1 & h1 & rot1 & c1 & ->), F2 as (r2 & h2 & rot2 & c2 & ->).
        apply checkCylinderCollision_finite_sym.
      * now rewrite checkCylinderCollision_NaN_r, checkCylinderCollision_NaN_l.
    + now rewrite checkCylinderCollision_NaN_l, checkCylinderCollision_NaN_r.
  - intros sph1 sph2.
    destruct (finiteSphere sph1) eqn:F1.
    + destruct (finiteSphere sph2) eqn:F2.
      * apply finiteSphere_true in F1, F2.
        destruct F1 as (r1 & p1 & ->), F2 as (r2 & p2 & ->).
        apply checkSphereCollision_finite_sym.
      * now rewrite checkSphereCollision_NaN_r, checkSphereCollision_NaN_l.
    + now rewrite checkSphereCollision_NaN_l, checkSphereCollision_NaN_r.
Qed.

Lemma vdist_self (c : rvec) : vdist c c = 0.
Proof.
  destruct c as [[x y] z]. unfold vdist, vnorm. cbn [vsub vdot].
  replace ((x - x) * (x - x) + (y - y) * (y - y) + (z - z) * (z - z)) with 0 by ring.
  apply sqrt_0.
Qed.

(** X5.  Two finite cylinders with one center are reported as colliding
    whenever [r1 + r2] is positive, whatever their heights and
    orientations. *)
Theorem concentric_cylinders_collide (c rot1 rot2 : rvec) (h1 h2 r1 r2 : R)
    (rb1 rb2 : number) (m1 m2 : string) :
  0 < r1 + r2 ->
  checkCylinderCollision (Cylinder.mk (Num r1) rb1 (Num h1) (inj rot1) (inj c) m1)
                         (Cylinder.mk (Num r2) rb2 (Num h2) (inj rot2) (inj c) m2)
  = true.
Proof.
  intros Hr.
  destruct (eulerToDirection_finite rot1) as (d1 & Hd1 & _).
  destruct (eulerToDirection_finite rot2) as (d2 & Hd2 & _).
  rewrite (@checkCylinderCollision_Num c c rot1 rot2 d1 d2 h1 h2 r1 r2 rb1 rb2
             m1 m2 Hd1 Hd2).
  destruct (Rlt_dec _ 0.001) as [Hpar | Hskew]; apply Rltb_true.
  - now rewrite vdist_self.
  - replace (vdot (vsub (axisStart c h2 d2) (axisStart c h1 d1))
                  (vcross (vscale h1 d1) (vscale h2 d2))) with 0.
    + rewrite Rabs_R0. unfold Rdiv. now rewrite Rmult_0_l.
    + destruct c as [[x y] z], d1 as [[a1 b1] e1], d2 as [[a2 b2] e2].
      unfold axisStart. cbn [vsub vscale vcross vdot]. ring.
Qed.

Lemma concentric_cylinders_collide_witness :
  (0 < 1 + 1)
  /\ checkCylinderCollision
       (Cylinder.mk (Num 1) (Num 1) (Num 2) (inj (0, 0, 0)) (inj (0, 0, 0)) "concrete")
       (Cylinder.mk (Num 1) (Num 1) (Num 5) (inj (0.5, 0, 0)) (inj (0, 0, 0)) "steel")
     = true.
Proof.
  split; [lra |].
  apply (@concentric_cylinders_collide (0, 0, 0) (0, 0, 0) (0.5, 0, 0) 2 5 1 1
           (Num 1) (Num 1) "concrete" "steel").
  lra.
Defined.

(** X6.  A cylinder of height 0, the lower end of the height slider, is never
    reported against a sphere, not even one centered on it: the projection
    parameter is 0/0.  Against another cylinder it counts as parallel and the
    centers are compared. *)
Theorem zero_height_cylinder (rc rb : number) (rot p : vec3) (m : string) :
  (forall sph : Sphere.t,
     checkCylinderSphereCollision (Cylinder.mk rc rb (Num 0) rot p m) sph = false)
  /\ (forall (r1 r2 h2 : R) (rot1 rot2 c1 c2 : rvec) (rb2 : number) (m2 : string),
        checkCylinderCollision
          (Cylinder.mk (Num r1) rb (Num 0) (inj rot1) (inj c1) m)
          (Cylinder.mk (Num r2) rb2 (Num h2) (inj rot2) (inj c2) m2)
        = Rltb (vdist c1 c2) (r1 + r2)).
Proof.
  split.
  - intros sph.
    destruct (finiteCylinder (Cylinder.mk rc rb (Num 0) rot p m)) eqn:F1;
      [| now apply checkCylinderSphereCollision_NaN_l].
    destruct (finiteSphere sph) eqn:F2;
      [| now apply checkCylinderSphereCollision_NaN_r].
    apply finiteCylinder_true in F1. apply finiteSphere_true in F2.
    destruct F1 as (r & h & rot' & c & E), F2 as (rs & s & ->).
    inversion E; subst.
    destruct (eulerToDirection_finite rot') as (d & Hd & _).
    now apply checkCylinderSphereCollision_degenerate with (d := d).
  - intros r1 r2 h2 rot1 rot2 c1 c2 rb2 m2.
    destruct (eulerToDirection_finite rot1) as (d1 & Hd1 & _).
    destruct (eulerToDirection_finite rot2) as (d2 & Hd2 & _).
    rewrite (@checkCylinderCollision_Num c1 c2 rot1 rot2 d1 d2 0 h2 r1 r2 rb rb2
               m m2 Hd1 Hd2).
    rewrite vcross_scale, vnorm_scale, Rmult_0_l, Rabs_R0, Rmult_0_l.
    destruct (Rlt_dec 0 0.001) as [_ | H]; [reflexivity | lra].
Qed.

End CollisionTests.

(** ** The pairs [detectCollisions] visits *)

Section PairFacts.
Context {A : Type}.

Lemma In_pairs (l : list A) (a b : A) :
  In (a, b) (pairs l)
  <-> exists i j, (i < j)%nat /\ nth_error l i = Some a /\ nth_error l j = Some b.
Proof.
  induction l as [| x l IH]; cbn [pairs].
  - split; [intros [] | intros (i & j & _ & H & _); destruct i; discriminate].
  - rewrite in_app_iff, in_map_iff, IH. split.
    + intros [(y & E & Hy) | (i & j & Hij & Hi & Hj)].
      * inversion E; subst. apply In_nth_error in Hy. destruct Hy as [j Hj].
        exists 0%nat, (S j). repeat split; [lia | exact Hj].
      * exists (S i), (S j). repeat split; [lia | exact Hi | exact Hj].
    + intros (i & j & Hij & Hi & Hj). destruct j as [| j]; [lia |].
      cbn [nth_error] in Hj. destruct i as [| i].
      * inversion Hi; subst. left. exists b. split; [reflexivity |].
        eapply nth_error_In; eauto.
      * right. exists i, j. repeat split; [lia | exact Hi | exact Hj].
Qed.

Lemma length_pairs (l : list A) :
  (2 * List.length (pairs l) = List.length l * (List.length l - 1))%nat.
Proof.
  induction l as [| x l IH]; [reflexivity |].
  cbn [pairs List.length]. rewrite length_app, length_map.
  replace (S (List.length l) - 1)%nat with (List.length l) by lia.
  destruct (List.length l) as [| n] eqn:E; [lia |].
  replace (S n - 1)%nat with n in IH by lia. nia.
Qed.

Lemma In_pairs_members (l : list A) (a b : A) :
  In (a, b) (pairs l) -> In a l /\ In b l.
Proof.
  rewrite In_pairs. intros (i & j & _ & Hi & Hj).
  split; eapply nth_error_In; eauto.
Qed.

Lemma NoDup_map_pair (x : A) (l : list A) : NoDup l -> NoDup (map (pair x) l).
Proof.
  induction 1 as [| y l Hy Hl IH]; cbn [map]; constructor; [| exact IH].
  rewrite in_map_iff. intros (z & E & Hz). inversion E; subst. contradiction.
Qed.

Lemma NoDup_pairs (l : list A) : NoDup l -> NoDup (pairs l).
Proof.
  induction 1 as [| x l Hx Hl IH]; cbn [pairs]; [constructor |].
  apply NoDup_app; [| exact IH |].
  - now apply NoDup_map_pair.
  - intros [a b] Hab Hin. apply in_map_iff in Hab. destruct Hab as (y & E & _).
    inversion E; subst. apply In_pairs_members in Hin. tauto.
Qed.

Lemma pairs_ordered (l : list A) (a b : A) :
  NoDup l -> In (a, b) (pairs l) -> a <> b /\ ~ In (b, a) (pairs l).
Proof.
  intros Hl. rewrite !In_pairs. intros (i & j & Hij & Hi & Hj). split.
  - intros ->. rewrite NoDup_nth_error in Hl.
    assert (i = j); [| lia].
    apply Hl; [apply nth_error_Some; congruence | congruence].
  - intros (i' & j' & Hij' & Hi' & Hj').
    rewrite NoDup_nth_error in Hl.
    assert (i' = j) by (apply Hl; [apply nth_error_Some; congruence | congruence]).
    assert (j' = i) by (apply Hl; [apply nth_error_Some; congruence | congruence]).
    lia.
Qed.

End PairFacts.

Section Lookup.
Context {A : Type}.

Lemma get_In (o : obj A) (k : string) (v : A) :
  NoDup (keys o) -> In (k, v) o -> get o k = Some v.
Proof.
  induction o as [| [k' v'] o IH]; [intros _ [] |].
  cbn [keys map fst get]. intros Hnd [E | Hin].
  - inversion E; subst. now rewrite String.eqb_refl.
  - inversion Hnd as [| ? ? Hk Hnd']; subst.
    destruct (String.eqb_spec k' k) as [-> | _].
    + exfalso. apply Hk. change k with (fst (k, v)). now apply in_map.
    + now apply IH.
Qed.

Lemma get_Some_In (o : obj A) (k : string) (v : A) :
  get o k = Some v -> In (k, v) o.
Proof.
  induction o as [| [k' v'] o IH]; [discriminate |].
  cbn [get]. destruct (String.eqb_spec k' k) as [-> | _].
  - intros E. inversion E. now left.
  - intros H. right. now apply IH.
Qed.

Lemma get_None (o : obj A) (k : string) : get o k = None <-> ~ In k (keys o).
Proof.
  induction o as [| [k' v'] o IH]; cbn [get keys map fst In]; [tauto |].
  destruct (String.eqb_spec k' k) as [-> | N].
  - split; [discriminate | intros H; exfalso; apply H; now left].
  - unfold keys in IH. rewrite IH. tauto.
Qed.

Lemma In_keys (o : obj A) (k : string) :
  In k (keys o) <-> exists v, In (k, v) o.
Proof.
  unfold keys. rewrite in_map_iff. split.
  - intros ([k' v] & E & H). cbn in E. subst. now exists v.
  - intros (v & H). now exists (k, v).
Qed.

End Lookup.

(** ** What [detectCollisions] reports *)

Section DetectCollisions.

Lemma NoDup_app_disjoint {A} (l1 l2 : list A) (a : A) :
  NoDup (l1 ++ l2) -> In a l1 -> ~ In a l2.
Proof.
  induction l1 as [| x l1 IH]; [intros _ [] |].
  cbn [app]. intros H [-> | Hin] Ha.
  - inversion H as [| ? ? Hx _]; subst. apply Hx, in_or_app. now right.
  - inversion H; subst. now apply IH.
Qed.

Lemma NoDup_map_with {A B} (x : A) (l : list B) :
  NoDup l -> NoDup (map (pair x) l).
Proof.
  induction 1 as [| y l Hy Hl IH]; cbn [map]; constructor; [| exact IH].
  rewrite in_map_iff. intros (z & E & Hz). inversion E; subst. contradiction.
Qed.

Lemma NoDup_list_prod {A B} (l : list A) (l' : list B) :
  NoDup l -> NoDup l' -> NoDup (list_prod l l').
Proof.
  induction 1 as [| x l Hx Hl IH]; intros Hl'; cbn [list_prod]; [constructor |].
  apply NoDup_app; [now apply NoDup_map_with | now apply IH |].
  intros [a b] Hab Hin. apply in_map_iff in Hab. destruct Hab as (y & E & _).
  inversion E; subst. apply in_prod_iff in Hin. tauto.
Qed.

Lemma nth_error_keys {A} (o : obj A) (i : nat) (k : string) :
  nth_error (keys o) i = Some k <-> exists v, nth_error o i = Some (k, v).
Proof.
  unfold keys. rewrite nth_error_map.
  destruct (nth_error o i) as [[k' v] |]; cbn.
  - split; [intros E; inversion E; now exists v | intros (v' & E); now inversion E].
  - split; [discriminate | intros (v & E); discriminate].
Qed.

Section SameDictionary.
Context {A : Type} (check : A -> A -> bool) (o : obj A).
Hypothesis Hnd : NoDup (keys o).

Lemma In_checked_pairs (a b : string) :
  In (a, b) (filter (checkById check o o) (pairs (keys o)))
  <-> exists i j x y, (i < j)%nat /\ nth_error o i = Some (a, x)
                      /\ nth_error o j = Some (b, y) /\ check x y = true.
Proof.
  rewrite filter_In, In_pairs. unfold checkById. cbn [fst snd]. split.
  - intros ((i & j & Hij & Hi & Hj) & Hc).
    apply nth_error_keys in Hi, Hj. destruct Hi as [x Hi], Hj as [y Hj].
    exists i, j, x, y. repeat split; try assumption.
    rewrite (@get_In _ o a x Hnd (nth_error_In _ _ Hi)) in Hc.
    now rewrite (@get_In _ o b y Hnd (nth_error_In _ _ Hj)) in Hc.
  - intros (i & j & x & y & Hij & Hi & Hj & Hc). split.
    + exists i, j. repeat split; [exact Hij | |]; apply nth_error_keys; eauto.
    + rewrite (@get_In _ o a x Hnd (nth_error_In _ _ Hi)).
      now rewrite (@get_In _ o b y Hnd (nth_error_In _ _ Hj)).
Qed.

End SameDictionary.

(** X7.  [detectCollisions] reports [(a, b)] exactly when [a] comes before
    [b] among the cylinders, or among the spheres, and their test succeeds,
    or when [a] is a cylinder and [b] a sphere whose mixed test succeeds. *)
Theorem detectCollisions_reports (cyls : obj Cylinder.t) (sphs : obj Sphere.t)
    (a b : string) :
  NoDup (keys cyls) -> NoDup (keys sphs) ->
  In (a, b) (detectCollisions cyls sphs)
  <-> (exists i j c1 c2, (i < j)%nat /\ nth_error cyls i = Some (a, c1)
         /\ nth_error cyls j = Some (b, c2)
         /\ checkCylinderCollision c1 c2 = true)
      \/ (exists i j s1 s2, (i < j)%nat /\ nth_error sphs i = Some (a, s1)
            /\ nth_error sphs j = Some (b, s2)
            /\ checkSphereCollision s1 s2 = true)
      \/ (exists c s, In (a, c) cyls /\ In (b, s) sphs
            /\ checkCylinderSphereCollision c s = true).
Proof.
  intros Hc Hs. unfold detectCollisions. rewrite !in_app_iff.
  rewrite (@In_checked_pairs _ checkCylinderCollision cyls Hc).
  rewrite (@In_checked_pairs _ checkSphereCollision sphs Hs).
  rewrite filter_In, in_prod_iff, !In_keys. unfold checkById. cbn [fst snd].
  do 2 apply or_iff_compat_l. split.
  - intros (((c & Hca) & (s & Hsb)) & Hck). exists c, s.
    rewrite (@get_In _ cyls a c Hc Hca), (@get_In _ sphs b s Hs Hsb) in Hck. tauto.
  - intros (c & s & Hca & Hsb & Hck). split; [split; eauto |].
    now rewrite (@get_In _ cyls a c Hc Hca), (@get_In _ sphs b s Hs Hsb).
Qed.

Lemma detected_members (cyls : obj Cylinder.t) (sphs : obj Sphere.t) (a b : string) :
  In (a, b) (detectCollisions cyls sphs) ->
  (In a (keys cyls) /\ In b (keys cyls) /\ In (a, b) (pairs (keys cyls)))
  \/ (In a (keys sphs) /\ In b (keys sphs) /\ In (a, b) (pairs (keys sphs)))
  \/ (In a (keys cyls) /\ In b (keys sphs)).
Proof.
  unfold detectCollisions. rewrite !in_app_iff, !filter_In, in_prod_iff.
  intros [[H _] | [[H _] | [H _]]].
  - left. destruct (In_pairs_members _ _ _ H). tauto.
  - right. left. destruct (In_pairs_members _ _ _ H). tauto.
  - right. right. exact H.
Qed.

(** X8.  When no identifier is used twice, no pair is reported twice, in
    either order, and no object is reported against itself; a scene of [n]
    cylinders and [m] spheres yields at most [(n + m)(n + m - 1) / 2]
    pairs. *)
Theorem detectCollisions_no_repeats (cyls : obj Cylinder.t) (sphs : obj Sphere.t) :
  NoDup (keys cyls ++ keys sphs) ->
  NoDup (detectCollisions cyls sphs)
  /\ (forall a b, In (a, b) (detectCollisions cyls sphs) ->
        a <> b /\ ~ In (b, a) (detectCollisions cyls sphs))
  /\ (2 * List.length (detectCollisions cyls sphs)
      <= (List.length cyls + List.length sphs)
         * (List.length cyls + List.length sphs - 1))%nat.
Proof.
  intros Hnd.
  pose proof (NoDup_app_remove_r _ _ Hnd) as Hc.
  pose proof (NoDup_app_remove_l _ _ Hnd) as Hs.
  assert (Hdis : forall k, In k (keys cyls) -> ~ In k (keys sphs))
    by (intros k; now apply NoDup_app_disjoint).
  split; [| split].
  - unfold detectCollisions.
    apply NoDup_app; [apply NoDup_filter, NoDup_pairs, Hc | |].
    + apply NoDup_app; [apply NoDup_filter, NoDup_pairs, Hs
                       | apply NoDup_filter, NoDup_list_prod; assumption |].
      intros [a b]. rewrite !filter_In, in_prod_iff.
      intros [H _] [[Ha _] _]. apply In_pairs_members in H. apply (Hdis a); tauto.
    + intros [a b]. rewrite in_app_iff, !filter_In, in_prod_iff.
      intros [H _] [[H' _] | [[_ Hb] _]]; apply In_pairs_members in H.
      * apply In_pairs_members in H'. apply (Hdis a); tauto.
      * apply (Hdis b); tauto.
  - intros a b Hab. apply detected_members in Hab.
    destruct Hab as [(Ha & Hb & Hp) | [(Ha & Hb & Hp) | (Ha & Hb)]].
    + destruct (@pairs_ordered _ (keys cyls) a b Hc Hp) as [Hne Hrev]. split; [exact Hne |].
      intros Hba. apply detected_members in Hba.
      destruct Hba as [(_ & _ & Hp') | [(Hb' & _) | (_ & Ha')]];
        [now apply Hrev | now apply (Hdis b) | now apply (Hdis a)].
    + destruct (@pairs_ordered _ (keys sphs) a b Hs Hp) as [Hne Hrev]. split; [exact Hne |].
      intros Hba. apply detected_members in Hba.
      destruct Hba as [(Hb' & _) | [(_ & _ & Hp') | (Hb' & _)]];
        [now apply (Hdis b) | now apply Hrev | now apply (Hdis b)].
    + split; [intros ->; now apply (Hdis b) |].
      intros Hba. apply detected_members in Hba.
      destruct Hba as [(Hb' & _) | [(_ & Ha' & _) | (Hb' & _)]];
        [now apply (Hdis b) | now apply (Hdis a) | now apply (Hdis b)].
  - unfold detectCollisions. rewrite !length_app.
    pose proof (filter_length_le
                  (checkById checkCylinderCollision cyls cyls) (pairs (keys cyls))) as L1.
    pose proof (filter_length_le
                  (checkById checkSphereCollision sphs sphs) (pairs (keys sphs))) as L2.
    pose proof (filter_length_le
                  (checkById checkCylinderSphereCollision cyls sphs)
                  (list_prod (keys cyls) (keys sphs))) as L3.
    pose proof (length_pairs (keys cyls)) as P1.
    pose proof (length_pairs (keys sphs)) as P2.
    rewrite length_prod in L3. unfold keys in *. rewrite !length_map in *.
    destruct (List.length cyls) as [| n], (List.length sphs) as [| m];
      cbn [Nat.sub] in *; nia.
Qed.

End DetectCollisions.

Unset Implicit Arguments.

(** ** Writing into a dictionary *)

Section SetFacts.
Context {A : Type}.

Lemma keys_set_present (o : obj A) (k : string) (v : A) :
  In k (keys o) -> keys (set o k v) = keys o.
Proof.
  induction o as [| [k' v'] o IH]; [intros [] |].
  cbn [keys map fst set In]. intros H.
  destruct (String.eqb_spec k' k) as [E | N]; [reflexivity |].
  cbn [map fst]. f_equal. apply IH. destruct H; [contradiction | assumption].
Qed.

Lemma get_set_same (o : obj A) (k : string) (v : A) : get (set o k v) k = Some v.
Proof.
  induction o as [| [k' v'] o IH]; cbn [set get].
  - now rewrite String.eqb_refl.
  - destruct (String.eqb_spec k' k) as [E | N]; cbn [get].
    + subst. now rewrite String.eqb_refl.
    + destruct (String.eqb_spec k' k); [contradiction | exact IH].
Qed.

Lemma get_set_other (o : obj A) (k k' : string) (v : A) :
  k' <> k -> get (set o k v) k' = get o k'.
Proof.
  intros Hne. induction o as [| [k0 v0] o IH]; cbn [set get].
  - destruct (String.eqb_spec k k'); [congruence | reflexivity].
  - destruct (String.eqb_spec k0 k) as [E | N]; cbn [get].
    + subst. destruct (String.eqb_spec k k'); [congruence | reflexivity].
    + now rewrite IH.
Qed.

Lemma get_present (o : obj A) (k : string) :
  In k (keys o) -> exists v, get o k = Some v.
Proof.
  intros H. destruct (get o k) as [v |] eqn:E; [now exists v |].
  apply get_None in E. contradiction.
Qed.

Lemma get_Some_key (o : obj A) (k : string) (v : A) :
  get o k = Some v -> In k (keys o).
Proof. intros H. apply In_keys. exists v. now apply get_Some_In. Qed.

Lemma Forall_set (P : string * A -> Prop) (o : obj A) (k : string) (v : A) :
  (forall k', P (k', v)) -> Forall P o -> Forall P (set o k v).
Proof.
  intros Hv. induction 1 as [| [k' v'] o Hx Ho IH]; cbn [set].
  - now repeat constructor.
  - destruct (String.eqb k' k); constructor; auto.
Qed.

Lemma length_keys (o : obj A) : List.length (keys o) = List.length o.
Proof. apply length_map. Qed.

End SetFacts.

(** ** The invariants of the scene *)

Section Invariants.

Lemma cylinderId_next (n : nat) : ~ In (cylinderId (n + 1)) (map cylinderId (seq 1 n)).
Proof.
  rewrite in_map_iff. intros (i & E & Hi). apply cylinderId_inj in E.
  apply in_seq in Hi. lia.
Qed.

Lemma sphereId_next (n : nat) : ~ In (sphereId (n + 1)) (map sphereId (seq 1 n)).
Proof.
  rewrite in_map_iff. intros (i & E & Hi). apply sphereId_inj in E.
  apply in_seq in Hi. lia.
Qed.

Lemma cylinder_not_sphere (i j : nat) : cylinderId i <> sphereId j.
Proof. discriminate. Qed.

Lemma numbered_NoDup (st : AppState) :
  numbered st -> NoDup (keys (cylinderParams st) ++ keys (sphereParams st)).
Proof.
  intros [Hc Hs]. rewrite Hc, Hs. apply NoDup_app.
  - assert (H : forall n s, NoDup (map cylinderId (seq s n))).
    { induction n as [| n IH]; intros s; cbn [seq map]; constructor; [| apply IH].
      rewrite in_map_iff. intros (i & E & Hi). apply cylinderId_inj in E.
      apply in_seq in Hi. lia. }
    apply H.
  - assert (H : forall n s, NoDup (map sphereId (seq s n))).
    { induction n as [| n IH]; intros s; cbn [seq map]; constructor; [| apply IH].
      rewrite in_map_iff. intros (i & E & Hi). apply sphereId_inj in E.
      apply in_seq in Hi. lia. }
    apply H.
  - intros k. rewrite !in_map_iff. intros (i & <- & _) (j & E & _).
    symmetry in E. now apply cylinder_not_sphere in E.
Qed.

Lemma initialState_wellFormed : wellFormed initialState.
Proof.
  split; [| split].
  - left. split; [reflexivity | now left].
  - split; reflexivity.
  - repeat constructor.
Qed.

Lemma handleObjectSelect_wellFormed (st : AppState) (objectId objectType : string) :
  wellFormed st -> offered st (Click objectId objectType) ->
  wellFormed (handleObjectSelect objectId objectType st).
Proof.
  intros (_ & Hn & Hs) Hoff. split; [| split]; [exact Hoff | exact Hn | exact Hs].
Qed.

Lemma selectOnChange_wellFormed (st : AppState) (newSelected : string) :
  wellFormed st -> offered st (Choose newSelected) ->
  wellFormed (selectOnChange newSelected st).
Proof.
  intros (_ & Hn & Hs) Hoff. split; [| split]; [| exact Hn | exact Hs].
  unfold selectionValid, selectOnChange.
  cbn [selectedObject selectedObjectType cylinderParams sphereParams offered] in *.
  destruct (get (cylinderParams st) newSelected) as [c |] eqn:Ec.
  - left. split; [reflexivity | now apply get_Some_key in Ec].
  - apply get_None in Ec. apply in_app_or in Hoff.
    destruct Hoff as [H | H]; [contradiction |].
    destruct (get_present _ _ H) as [s ->]. right. now split.
Qed.

Lemma selection_cases (st : AppState) :
  selectionValid st ->
  (selectedObjectType st = "cylinder"
   /\ exists c, get (cylinderParams st) (selectedObject st) = Some c)
  \/ (selectedObjectType st = "sphere"
      /\ exists s, get (sphereParams st) (selectedObject st) = Some s).
Proof.
  intros [[Ht Hin] | [Ht Hin]]; [left | right]; (split; [exact Ht |]);
    now apply get_present.
Qed.

(** An edit of the selected cylinder that keeps its radii equal, and an edit
    of the selected sphere, keep the invariants. *)
Lemma edit_cylinder_wellFormed (st : AppState) (c' : Cylinder.t) :
  wellFormed st -> selectedObjectType st = "cylinder" ->
  Cylinder.radiusTop c' = Cylinder.radiusBottom c' ->
  wellFormed (mkAppState (set (cylinderParams st) (selectedObject st) c')
                (sphereParams st) (selectedObject st) (selectedObjectType st)).
Proof.
  intros (Hv & [Hc Hs] & Hsym) Ht Hr.
  assert (Hin : In (selectedObject st) (keys (cylinderParams st))).
  { destruct Hv as [[_ H] | [H _]]; [exact H | rewrite Ht in H; discriminate]. }
  pose proof (keys_set_present (cylinderParams st) (selectedObject st) c' Hin) as Hk.
  split; [| split].
  - left. cbn [selectedObject selectedObjectType cylinderParams]. now rewrite Hk.
  - split; cbn [cylinderParams sphereParams]; [| exact Hs].
    rewrite Hk, <- (length_keys (set _ _ _)), Hk, length_keys. exact Hc.
  - unfold symmetric. cbn [cylinderParams]. now apply Forall_set.
Qed.

Lemma edit_sphere_wellFormed (st : AppState) (s' : Sphere.t) :
  wellFormed st -> selectedObjectType st <> "cylinder" ->
  wellFormed (mkAppState (cylinderParams st)
                (set (sphereParams st) (selectedObject st) s')
                (selectedObject st) (selectedObjectType st)).
Proof.
  intros (Hv & [Hc Hs] & Hsym) Ht.
  assert (Hin : selectedObjectType st = "sphere"
                /\ In (selectedObject st) (keys (sphereParams st))).
  { destruct Hv as [[H _] | H]; [contradiction | exact H]. }
  destruct Hin as [Hty Hin].
  pose proof (keys_set_present (sphereParams st) (selectedObject st) s' Hin) as Hk.
  split; [| split].
  - right. cbn [selectedObject selectedObjectType sphereParams]. now rewrite Hk.
  - split; cbn [cylinderParams sphereParams]; [exact Hc |].
    rewrite Hk, <- (length_keys (set _ _ _)), Hk, length_keys. exact Hs.
  - exact Hsym.
Qed.

Lemma type_test (st : AppState) (t : string) :
  selectedObjectType st = t ->
  (selectedObjectType st =? "cylinder") = (t =? "cylinder").
Proof. now intros ->. Qed.

Lemma setAt_Some (v : vec3) (axisIndex : nat) (value : number) :
  (axisIndex < 3)%nat -> exists v', setAt v axisIndex value = Some v'.
Proof.
  destruct v as [[a b] c]. intros H.
  destruct axisIndex as [| [| [| k]]]; cbn; eauto. lia.
Qed.

Lemma addObject_wellFormed (st : AppState) (newObjectType : string) :
  wellFormed st -> wellFormed (addObject newObjectType st).
Proof.
  intros (Hv & [Hc Hs] & Hsym). unfold addObject.
  destruct (newObjectType =? "cylinder").
  - rewrite length_keys. set (n := List.length (cylinderParams st)) in *.
    change ("cylinder" ++ showIndex (n + 1)) with (cylinderId (n + 1)).
    assert (Hfresh : ~ In (cylinderId (n + 1)) (keys (cylinderParams st)))
      by (rewrite Hc; apply cylinderId_next).
    rewrite set_fresh by exact Hfresh.
    split; [| split].
    + left. split; [reflexivity |].
      cbn [selectedObject cylinderParams]. unfold keys. rewrite map_app.
      apply in_or_app. right. now left.
    + split; cbn [cylinderParams sphereParams]; [| exact Hs].
      unfold keys in *. rewrite map_app, length_app, Hc. cbn [List.length map fst].
      fold n. rewrite seq_app, map_app. cbn [seq map]. do 3 f_equal. lia.
    + unfold symmetric. cbn [cylinderParams]. apply Forall_app. split; [exact Hsym |].
      now repeat constructor.
  - rewrite length_keys. set (n := List.length (sphereParams st)) in *.
    change ("sphere" ++ showIndex (n + 1)) with (sphereId (n + 1)).
    assert (Hfresh : ~ In (sphereId (n + 1)) (keys (sphereParams st)))
      by (rewrite Hs; apply sphereId_next).
    rewrite set_fresh by exact Hfresh.
    split; [| split].
    + right. split; [reflexivity |].
      cbn [selectedObject sphereParams]. unfold keys. rewrite map_app.
      apply in_or_app. right. now left.
    + split; cbn [cylinderParams sphereParams]; [exact Hc |].
      unfold keys in *. rewrite map_app, length_app, Hs. cbn [List.length map fst].
      fold n. rewrite seq_app, map_app. cbn [seq map]. do 3 f_equal. lia.
    + exact Hsym.
Qed.

Lemma parsedPrims_symmetric (lines : list string) :
  Forall primSymmetric (parsedPrims lines).
Proof.
  induction lines as [| l lines IH]; cbn [parsedPrims]; [constructor |].
  destruct (parseLine l) as [p |] eqn:E; [| exact IH].
  constructor; [| exact IH]. unfold parseLine in E.
  destruct (startsWith (trim l) "rcc").
  - destruct (9 <=? _)%nat; inversion E. reflexivity.
  - destruct (startsWith (trim l) "sph"); [| discriminate].
    destruct (6 <=? _)%nat; inversion E. exact I.
Qed.

Lemma withMaterials_symmetric (ps : list prim) (ms : list string) :
  Forall primSymmetric ps -> Forall primSymmetric (withMaterials ps ms).
Proof.
  intros H. revert ms. induction H as [| p ps Hp Hps IH]; intros [| m ms];
    cbn [withMaterials]; try constructor; auto.
  destruct p; cbn [setPrimMaterial primSymmetric] in *; exact Hp.
Qed.

Lemma importedPrims_symmetric (text : string) :
  Forall primSymmetric (importedPrims text).
Proof.
  rewrite importedPrims_cases.
  destruct (lastMaterialLine _); [| apply parsedPrims_symmetric].
  destruct (_ =? _)%nat; [apply withMaterials_symmetric |];
    apply parsedPrims_symmetric.
Qed.

Lemma cylindersFrom_symmetric (ps : list prim) (ci : nat) :
  Forall primSymmetric ps ->
  Forall (fun e => Cylinder.radiusTop (snd e) = Cylinder.radiusBottom (snd e))
         (cylindersFrom ps ci).
Proof.
  intros H. revert ci. induction H as [| p ps Hp Hps IH]; intros ci;
    cbn [cylindersFrom]; [constructor |].
  destruct p; [constructor; [exact Hp | apply IH] | apply IH].
Qed.

Lemma length_cylindersFrom (ps : list prim) (ci : nat) :
  List.length (cylindersFrom ps ci) = countCyl ps.
Proof.
  rewrite <- length_keys, keys_cylindersFrom, length_map. apply length_seq.
Qed.

Lemma length_spheresFrom (ps : list prim) (si : nat) :
  List.length (spheresFrom ps si) = countSph ps.
Proof.
  rewrite <- length_keys, keys_spheresFrom, length_map. apply length_seq.
Qed.

Lemma committedState_wellFormed (ps : list prim) :
  ps <> [] -> Forall primSymmetric ps -> wellFormed (committedState ps).
Proof.
  intros Hne Hsym. unfold committedState.
  pose proof (count_total ps) as Htot.
  split; [| split].
  - unfold selectionValid.
    cbn [selectedObject selectedObjectType cylinderParams sphereParams].
    rewrite keys_cylindersFrom, keys_spheresFrom.
    destruct (Nat.ltb_spec 0 (countCyl ps)) as [Hc | Hc].
    + left. split; [reflexivity |].
      destruct (countCyl ps) as [| n]; [lia |]. now left.
    + right. split; [reflexivity |].
      destruct (countSph ps) as [| n]; [| now left].
      destruct ps; [contradiction | cbn [List.length] in Htot; lia].
  - split; cbn [cylinderParams sphereParams].
    + now rewrite keys_cylindersFrom, length_cylindersFrom.
    + now rewrite keys_spheresFrom, length_spheresFrom.
  - unfold symmetric. cbn [cylinderParams]. now apply cylindersFrom_symmetric.
Qed.

Lemma handleFileImport_wellFormed (text : string) (st : AppState) :
  wellFormed st -> wellFormed (fst (handleFileImport text st)).
Proof.
  intros H. rewrite handleFileImport_spec.
  pose proof (importedPrims_symmetric text) as Hsym.
  destruct (importedPrims text) as [| p ps] eqn:E; [exact H |].
  cbn [fst]. apply committedState_wellFormed; [discriminate | exact Hsym].
Qed.

Lemma step_wellFormed (st : AppState) (e : event) :
  wellFormed st -> offered st e ->
  exists st', step st e = Done st' /\ wellFormed st'.
Proof.
  intros Hwf Hoff. pose proof Hwf as (Hv & _ & Hsym).
  destruct e as [objectId objectType | newSelected | text | text | axisIndex text
                | axisIndex text | value | newObjectType | text];
    cbn [step]; unfold LabeledControl_onChange; cbv beta.
  - eexists. split; [reflexivity | now apply handleObjectSelect_wellFormed].
  - eexists. split; [reflexivity | now apply selectOnChange_wellFormed].
  - unfold updateRadius.
    destruct (selection_cases st Hv) as [[Ht [c Hc]] | [Ht [s Hs]]];
      rewrite (type_test st _ Ht).
    + cbn [String.eqb Ascii.eqb Bool.eqb]. rewrite Hc. eexists. split; [reflexivity |].
      now apply edit_cylinder_wellFormed.
    + cbn [String.eqb Ascii.eqb Bool.eqb]. rewrite Hs. eexists. split; [reflexivity |].
      apply edit_sphere_wellFormed; [exact Hwf | rewrite Ht; discriminate].
  - cbn [offered] in Hoff. unfold updateParam. rewrite (type_test st _ Hoff).
    destruct (selection_cases st Hv) as [[Ht [c Hc]] | [Ht _]];
      [| rewrite Ht in Hoff; discriminate].
    cbn [String.eqb Ascii.eqb Bool.eqb]. rewrite Hc. eexists. split; [reflexivity |].
    apply edit_cylinder_wellFormed; [exact Hwf | exact Ht |].
    cbn [Cylinder.radiusTop Cylinder.radiusBottom].
    unfold symmetric in Hsym. rewrite Forall_forall in Hsym.
    apply get_Some_In in Hc. exact (Hsym _ Hc).
  - cbn [offered] in Hoff. destruct Hoff as [Hty Hax]. unfold updateRotation.
    rewrite (type_test st _ Hty).
    destruct (selection_cases st Hv) as [[Ht [c Hc]] | [Ht _]];
      [| rewrite Ht in Hty; discriminate].
    cbn [String.eqb Ascii.eqb Bool.eqb]. rewrite Hc. cbv iota.
    destruct (setAt_Some (Cylinder.rotation c) axisIndex (parseFloat text) Hax) as [v' ->].
    eexists. split; [reflexivity |].
    apply edit_cylinder_wellFormed; [exact Hwf | exact Ht |].
    cbn [Cylinder.radiusTop Cylinder.radiusBottom].
    unfold symmetric in Hsym. rewrite Forall_forall in Hsym.
    apply get_Some_In in Hc. exact (Hsym _ Hc).
  - cbn [offered] in Hoff. unfold updatePosition.
    destruct (selection_cases st Hv) as [[Ht [c Hc]] | [Ht [s Hs]]];
      rewrite (type_test st _ Ht).
    + cbn [String.eqb Ascii.eqb Bool.eqb]. rewrite Hc. cbv iota.
      destruct (setAt_Some (Cylinder.position c) axisIndex (parseFloat text) Hoff) as [v' ->].
      eexists. split; [reflexivity |].
      apply edit_cylinder_wellFormed; [exact Hwf | exact Ht |].
      cbn [Cylinder.radiusTop Cylinder.radiusBottom].
      unfold symmetric in Hsym. rewrite Forall_forall in Hsym.
      apply get_Some_In in Hc. exact (Hsym _ Hc).
    + cbn [String.eqb Ascii.eqb Bool.eqb]. rewrite Hs. cbv iota.
      destruct (setAt_Some (Sphere.position s) axisIndex (parseFloat text) Hoff) as [v' ->].
      eexists. split; [reflexivity |].
      apply edit_sphere_wellFormed; [exact Hwf | rewrite Ht; discriminate].
  - unfold updateMaterialType.
    destruct (selection_cases st Hv) as [[Ht [c Hc]] | [Ht [s Hs]]];
      rewrite (type_test st _ Ht).
    + cbn [String.eqb Ascii.eqb Bool.eqb]. rewrite Hc. eexists. split; [reflexivity |].
      apply edit_cylinder_wellFormed; [exact Hwf | exact Ht |].
      cbn [setCylinderMaterial Cylinder.radiusTop Cylinder.radiusBottom].
      unfold symmetric in Hsym. rewrite Forall_forall in Hsym.
      apply get_Some_In in Hc. exact (Hsym _ Hc).
    + cbn [String.eqb Ascii.eqb Bool.eqb]. rewrite Hs. eexists. split; [reflexivity |].
      apply edit_sphere_wellFormed; [exact Hwf | rewrite Ht; discriminate].
  - eexists. split; [reflexivity | now apply addObject_wellFormed].
  - eexists. split; [reflexivity | now apply handleFileImport_wellFormed].
Qed.

Lemma reachable_wellFormed (st : AppState) : reachable st -> wellFormed st.
Proof.
  induction 1 as [| st st' e Hr IH Hoff Hstep]; [apply initialState_wellFormed |].
  destruct (step_wellFormed st e IH Hoff) as (st'' & E & Hwf).
  rewrite Hstep in E. inversion E. now subst.
Qed.

End Invariants.

(** ** What the page can reach *)

Section Reachability.

(** X9.  In every state the page can reach, the selection names an object
    that exists in the dictionary of its type, the identifiers are
    [cylinder1..cylinderN] and [sphere1..sphereM] in order, and every
    cylinder has equal radii. *)
Theorem reachable_invariants (st : AppState) :
  reachable st -> selectionValid st /\ numbered st /\ symmetric st.
Proof.
  induction 1 as [| st st' e Hr IH Hoff Hstep].
  - apply initialState_wellFormed.
  - destruct (step_wellFormed st e IH Hoff) as (st'' & E & Hwf).
    rewrite Hstep in E. inversion E. subst st''. exact Hwf.
Qed.

Lemma reachable_invariants_witness :
  reachable (addObject "sphere" initialState)
  /\ selectionValid (addObject "sphere" initialState)
  /\ numbered (addObject "sphere" initialState)
  /\ symmetric (addObject "sphere" initialState).
Proof.
  assert (H : reachable (addObject "sphere" initialState)).
  { apply (@reachable_step initialState _ (Add "sphere"));
      [apply reachable_initial | cbn; tauto | reflexivity]. }
  split; [exact H | exact (reachable_invariants _ H)].
Defined.

(** X10.  In a reachable state no handler the page offers throws or stores
    a record of another shape: every offered event leads to a state. *)
Theorem offered_events_succeed (st : AppState) (e : event) :
  reachable st -> offered st e -> exists st', step st e = Done st'.
Proof.
  intros Hr Hoff.
  destruct (step_wellFormed st e (reachable_wellFormed st Hr) Hoff) as (st' & E & _).
  now exists st'.
Qed.

Lemma offered_events_succeed_witness :
  reachable initialState /\ offered initialState (EditRotation 2 "")
  /\ exists st', step initialState (EditRotation 2 "") = Done st'.
Proof.
  assert (Hr : reachable initialState) by apply reachable_initial.
  assert (Ho : offered initialState (EditRotation 2 "")) by (cbn; split; [reflexivity | lia]).
  split; [exact Hr |]. split; [exact Ho |].
  exact (offered_events_succeed initialState (EditRotation 2 "") Hr Ho).
Defined.

End Reachability.

(** ** What an edit changes *)

Section Frame.

Lemma sameExcept_refl (st : AppState) : sameExcept st st.
Proof.
  repeat split. now destruct (selectedObjectType st =? "cylinder").
Qed.

Lemma sameExcept_cylinder (st : AppState) (c c' : Cylinder.t) :
  (selectedObjectType st =? "cylinder") = true ->
  get (cylinderParams st) (selectedObject st) = Some c ->
  sameExcept st (mkAppState (set (cylinderParams st) (selectedObject st) c')
                   (sphereParams st) (selectedObject st) (selectedObjectType st)).
Proof.
  intros Ht Hc. unfold sameExcept.
  cbn [selectedObject selectedObjectType cylinderParams sphereParams].
  rewrite Ht. repeat split.
  - apply keys_set_present. now apply get_Some_key in Hc.
  - now apply get_set_other.
Qed.

Lemma sameExcept_sphere (st : AppState) (s s' : Sphere.t) :
  (selectedObjectType st =? "cylinder") = false ->
  get (sphereParams st) (selectedObject st) = Some s ->
  sameExcept st (mkAppState (cylinderParams st)
                   (set (sphereParams st) (selectedObject st) s')
                   (selectedObject st) (selectedObjectType st)).
Proof.
  intros Ht Hs. unfold sameExcept.
  cbn [selectedObject selectedObjectType cylinderParams sphereParams].
  rewrite Ht. repeat split.
  - apply keys_set_present. now apply get_Some_key in Hs.
  - now apply get_set_other.
Qed.

Ltac frame_step :=
  match goal with
  | |- context [if ?b then _ else _] => destruct b eqn:?
  | |- context [match get ?o ?k with _ => _ end] => destruct (get o k) eqn:?
  | |- context [match setAt ?v ?i ?x with _ => _ end] => destruct (setAt v i x) eqn:?
  end.

(** X11.  An edit that goes through changes the selected object only: the
    selection, the identifiers and their order, every other object and the
    whole dictionary of the other kind stay as they were. *)
Theorem edit_changes_selected_only (st st' : AppState) (e : event) :
  isEdit e = true -> step st e = Done st' -> sameExcept st st'.
Proof.
  intros He Hstep.
  destruct e as [objectId objectType | newSelected | text | text | axisIndex text
                | axisIndex text | value | newObjectType | text];
    try discriminate; cbn [step] in Hstep; unfold LabeledControl_onChange in Hstep;
    cbv beta in Hstep; revert Hstep.
  - unfold updateRadius. repeat frame_step; intros E; inversion E; subst;
      eauto using sameExcept_cylinder, sameExcept_sphere.
  - unfold updateParam. repeat frame_step; intros E; inversion E; subst;
      eauto using sameExcept_cylinder, sameExcept_sphere.
  - unfold updateRotation. repeat frame_step; intros E; inversion E; subst;
      eauto using sameExcept_cylinder, sameExcept_sphere, sameExcept_refl.
  - unfold updatePosition. repeat frame_step; intros E; inversion E; subst;
      eauto using sameExcept_cylinder, sameExcept_sphere.
  - unfold updateMaterialType. repeat frame_step; intros E; inversion E; subst;
      eauto using sameExcept_cylinder, sameExcept_sphere.
Qed.

Lemma edit_changes_selected_only_witness :
  isEdit (EditRadius "3") = true
  /\ exists st', step initialState (EditRadius "3") = Done st'
                 /\ sameExcept initialState st'.
Proof.
  split; [reflexivity |]. eexists. split; [reflexivity |].
  apply (edit_changes_selected_only initialState _ (EditRadius "3"));
    reflexivity.
Defined.

End Frame.

(** ** Adding an object *)

Section Adding.
Local Open Scope R_scope.

Lemma addObject_cylinder (st : AppState) (newObjectType : string) :
  numbered st -> (newObjectType =? "cylinder")%string = true ->
  addObject newObjectType st
  = mkAppState
      (cylinderParams st
       ++ [(cylinderId (List.length (cylinderParams st) + 1),
            defaultCylinder (List.length (cylinderParams st)))])%list
      (sphereParams st) (cylinderId (List.length (cylinderParams st) + 1))
      "cylinder".
Proof.
  intros [Hc _] Ht. unfold addObject. rewrite Ht. cbv zeta. rewrite length_keys.
  change ("cylinder" ++ showIndex (List.length (cylinderParams st) + 1))%string
    with (cylinderId (List.length (cylinderParams st) + 1)).
  rewrite set_fresh by (rewrite Hc; apply cylinderId_next). reflexivity.
Qed.

Lemma addObject_sphere (st : AppState) (newObjectType : string) :
  numbered st -> (newObjectType =? "cylinder")%string = false ->
  addObject newObjectType st
  = mkAppState (cylinderParams st)
      (sphereParams st
       ++ [(sphereId (List.length (sphereParams st) + 1),
            defaultSphere (List.length (sphereParams st)))])%list
      (sphereId (List.length (sphereParams st) + 1)) "sphere".
Proof.
  intros [_ Hs] Ht. unfold addObject. rewrite Ht. cbv zeta. rewrite length_keys.
  change ("sphere" ++ showIndex (List.length (sphereParams st) + 1))%string
    with (sphereId (List.length (sphereParams st) + 1)).
  rewrite set_fresh by (rewrite Hs; apply sphereId_next). reflexivity.
Qed.

(** X12.  On numbered identifiers [addObject] never overwrites: it appends
    one cylinder ([cylinder(N+1)], radius 1, height 2, upright, at
    [(2N, 0, 0)]) or, for any other choice, one sphere ([sphere(M+1)],
    radius 1, at [(2M, 0, 0)]), and selects it. *)
Theorem addObject_appends (st : AppState) (newObjectType : string) :
  numbered st ->
  addObject newObjectType st
  = if (newObjectType =? "cylinder")%string
    then let n := List.length (cylinderParams st) in
         mkAppState
           (cylinderParams st ++ [(cylinderId (n + 1), defaultCylinder n)])%list
           (sphereParams st) (cylinderId (n + 1)) "cylinder"
    else let m := List.length (sphereParams st) in
         mkAppState (cylinderParams st)
           (sphereParams st ++ [(sphereId (m + 1), defaultSphere m)])%list
           (sphereId (m + 1)) "sphere".
Proof.
  intros Hnum. destruct (newObjectType =? "cylinder")%string eqn:Ht; cbv zeta.
  - now apply addObject_cylinder.
  - now apply addObject_sphere.
Qed.

Lemma addObject_appends_witness :
  numbered initialState
  /\ addObject "sphere" initialState
     = mkAppState (cylinderParams initialState)
         (sphereParams initialState ++ [(sphereId 2, defaultSphere 1)])%list
         (sphereId 2) "sphere".
Proof.
  assert (H : numbered initialState) by (split; reflexivity).
  split; [exact H | exact (addObject_appends initialState "sphere" H)].
Defined.

Lemma vnorm_unit (d : rvec) : vdot d d = 1 -> vnorm d = 1.
Proof. intros H. unfold vnorm. rewrite H. apply sqrt_1. Qed.

(** A sphere whose center lies in the plane through the center of the
    cylinder across its axis meets the interior test with the center as the
    closest point. *)
Lemma checkCylinderSphereCollision_level (c s rot : rvec) (h rc rs : R)
    (rb : number) (mc ms : string) :
  h <> 0 ->
  (forall d, eulerToDirection (map3 (fun v => v * Math.PI)%num (inj rot)) = inj d ->
     vdot (vsub s c) d = 0) ->
  checkCylinderSphereCollision (Cylinder.mk (Num rc) rb (Num h) (inj rot) (inj c) mc)
                               (Sphere.mk (Num rs) (inj s) ms)
  = Rltb (vdist s c) (rc + rs).
Proof.
  intros Hh Hperp.
  destruct (eulerToDirection_finite rot) as (d & Hd & Hu).
  specialize (Hperp d Hd).
  rewrite (@checkCylinderSphereCollision_Num c s rot d h rc rs rb mc ms Hd Hh).
  assert (Hn : vnorm (vsub (axisEnd c h d) (axisStart c h d)) ^ 2 = h * h).
  { rewrite axis_vector, vnorm_scale, (vnorm_unit d Hu), Rmult_1_r.
    rewrite <- Rsqr_pow2, <- Rsqr_abs. reflexivity. }
  assert (Hdot : vdot (vsub s (axisStart c h d)) (vsub (axisEnd c h d) (axisStart c h d))
                 = h * h / 2).
  { rewrite axis_vector, vdot_scale_r.
    destruct c as [[cx cy] cz], s as [[sx sy] sz], d as [[a b] e].
    unfold axisStart in *. cbn [vsub vscale vdot] in *.
    transitivity (h * ((sx - cx) * a + (sy - cy) * b + (sz - cz) * e
                       + 0.5 * h * (a * a + b * b + e * e))); [ring |].
    rewrite Hperp, Hu. lra. }
  assert (Ht : clamp01 (segmentParam s (axisStart c h d) (axisEnd c h d)) = / 2).
  { unfold segmentParam. rewrite Hn, Hdot.
    replace (h * h / 2 / (h * h)) with (/ 2) by (field; exact Hh).
    unfold clamp01, Rmin, Rmax.
    destruct (Rle_dec 1 (/ 2)); [lra |]. destruct (Rle_dec 0 (/ 2)); lra. }
  rewrite Ht.
  destruct (Req_dec_T (/ 2) 0) as [E | _]; [lra |].
  destruct (Req_dec_T (/ 2) 1) as [E | _]; [lra |].
  f_equal. f_equal. rewrite axis_vector.
  destruct c as [[cx cy] cz], d as [[a b] e]. unfold axisStart.
  cbn [vsub vscale vadd]. apply rvec_eq; lra.
Qed.

Lemma sphere_on_center (c rot : rvec) (h rc rs : R) (rb : number) (mc ms : string) :
  h <> 0 -> 0 < rc + rs ->
  checkCylinderSphereCollision (Cylinder.mk (Num rc) rb (Num h) (inj rot) (inj c) mc)
                               (Sphere.mk (Num rs) (inj c) ms)
  = true.
Proof.
  intros Hh Hr. rewrite checkCylinderSphereCollision_level; [| exact Hh |].
  - apply Rltb_true. now rewrite vdist_self.
  - intros [[a b] e] _. destruct c as [[cx cy] cz]. cbn [vsub vdot]. ring.
Qed.

Lemma In_mixed (cyls : obj Cylinder.t) (sphs : obj Sphere.t) (a b : string)
    (c : Cylinder.t) (s : Sphere.t) :
  NoDup (keys cyls) -> NoDup (keys sphs) ->
  In (a, c) cyls -> In (b, s) sphs -> checkCylinderSphereCollision c s = true ->
  In (a, b) (detectCollisions cyls sphs).
Proof.
  intros Hc Hs Ha Hb Hck. unfold detectCollisions.
  apply in_or_app. right. apply in_or_app. right.
  apply filter_In. split.
  - apply in_prod_iff. split; apply In_keys; eauto.
  - unfold checkById. cbn [fst snd].
    now rewrite (@get_In _ cyls a c Hc Ha), (@get_In _ sphs b s Hs Hb).
Qed.

(** X13.  [addObject] does not look at what the scene holds.  A new
    cylinder lands on a sphere that sits at [(2N, 0, 0)], and a new sphere
    inside a cylinder centered at [(2M, 0, 0)]: the pair is reported as
    colliding at once.  In the start scene both happen: [sphere1] sits at
    [(4, 0, 0)] and [cylinder2] at [(2, 0, 0)]. *)
Theorem added_object_may_overlap (st : AppState) :
  numbered st ->
  let n := List.length (cylinderParams st) in
  let m := List.length (sphereParams st) in
  (forall (sid : string) (rs : R) (mat : string),
     In (sid, Sphere.mk (Num rs) (inj (INR n * 2, 0, 0)) mat) (sphereParams st) ->
     -1 < rs ->
     In (cylinderId (n + 1), sid)
        (detectCollisions (cylinderParams (addObject "cylinder" st))
                          (sphereParams (addObject "cylinder" st))))
  /\ (forall (cid : string) (rc h : R) (rb : number) (rot : rvec) (mat : string),
        In (cid, Cylinder.mk (Num rc) rb (Num h) (inj rot) (inj (INR m * 2, 0, 0)) mat)
           (cylinderParams st) ->
        h <> 0 -> -1 < rc ->
        In (cid, sphereId (m + 1))
           (detectCollisions (cylinderParams (addObject "sphere" st))
                             (sphereParams (addObject "sphere" st)))).
Proof.
  intros Hnum n m.
  pose proof (numbered_NoDup st Hnum) as Hnd.
  pose proof (NoDup_app_remove_r _ _ Hnd) as Hc.
  pose proof (NoDup_app_remove_l _ _ Hnd) as Hs.
  split.
  - intros sid rs mat Hin Hr.
    rewrite (addObject_cylinder st "cylinder" Hnum eq_refl).
    cbn [cylinderParams sphereParams]. fold n.
    apply In_mixed with (c := defaultCylinder n)
                        (s := Sphere.mk (Num rs) (inj (INR n * 2, 0, 0)) mat).
    + unfold keys. rewrite map_app. cbn [map fst].
      apply NoDup_app; [exact Hc | repeat constructor; intros [] |].
      intros k Hk [<- | []]. destruct Hnum as [Hk' _]. unfold keys in Hk'.
      rewrite Hk' in Hk. now apply cylinderId_next in Hk.
    + exact Hs.
    + apply in_or_app. right. now left.
    + exact Hin.
    + apply (sphere_on_center (INR n * 2, 0, 0) (0, 0, 0) 2 1 rs); lra.
  - intros cid rc h rb rot mat Hin Hh Hr.
    rewrite (addObject_sphere st "sphere" Hnum eq_refl).
    cbn [cylinderParams sphereParams]. fold m.
    apply In_mixed with (c := Cylinder.mk (Num rc) rb (Num h) (inj rot)
                                (inj (INR m * 2, 0, 0)) mat)
                        (s := defaultSphere m).
    + exact Hc.
    + unfold keys. rewrite map_app. cbn [map fst].
      apply NoDup_app; [exact Hs | repeat constructor; intros [] |].
      intros k Hk [<- | []]. destruct Hnum as [_ Hk']. unfold keys in Hk'.
      rewrite Hk' in Hk. now apply sphereId_next in Hk.
    + exact Hin.
    + apply in_or_app. right. now left.
    + apply (sphere_on_center (INR m * 2, 0, 0) rot h rc 1); [exact Hh | lra].
Qed.

Lemma added_object_may_overlap_witness :
  numbered initialState
  /\ In ("cylinder3", "sphere1")
        (detectCollisions (cylinderParams (addObject "cylinder" initialState))
                          (sphereParams (addObject "cylinder" initialState)))
  /\ In ("cylinder2", "sphere2")
        (detectCollisions (cylinderParams (addObject "sphere" initialState))
                          (sphereParams (addObject "sphere" initialState))).
Proof.
  assert (H : numbered initialState) by (split; reflexivity).
  destruct (added_object_may_overlap initialState H) as [H1 H2].
  split; [exact H |]. split.
  - apply (H1 "sphere1" 1 "concrete"); [| lra].
    left. cbn. repeat f_equal; lra.
  - apply (H2 "cylinder2" 1 2 (Num 1) (0, 0, 0) "concrete"); [| lra | lra].
    right. left. cbn. repeat f_equal; lra.
Defined.

End Adding.

(** ** A scene with three overlaps *)

Section CrowdedScene.
Local Open Scope R_scope.

(** In [uprightScene] with [twoSpheres] the two spheres overlap and the
    first one sits on the center of the cylinder. *)
Lemma twoSpheres_collide :
  checkSphereCollision (Sphere.mk (Num 1) (inj (0, 0, 0)) "concrete")
                       (Sphere.mk (Num 1) (inj (1.5, 0, 0)) "steel") = true.
Proof.
  rewrite checkSphereCollision_Num. apply ltb_Num.
  rewrite vdist_along_x by lra. lra.
Qed.

Lemma crowded_NoDup :
  NoDup (keys uprightScene) /\ NoDup (keys twoSpheres)
  /\ NoDup (keys uprightScene ++ keys twoSpheres)%list.
Proof.
  repeat split; repeat constructor; cbn; intuition discriminate.
Qed.

Lemma crowded_spheres_reported :
  In ("sphere1"%string, "sphere2"%string) (detectCollisions uprightScene twoSpheres).
Proof.
  unfold detectCollisions. apply in_or_app. right. apply in_or_app. left.
  apply filter_In. split; [cbn; tauto |].
  unfold checkById. cbn [fst snd twoSpheres get String.eqb Ascii.eqb Bool.eqb].
  exact twoSpheres_collide.
Qed.

Lemma detectCollisions_reports_witness :
  NoDup (keys uprightScene) /\ NoDup (keys twoSpheres)
  /\ In ("sphere1"%string, "sphere2"%string)
        (detectCollisions uprightScene twoSpheres)
  /\ In ("cylinder1"%string, "sphere1"%string)
        (detectCollisions uprightScene twoSpheres)
  /\ ~ In ("sphere2"%string, "sphere1"%string)
         (detectCollisions uprightScene twoSpheres).
Proof.
  destruct crowded_NoDup as (H1 & H2 & _).
  split; [exact H1 |]. split; [exact H2 |].
  split; [| split].
  - apply (@detectCollisions_reports uprightScene twoSpheres
             "sphere1" "sphere2" H1 H2).
    right. left. exists 0%nat, 1%nat. do 2 eexists.
    split; [lia |]. split; [reflexivity |]. split; [reflexivity |].
    exact twoSpheres_collide.
  - apply (@detectCollisions_reports uprightScene twoSpheres
             "cylinder1" "sphere1" H1 H2).
    right. right. do 2 eexists.
    split; [left; reflexivity |]. split; [left; reflexivity |].
    apply sphere_on_center; lra.
  - intros Hin.
    apply (@detectCollisions_reports uprightScene twoSpheres
             "sphere2" "sphere1" H1 H2) in Hin.
    destruct Hin as [(i & j & c1 & c2 & _ & Hi & _)
                    | [(i & j & s1 & s2 & Hij & Hi & Hj & _)
                      | (c & s & Hc & _)]].
    + destruct i as [| [| i]]; discriminate.
    + destruct i as [| [| [| i]]]; try discriminate.
      destruct j as [| j]; [lia |].
      destruct j as [| [| j]]; discriminate.
    + destruct Hc as [Hc | []]. discriminate.
Defined.

Lemma detectCollisions_no_repeats_witness :
  NoDup (keys uprightScene ++ keys twoSpheres)%list
  /\ NoDup (detectCollisions uprightScene twoSpheres)
  /\ In ("sphere1"%string, "sphere2"%string)
        (detectCollisions uprightScene twoSpheres)
  /\ ~ In ("sphere2"%string, "sphere1"%string)
         (detectCollisions uprightScene twoSpheres)
  /\ (2 * List.length (detectCollisions uprightScene twoSpheres) <= 3 * 2)%nat.
Proof.
  destruct crowded_NoDup as (_ & _ & H).
  destruct (@detectCollisions_no_repeats uprightScene twoSpheres H)
    as (Hnd & Hpair & Hlen).
  split; [exact H |]. split; [exact Hnd |].
  split; [exact crowded_spheres_reported |].
  split; [apply (Hpair _ _ crowded_spheres_reported) | exact Hlen].
Defined.

End CrowdedScene.

(** ** A field without a number *)

Section ClearedField.

Lemma detected_tested (cyls : obj Cylinder.t) (sphs : obj Sphere.t) (a b : string) :
  NoDup (keys cyls) -> NoDup (keys sphs) ->
  In (a, b) (detectCollisions cyls sphs) ->
  (exists c1 c2, get cyls a = Some c1 /\ get cyls b = Some c2
                 /\ checkCylinderCollision c1 c2 = true)
  \/ (exists s1 s2, get sphs a = Some s1 /\ get sphs b = Some s2
                    /\ checkSphereCollision s1 s2 = true)
  \/ (exists c s, get cyls a = Some c /\ get sphs b = Some s
                  /\ checkCylinderSphereCollision c s = true).
Proof.
  intros Hc Hs. unfold detectCollisions. rewrite !in_app_iff.
  rewrite (@In_checked_pairs _ checkCylinderCollision cyls Hc).
  rewrite (@In_checked_pairs _ checkSphereCollision sphs Hs).
  rewrite filter_In. unfold checkById. cbn [fst snd].
  intros [(i & j & c1 & c2 & _ & Hi & Hj & Hck)
         | [(i & j & s1 & s2 & _ & Hi & Hj & Hck) | [_ Hck]]].
  - left. exists c1, c2.
    rewrite (@get_In _ cyls a c1 Hc (nth_error_In _ _ Hi)).
    rewrite (@get_In _ cyls b c2 Hc (nth_error_In _ _ Hj)). auto.
  - right. left. exists s1, s2.
    rewrite (@get_In _ sphs a s1 Hs (nth_error_In _ _ Hi)).
    rewrite (@get_In _ sphs b s2 Hs (nth_error_In _ _ Hj)). auto.
  - right. right.
    destruct (get cyls a) as [c |]; [| discriminate].
    destruct (get sphs b) as [s |]; [| discriminate].
    now exists c, s.
Qed.

Lemma keys_disjoint (st : AppState) (k : string) :
  numbered st -> In k (keys (cylinderParams st)) ->
  In k (keys (sphereParams st)) -> False.
Proof.
  intros Hn Hc Hs.
  exact (@NoDup_app_disjoint _ _ _ k (numbered_NoDup st Hn) Hc Hs).
Qed.

Lemma exported_radius_piece (cyls : obj Cylinder.t) (sphs : obj Sphere.t)
    (k : nat) (id : string) (c : Cylinder.t) :
  nth_error cyls k = Some (id, c) ->
  nth 8 (split_ws (nth k (split_on "010" (exportText cyls sphs)) "")) ""
  = toFixed (Cylinder.radiusTop c) 6.
Proof.
  intros Hk. rewrite split_exportText.
  destruct (exportLines_layout cyls sphs) as (Hcyl & _).
  assert (Hlt : (k < List.length (exportLines cyls sphs))%nat).
  { apply nth_error_Some. rewrite (Hcyl k id c Hk). discriminate. }
  rewrite app_nth1 by exact Hlt.
  rewrite (nth_error_nth _ _ _ (Hcyl k id c Hk)).
  destruct (rccTokens_tokens (1 + k) c) as (Htok & Hlen).
  unfold rccLine, split_ws. rewrite split_ws_join; [| | exact Htok].
  - unfold rccTokens.
    destruct (eulerToDirection _) as [[dx dy] dz].
    destruct (Cylinder.position c) as [[cx cy] cz]. reflexivity.
  - intros E. rewrite E in Hlen. discriminate.
Qed.

(** X14.  The controls hand [parseFloat] of their text to the handlers
    unchecked.  A Radius field whose text starts with no number and is not
    the literal [Infinity] (an emptied field) stores NaN as the radius of
    the selected object; from then on no reported collision involves that
    object, and in the file [handleExport] writes the line of a selected
    cylinder has [NaN] as its radius piece. *)
Theorem cleared_radius_hides_object (st : AppState) (text : string) :
  numbered st -> selectionValid st ->
  parseFloat text = NaN -> readsInfinity text = false ->
  exists st',
    step st (EditRadius text) = Done st'
    /\ (forall c, get (cylinderParams st') (selectedObject st) = Some c ->
          selectedObjectType st = "cylinder" ->
          Cylinder.radiusTop c = NaN /\ Cylinder.radiusBottom c = NaN)
    /\ (forall s, get (sphereParams st') (selectedObject st) = Some s ->
          selectedObjectType st = "sphere" -> Sphere.radius s = NaN)
    /\ (forall a b,
          In (a, b) (detectCollisions (cylinderParams st') (sphereParams st')) ->
          a <> selectedObject st /\ b <> selectedObject st)
    /\ (exists file,
          handleExport st' true = Some file
          /\ forall k c,
               selectedObjectType st = "cylinder" ->
               nth_error (cylinderParams st') k = Some (selectedObject st, c) ->
               nth 8 (split_ws (nth k (split_on "010" file) "")) "" = "NaN").
Proof.
  intros Hnum Hv Hnan _.
  pose proof (numbered_NoDup st Hnum) as Hnd.
  pose proof (NoDup_app_remove_r _ _ Hnd) as Hc.
  pose proof (NoDup_app_remove_l _ _ Hnd) as Hs.
  cbn [step]. unfold LabeledControl_onChange, updateRadius. rewrite Hnan.
  destruct (selection_cases st Hv) as [[Ht [c Hgc]] | [Ht [s Hgs]]];
    rewrite (type_test st _ Ht); cbn [String.eqb Ascii.eqb Bool.eqb].
  - rewrite Hgc. eexists. split; [reflexivity |].
    cbn [cylinderParams sphereParams].
    set (c' := Cylinder.mk NaN NaN (Cylinder.height c) (Cylinder.rotation c)
                 (Cylinder.position c) (Cylinder.materialType c)).
    assert (Hin : In (selectedObject st) (keys (cylinderParams st)))
      by (now apply get_Some_key in Hgc).
    assert (Hc' : NoDup (keys (set (cylinderParams st) (selectedObject st) c')))
      by (now rewrite keys_set_present).
    assert (Hbad : finiteCylinder c' = false) by reflexivity.
    split; [| split; [| split]]; cycle 3.
    { eexists. split; [unfold handleExport; now rewrite andb_false_r |].
      cbn [cylinderParams sphereParams]. intros k c0 _ Hk.
      rewrite (exported_radius_piece _ _ k _ c0 Hk).
      pose proof (@get_In _ _ _ _ Hc' (nth_error_In _ _ Hk)) as Hget.
      rewrite get_set_same in Hget. now inversion Hget. }
    + intros c0. rewrite get_set_same. intros E _. inversion E; subst c0.
      split; reflexivity.
    + intros s0 _ Hty. rewrite Ht in Hty. discriminate.
    + intros a b Hab. apply detected_tested in Hab; [| exact Hc' | exact Hs].
      split; intros ->.
      * destruct Hab as [(c1 & c2 & H1 & _ & Hck) | [(s1 & _ & H1 & _) | (c1 & s1 & H1 & _ & Hck)]].
        -- rewrite get_set_same in H1. inversion H1; subst c1.
           now rewrite checkCylinderCollision_NaN_l in Hck.
        -- apply get_Some_key in H1. now apply (keys_disjoint st (selectedObject st)).
        -- rewrite get_set_same in H1. inversion H1; subst c1.
           now rewrite checkCylinderSphereCollision_NaN_l in Hck.
      * destruct Hab as [(c1 & c2 & _ & H2 & Hck) | [(_ & s2 & _ & H2 & _) | (_ & s2 & _ & H2 & _)]].
        -- rewrite get_set_same in H2. inversion H2; subst c2.
           now rewrite checkCylinderCollision_NaN_r in Hck.
        -- apply get_Some_key in H2. now apply (keys_disjoint st (selectedObject st)).
        -- apply get_Some_key in H2. now apply (keys_disjoint st (selectedObject st)).
  - rewrite Hgs. eexists. split; [reflexivity |].
    cbn [cylinderParams sphereParams].
    set (s' := Sphere.mk NaN (Sphere.position s) (Sphere.materialType s)).
    assert (Hin : In (selectedObject st) (keys (sphereParams st)))
      by (now apply get_Some_key in Hgs).
    assert (Hs' : NoDup (keys (set (sphereParams st) (selectedObject st) s')))
      by (now rewrite keys_set_present).
    assert (Hbad : finiteSphere s' = false) by reflexivity.
    split; [| split; [| split]]; cycle 3.
    { eexists. split; [unfold handleExport; now rewrite andb_false_r |].
      intros k c0 Hty. rewrite Ht in Hty. discriminate. }
    + intros c0 _ Hty. rewrite Ht in Hty. discriminate.
    + intros s0. rewrite get_set_same. intros E _. now inversion E.
    + intros a b Hab. apply detected_tested in Hab; [| exact Hc | exact Hs'].
      split; intros ->.
      * destruct Hab as [(c1 & _ & H1 & _) | [(s1 & s2 & H1 & _ & Hck) | (c1 & _ & H1 & _)]].
        -- apply get_Some_key in H1. now apply (keys_disjoint st (selectedObject st)).
        -- rewrite get_set_same in H1. inversion H1; subst s1.
           now rewrite checkSphereCollision_NaN_l in Hck.
        -- apply get_Some_key in H1. now apply (keys_disjoint st (selectedObject st)).
      * destruct Hab as [(_ & c2 & _ & H2 & _) | [(s1 & s2 & _ & H2 & Hck) | (c1 & s2 & _ & H2 & Hck)]].
        -- apply get_Some_key in H2. now apply (keys_disjoint st (selectedObject st)).
        -- rewrite get_set_same in H2. inversion H2; subst s2.
           now rewrite checkSphereCollision_NaN_r in Hck.
        -- rewrite get_set_same in H2. inversion H2; subst s2.
           now rewrite checkCylinderSphereCollision_NaN_r in Hck.
Qed.

(** The Radius field of the start scene, where [cylinder1] is selected,
    emptied. *)
Lemma cleared_radius_hides_object_witness :
  numbered initialState /\ selectionValid initialState
  /\ parseFloat "" = NaN /\ readsInfinity "" = false
  /\ exists st' file,
       step initialState (EditRadius "") = Done st'
       /\ handleExport st' true = Some file
       /\ nth 8 (split_ws (nth 0 (split_on "010" file) "")) "" = "NaN"
       /\ (forall a b,
             In (a, b) (detectCollisions (cylinderParams st') (sphereParams st')) ->
             a <> "cylinder1" /\ b <> "cylinder1").
Proof.
  assert (H1 : numbered initialState) by (split; reflexivity).
  assert (H2 : selectionValid initialState)
    by (left; split; [reflexivity | now left]).
  assert (H3 : parseFloat "" = NaN) by reflexivity.
  assert (H4 : readsInfinity "" = false) by reflexivity.
  split; [exact H1 |]. split; [exact H2 |]. split; [exact H3 |].
  split; [exact H4 |].
  destruct (cleared_radius_hides_object initialState "" H1 H2 H3 H4)
    as (st' & E & _ & _ & H & file & Hfile & Hpiece).
  exists st', file. split; [exact E |]. split; [exact Hfile |].
  split; [| exact H].
  cbn in E. injection E as <-.
  eapply (Hpiece 0%nat); reflexivity.
Defined.

End ClearedField.

(** ** The orientation the importer reconstructs *)

Section ReconstructedDirection.
Local Open Scope R_scope.

Lemma sqrt_sum_factor (x y : R) :
  x <> 0 -> sqrt (x * x + y * y) = Rabs x * sqrt (1 + (y / x)²).
Proof.
  intros Hx. rewrite <- sqrt_Rsqr_abs, <- sqrt_mult_alt by apply Rle_0_sqr.
  f_equal. unfold Rsqr. field. exact Hx.
Qed.

Lemma sqrt_one_plus_pos (t : R) : 0 < sqrt (1 + t²).
Proof. apply sqrt_lt_R0. pose proof (Rle_0_sqr t). lra. Qed.

Lemma sqrt_square_abs (y : R) : sqrt (0 * 0 + y * y) = Rabs y.
Proof. rewrite <- sqrt_Rsqr_abs. f_equal. unfold Rsqr. ring. Qed.

(** Sine and cosine of the angle of the point [(x, y)]. *)
Lemma sin_cos_Ratan2 (y x : R) :
  x <> 0 \/ y <> 0 ->
  sin (Math.Ratan2 y x) = y / sqrt (x * x + y * y)
  /\ cos (Math.Ratan2 y x) = x / sqrt (x * x + y * y).
Proof.
  intros Hxy. unfold Math.Ratan2.
  pose proof (sqrt_one_plus_pos (y / x)) as HS.
  destruct (Rlt_dec 0 x) as [Hpos | Hnpos].
  - rewrite sin_atan, cos_atan, sqrt_sum_factor, Rabs_pos_eq by lra.
    split; field; lra.
  - destruct (Rlt_dec x 0) as [Hneg | Hnneg].
    + assert (E : sqrt (x * x + y * y) = - x * sqrt (1 + (y / x)²))
        by (rewrite sqrt_sum_factor, Rabs_left by lra; reflexivity).
      rewrite E.
      destruct (Rlt_dec y 0).
      * rewrite sin_minus, cos_minus, sin_PI, cos_PI, sin_atan, cos_atan.
        split; field; lra.
      * rewrite neg_sin, neg_cos, sin_atan, cos_atan. split; field; lra.
    + assert (Hx : x = 0) by lra. subst x. rewrite sqrt_square_abs.
      destruct (Rlt_dec 0 y) as [Hy | Hy].
      * rewrite sin_PI2, cos_PI2, Rabs_pos_eq by lra. split; field; lra.
      * destruct (Rlt_dec y 0) as [Hy' | Hy']; [| lra].
        replace (- PI / 2) with (- (PI / 2)) by lra.
        rewrite sin_neg, cos_neg, sin_PI2, cos_PI2, Rabs_left by lra.
        split; field; lra.
Qed.


Lemma vnorm_sq (d : rvec) : vnorm d * vnorm d = vdot d d.
Proof. apply sqrt_sqrt. destruct d as [[a b] c]. cbn [vdot]. nra. Qed.

Lemma vnorm_pos (d : rvec) : d <> (0, 0, 0) -> 0 < vnorm d.
Proof.
  intros Hd. apply sqrt_lt_R0. destruct d as [[a b] c]. cbn [vdot].
  destruct (Req_dec a 0) as [-> | Ha]; [| nra].
  destruct (Req_dec b 0) as [-> | Hb]; [| nra].
  destruct (Req_dec c 0) as [-> | Hc]; [| nra].
  contradiction.
Qed.

(** The unit vector of the angles the importer derives from the axis [d]
    is [d / |d|]. *)
Lemma rotated_reconstructed (dx dy dz : R) :
  (dx, dy, dz) <> (0, 0, 0) ->
  rotated (Math.Ratan2 (sqrt (dx * dx + dz * dz)) dy) (Math.Ratan2 dx dz) 0
  = vscale (/ vnorm (dx, dy, dz)) (dx, dy, dz).
Proof.
  intros Hd. pose proof (vnorm_pos _ Hd) as Hn.
  set (rho := sqrt (dx * dx + dz * dz)).
  assert (Hrho : 0 <= rho) by apply sqrt_pos.
  assert (Hrr : rho * rho = dx * dx + dz * dz) by (apply sqrt_sqrt; nra).
  assert (Hnorm : sqrt (dy * dy + rho * rho) = vnorm (dx, dy, dz)).
  { unfold vnorm. cbn [vdot]. f_equal. rewrite Hrr. ring. }
  assert (Hxy : dy <> 0 \/ rho <> 0).
  { destruct (Req_dec dy 0) as [-> | H]; [| now left]. right. intros Z.
    rewrite Z in Hrr. apply Hd.
    assert (dx = 0) by nra. assert (dz = 0) by nra. now subst. }
  destruct (sin_cos_Ratan2 rho dy Hxy) as [Hs Hc]. rewrite Hnorm in Hs, Hc.
  unfold rotated. rewrite Hs, Hc, sin_0, cos_0. cbn [vscale].
  destruct (Req_dec rho 0) as [Z | Hnz].
  - rewrite Z in *. assert (dx = 0) by nra. assert (dz = 0) by nra. subst dx dz.
    apply rvec_eq; field; lra.
  - assert (Hxz : dz <> 0 \/ dx <> 0).
    { destruct (Req_dec dz 0) as [-> | H]; [| now left]. right. intros ->.
      apply Hnz. unfold rho. replace (0 * 0 + 0 * 0) with 0 by ring. apply sqrt_0. }
    destruct (sin_cos_Ratan2 dx dz Hxz) as [Hs' Hc'].
    replace (dz * dz + dx * dx) with (dx * dx + dz * dz) in Hs', Hc' by ring.
    fold rho in Hs', Hc'. rewrite Hs', Hc'.
    apply rvec_eq; field; lra.
Qed.


Lemma reconstructed_direction (b d : rvec) (radius : R) :
  eulerToDirection
    (map3 (fun v => v * Math.PI)%num
       (Cylinder.rotation (reconstructedCylinder b d radius)))
  = inj (let '(dx, dy, dz) := d in
         rotated (Math.Ratan2 (sqrt (dx * dx + dz * dz)) dy) (Math.Ratan2 dx dz) 0).
Proof.
  destruct d as [[dx dy] dz]. unfold reconstructedCylinder.
  cbn [Cylinder.rotation map3 mul lift2 Math.PI].
  rewrite eulerToDirection_Num. do 2 f_equal.
  - field. apply PI_neq0.
  - field. apply PI_neq0.
  - ring.
Qed.

End ReconstructedDirection.

Section ReimportedRecord.
Local Open Scope R_scope.


(** The step of the import loop on an [rcc] line with finite numbers. *)
Lemma importLine_finite_rcc (st : ImportState) (line : string) (b d : rvec)
    (radius : R) :
  let parts := split_ws (trim line) in
  startsWith (trim line) "rcc" = true ->
  (9 <= List.length parts)%nat ->
  (parseFloat (nth 2 parts ""), parseFloat (nth 3 parts ""),
   parseFloat (nth 4 parts "")) = inj b ->
  (parseFloat (nth 5 parts ""), parseFloat (nth 6 parts ""),
   parseFloat (nth 7 parts "")) = inj d ->
  parseFloat (nth 8 parts "") = Num radius ->
  newCylinderParams (importLine st line)
  = set (newCylinderParams st) (cylinderId (cylIndex st))
        (reconstructedCylinder b d radius).
Proof.
  intros parts Hrcc Hlen Hb Hd Hr.
  unfold importLine. rewrite Hrcc. unfold importCylinder. fold parts.
  apply Nat.leb_le in Hlen. rewrite Hlen.
  pose proof (@parsedCylinder_finite parts b d radius Hb Hd Hr) as E.
  unfold parsedCylinder in E. rewrite E. reflexivity.
Qed.

(** X15.  The cylinder the importer stores for an [rcc] record with finite
    numbers and an axis vector [d] other than zero lies on the segment of
    the record: its direction is [d / |d|], its height [|d|], and the base
    [center - 0.5 height direction] and the vector [direction height], the
    numbers the exporter and the collision tests compute from it, are the
    base and the axis vector that were read.  The pieces of [d] are not
    negative zeros. *)
Theorem imported_cylinder_spans_its_record (st : ImportState) (line : string)
    (b d : rvec) (radius : R) :
  let parts := split_ws (trim line) in
  startsWith (trim line) "rcc" = true ->
  (9 <= List.length parts)%nat ->
  (parseFloat (nth 2 parts ""), parseFloat (nth 3 parts ""),
   parseFloat (nth 4 parts "")) = inj b ->
  (parseFloat (nth 5 parts ""), parseFloat (nth 6 parts ""),
   parseFloat (nth 7 parts "")) = inj d ->
  parseFloat (nth 8 parts "") = Num radius ->
  negativeZero (nth 5 parts "") = false ->
  negativeZero (nth 6 parts "") = false ->
  negativeZero (nth 7 parts "") = false ->
  d <> (0, 0, 0) ->
  exists c : Cylinder.t,
    get (newCylinderParams (importLine st line)) (cylinderId (cylIndex st))
    = Some c
    /\ Cylinder.height c = Num (vnorm d)
    /\ eulerToDirection
         (map3 (fun v => v * Math.PI)%num (Cylinder.rotation c))
       = inj (vscale (/ vnorm d) d)
    /\ (let '(cx, cy, cz) := Cylinder.position c in
        let '(ux, uy, uz) :=
          eulerToDirection
            (map3 (fun v => v * Math.PI)%num (Cylinder.rotation c)) in
        let h := Cylinder.height c in
        (cx - Num 0.5 * h * ux, cy - Num 0.5 * h * uy, cz - Num 0.5 * h * uz)%num
        = inj b
        /\ (ux * h, uy * h, uz * h)%num = inj d).
Proof.
  intros parts Hrcc Hlen Hb Hd Hr _ _ _ Hnz.
  exists (reconstructedCylinder b d radius).
  rewrite (importLine_finite_rcc st line b d radius Hrcc Hlen Hb Hd Hr).
  rewrite get_set_same.
  split; [reflexivity |].
  assert (Hdir : eulerToDirection
                   (map3 (fun v => v * Math.PI)%num
                      (Cylinder.rotation (reconstructedCylinder b d radius)))
                 = inj (vscale (/ vnorm d) d)).
  { rewrite reconstructed_direction. destruct d as [[dx dy] dz].
    f_equal. now apply rotated_reconstructed. }
  split; [destruct d as [[dx dy] dz]; reflexivity |].
  split; [exact Hdir |].
  rewrite Hdir. pose proof (vnorm_pos _ Hnz) as Hn.
  assert (Ehalf : 0.5 = / 2) by lra.
  destruct b as [[bx by_] bz], d as [[dx dy] dz].
  unfold reconstructedCylinder.
  cbn [Cylinder.position Cylinder.height inj vadd vscale sub mul lift2].
  rewrite Ehalf. split; repeat f_equal; field; lra.
Qed.

(** A record along X: the cylinder lies on its side. *)
Lemma imported_cylinder_spans_its_record_witness :
  exists c : Cylinder.t,
    get (newCylinderParams (importLine initialImportState "rcc 7 0 0 0 2 0 0 1"))
        "cylinder1"
    = Some c
    /\ Cylinder.height c = Num (vnorm (2, 0, 0))
    /\ eulerToDirection
         (map3 (fun v => v * Math.PI)%num (Cylinder.rotation c))
       = inj (vscale (/ vnorm (2, 0, 0)) (2, 0, 0))
    /\ (let '(cx, cy, cz) := Cylinder.position c in
        let '(ux, uy, uz) :=
          eulerToDirection
            (map3 (fun v => v * Math.PI)%num (Cylinder.rotation c)) in
        let h := Cylinder.height c in
        (cx - Num 0.5 * h * ux, cy - Num 0.5 * h * uy, cz - Num 0.5 * h * uz)%num
        = inj (0, 0, 0)
        /\ (ux * h, uy * h, uz * h)%num = inj (2, 0, 0)).
Proof.
  assert (Hparts : split_ws (trim "rcc 7 0 0 0 2 0 0 1")
                   = ["rcc"; "7"; "0"; "0"; "0"; "2"; "0"; "0"; "1"]%string)
    by reflexivity.
  apply (imported_cylinder_spans_its_record initialImportState
           "rcc 7 0 0 0 2 0 0 1" (0, 0, 0) (2, 0, 0) 1).
  - reflexivity.
  - rewrite Hparts. cbn. lia.
  - rewrite Hparts. cbn [nth inj]. now rewrite parseFloat_digit_0.
  - rewrite Hparts. cbn [nth inj]. now rewrite parseFloat_digit_0, parseFloat_digit_2.
  - rewrite Hparts. exact parseFloat_digit_1.
  - reflexivity.
  - reflexivity.
  - reflexivity.
  - intros E. inversion E. lra.
Defined.

End ReimportedRecord.

(** ** The material line of an exported file *)

Section MaterialLine.
Local Open Scope list_scope.

Lemma isMaterialLine_other (c : ascii) (s : string) :
  is_space c = false -> is_digit c = false -> isMaterialLine (String c s) = false.
Proof.
  intros Hs Hd. unfold isMaterialLine, trim. cbn [trimStart]. rewrite Hs.
  cbn [trimEnd]. rewrite Hs. cbn [andb]. unfold matchesMaterialLine.
  cbn [re_run]. now rewrite Hd.
Qed.

Lemma isMaterialLine_rccLine (index : nat) (c : Cylinder.t) :
  isMaterialLine (rccLine index c) = false.
Proof.
  unfold rccLine. destruct (rccTokens_head index c) as (ts & ->).
  now apply isMaterialLine_other.
Qed.

Lemma isMaterialLine_sphLine (index : nat) (s : Sphere.t) :
  isMaterialLine (sphLine index s) = false.
Proof.
  unfold sphLine. destruct (sphTokens_head index s) as (ts & ->).
  now apply isMaterialLine_other.
Qed.

Lemma isMaterialLine_zoneLine (index : nat) : isMaterialLine (zoneLine index) = false.
Proof. now apply isMaterialLine_other. Qed.

Lemma no_material_bodyLines {A} (line : nat -> A -> string) (index : nat) (o : obj A) :
  (forall i a, isMaterialLine (line i a) = false) ->
  forallb (fun l => negb (isMaterialLine l)) (bodyLines line index o) = true.
Proof.
  intros H. revert index. induction o as [| [k a] o IH]; intros index;
    cbn [bodyLines forallb]; [reflexivity |].
  now rewrite H, IH.
Qed.

Lemma no_material_zones (l : list nat) :
  forallb (fun l => negb (isMaterialLine l)) (map zoneLine l) = true.
Proof.
  induction l as [| i l IH]; cbn [map forallb]; [reflexivity |].
  now rewrite isMaterialLine_zoneLine, IH.
Qed.

Lemma materialLine_join (k : N) (codes : list N) :
  materialLine (k :: codes) = (join_sp (map decimal (k :: codes)) ++ " ")%string.
Proof.
  revert k. induction codes as [| k' codes IH]; intros k.
  - reflexivity.
  - change (materialLine (k :: k' :: codes))
      with (decimal k ++ " " ++ materialLine (k' :: codes))%string.
    rewrite IH.
    change (join_sp (map decimal (k :: k' :: codes)))
      with (decimal k ++ " " ++ join_sp (map decimal (k' :: codes)))%string.
    now rewrite !append_assoc.
Qed.

Lemma trimEnd_space_r (x : string) : trimEnd (x ++ " ")%string = trimEnd x.
Proof.
  induction x as [| c x IH]; [reflexivity |].
  cbn [append trimEnd]. now rewrite IH.
Qed.

Lemma decimals_tokens (codes : list N) :
  forallb is_token (map decimal codes) = true.
Proof.
  induction codes as [| k codes IH]; cbn [map forallb]; [reflexivity |].
  now rewrite decimal_token, IH.
Qed.

Lemma join_decimals_head (k : N) (codes : list N) :
  exists c r, join_sp (map decimal (k :: codes)) = String c r /\ is_digit c = true.
Proof.
  destruct (decimal_head k) as (c & r & E & Hc).
  destruct codes as [| k' codes].
  - exists c, r. now rewrite <- E.
  - change (join_sp (map decimal (k :: k' :: codes)))
      with (decimal k ++ " " ++ join_sp (map decimal (k' :: codes)))%string.
    rewrite E. now exists c, (r ++ " " ++ join_sp (map decimal (k' :: codes)))%string.
Qed.

Lemma trim_materialLine (k : N) (codes : list N) :
  trim (materialLine (k :: codes)) = join_sp (map decimal (k :: codes)).
Proof.
  rewrite materialLine_join.
  pose proof (trim_join (map decimal (k :: codes)) (decimals_tokens _)) as Ht.
  destruct (join_decimals_head k codes) as (c & r & E & Hc).
  apply is_digit_not_space in Hc.
  unfold trim in *. rewrite E in *. cbn [append trimStart] in *.
  rewrite Hc in *. change (String c (r ++ " ")) with (String c r ++ " ")%string.
  now rewrite trimEnd_space_r.
Qed.

Lemma re_run_digits (ds rest : string) :
  all_chars is_digit ds = true -> re_run ReDigits (ds ++ rest) = re_run ReDigits rest.
Proof.
  induction ds as [| c ds IH]; [reflexivity |]. cbn [all_chars append re_run].
  intros H. apply andb_prop in H. destruct H as [Hc Hds]. rewrite Hc. now apply IH.
Qed.

Lemma re_run_number (q : re_state) (ds rest : string) :
  q <> ReDigits -> ds <> "" -> all_chars is_digit ds = true ->
  re_run q (ds ++ rest) = re_run ReDigits rest.
Proof.
  intros Hq Hne. destruct ds as [| c ds]; [contradiction |].
  cbn [all_chars append re_run]. intros H. apply andb_prop in H.
  destruct H as [Hc Hds]. pose proof (is_digit_not_space c Hc) as Hs.
  destruct q; [| contradiction |]; rewrite ?Hs, Hc; cbn [andb];
    now apply re_run_digits.
Qed.

Lemma re_run_decimals (q : re_state) (k : N) (codes : list N) :
  q <> ReDigits -> re_run q (join_sp (map decimal (k :: codes))) = true.
Proof.
  revert q k. induction codes as [| k' codes IH]; intros q k Hq;
    destruct (decimal_spec k) as (_ & Hd & Hne).
  - change (join_sp (map decimal [k])) with (decimal k).
    rewrite <- (append_nil_r (decimal k)). now rewrite re_run_number.
  - change (join_sp (map decimal (k :: k' :: codes)))
      with (decimal k ++ " " ++ join_sp (map decimal (k' :: codes)))%string.
    rewrite re_run_number by assumption.
    cbn [append re_run]. change (is_digit " ") with false.
    change (is_space " ") with true. cbn [andb]. now apply IH.
Qed.

Lemma isMaterialLine_materialLine (k : N) (codes : list N) :
  isMaterialLine (materialLine (k :: codes)) = true.
Proof.
  unfold isMaterialLine. rewrite trim_materialLine.
  now apply re_run_decimals.
Qed.

Lemma codesOf_materialLine (k : N) (codes : list N) :
  codesOf (materialLine (k :: codes)) = k :: codes.
Proof.
  unfold codesOf. rewrite trim_materialLine. unfold split_ws.
  rewrite split_ws_join; [| discriminate | apply decimals_tokens].
  rewrite map_map. rewrite <- (map_id (k :: codes)) at 2.
  apply map_ext. intros a. apply NumberOfDigits_decimal.
Qed.

Lemma lastMaterialLine_exportLines (cyls : obj Cylinder.t) (sphs : obj Sphere.t) :
  lastMaterialLine (exportLines cyls sphs ++ [""%string])
  = match sceneCodes cyls sphs with
    | [] => None
    | _ :: _ => Some (materialLine (sceneCodes cyls sphs))
    end.
Proof.
  unfold exportLines.
  set (head := bodyLines rccLine 1 cyls
               ++ bodyLines sphLine (1 + List.length cyls) sphs
               ++ ["end body"%string]
               ++ map zoneLine (seq 1 (List.length cyls + List.length sphs))
               ++ ["end zone"%string]).
  assert (Hhead : forallb (fun l => negb (isMaterialLine l)) head = true).
  { unfold head. rewrite !forallb_app.
    rewrite (no_material_bodyLines rccLine 1 cyls isMaterialLine_rccLine).
    rewrite (no_material_bodyLines sphLine _ sphs isMaterialLine_sphLine).
    rewrite no_material_zones. reflexivity. }
  replace ((bodyLines rccLine 1 cyls
            ++ bodyLines sphLine (1 + List.length cyls) sphs
            ++ ["end body"%string]
            ++ map zoneLine (seq 1 (List.length cyls + List.length sphs))
            ++ ["end zone"%string]
            ++ [materialLine (sceneCodes cyls sphs)] ++ [footer]) ++ [""%string])
    with (head ++ materialLine (sceneCodes cyls sphs) :: [footer; ""%string])
    by (unfold head; now rewrite <- !app_assoc).
  destruct (sceneCodes cyls sphs) as [| k codes].
  - unfold lastMaterialLine. apply lastMaterialLineFrom_none.
    rewrite forallb_app, Hhead. reflexivity.
  - apply lastMaterialLine_last; [apply isMaterialLine_materialLine | reflexivity].
Qed.

End MaterialLine.

(** ** The whole scene through export and import *)

Section SceneRoundTrip.
Local Open Scope list_scope.

Lemma split_ws_rccLine (index : nat) (c : Cylinder.t) :
  split_ws (rccLine index c) = rccTokens index c.
Proof.
  destruct (rccTokens_tokens index c) as (Htok & Hlen).
  unfold rccLine, split_ws. apply split_ws_join; [| exact Htok].
  intros E. rewrite E in Hlen. discriminate.
Qed.

Lemma split_ws_sphLine (index : nat) (s : Sphere.t) :
  split_ws (sphLine index s) = sphTokens index s.
Proof.
  destruct (sphTokens_tokens index s) as (Htok & Hlen).
  unfold sphLine, split_ws. apply split_ws_join; [| exact Htok].
  intros E. rewrite E in Hlen. discriminate.
Qed.

Lemma withMaterials_cylinders (cyls : obj Cylinder.t) (index : nat)
    (rest : list prim) (codes : list N) :
  withMaterials
    (map (fun l => PCyl (parsedCylinder (split_ws l))) (bodyLines rccLine index cyls)
     ++ rest)
    (map matTypeOf
       (map (fun e => materialInt (Cylinder.materialType (snd e))) cyls ++ codes))
  = map PCyl (numberedFrom reimportedCylinder index cyls)
    ++ withMaterials rest (map matTypeOf codes).
Proof.
  revert index. induction cyls as [| [id c] cyls IH]; intros index; [reflexivity |].
  cbn [bodyLines map app withMaterials numberedFrom snd setPrimMaterial].
  rewrite IH, split_ws_rccLine. reflexivity.
Qed.

Lemma withMaterials_spheres (sphs : obj Sphere.t) (index : nat) :
  withMaterials
    (map (fun l => PSph (parsedSphere (split_ws l))) (bodyLines sphLine index sphs))
    (map matTypeOf (map (fun e => materialInt (Sphere.materialType (snd e))) sphs))
  = map PSph (numberedFrom reimportedSphere index sphs).
Proof.
  revert index. induction sphs as [| [id s] sphs IH]; intros index; [reflexivity |].
  cbn [bodyLines map app withMaterials numberedFrom snd setPrimMaterial].
  rewrite IH, split_ws_sphLine. reflexivity.
Qed.

(** The primitives read from the file exported for a scene. *)
Lemma importedPrims_exportText (cyls : obj Cylinder.t) (sphs : obj Sphere.t) :
  importedPrims (exportText cyls sphs)
  = map PCyl (numberedFrom reimportedCylinder 1 cyls)
    ++ map PSph (numberedFrom reimportedSphere (1 + List.length cyls) sphs).
Proof.
  rewrite importedPrims_cases, split_exportText, lastMaterialLine_exportLines,
    parsedPrims_exportLines.
  destruct (sceneCodes cyls sphs) as [| k codes] eqn:E.
  - unfold sceneCodes in E. apply app_eq_nil in E. destruct E as [Ec Es].
    apply map_eq_nil in Ec, Es. subst. reflexivity.
  - rewrite codesOf_materialLine, <- E.
    assert (Hlen : (List.length
                      (map (fun l => PCyl (parsedCylinder (split_ws l)))
                         (bodyLines rccLine 1 cyls)
                       ++ map (fun l => PSph (parsedSphere (split_ws l)))
                            (bodyLines sphLine (1 + List.length cyls) sphs))
                    =? List.length (sceneCodes cyls sphs))%nat = true).
    { apply Nat.eqb_eq. unfold sceneCodes.
      now rewrite !length_app, !length_map, !length_bodyLines. }
    rewrite Hlen. unfold sceneCodes.
    rewrite withMaterials_cylinders.
    rewrite <- (app_nil_r (map (fun e => materialInt (Sphere.materialType (snd e))) sphs)) at 1.
    rewrite app_nil_r. now rewrite withMaterials_spheres.
Qed.

Lemma nth_error_numberedFrom {A B} (f : nat -> A -> B) (o : obj A)
    (index i : nat) (id : string) (a : A) :
  nth_error o i = Some (id, a) ->
  nth_error (numberedFrom f index o) i = Some (f (index + i)%nat a).
Proof.
  revert index i. induction o as [| [k x] o IH]; intros index i H;
    [destruct i; discriminate |].
  destruct i as [| i]; cbn [nth_error numberedFrom] in *.
  - inversion H. now rewrite Nat.add_0_r.
  - rewrite (IH (S index) i H). do 2 f_equal. lia.
Qed.

Lemma cylindersFrom_cylinders (cs : list Cylinder.t) (rest : list prim)
    (ci i : nat) (c : Cylinder.t) :
  nth_error cs i = Some c ->
  nth_error (cylindersFrom (map PCyl cs ++ rest) ci) i = Some (cylinderId (ci + i), c).
Proof.
  revert ci i. induction cs as [| c0 cs IH]; intros ci i H; [destruct i; discriminate |].
  destruct i as [| i]; cbn [map app cylindersFrom nth_error] in *.
  - inversion H. now rewrite Nat.add_0_r.
  - rewrite (IH (S ci) i H). do 3 f_equal. lia.
Qed.

Lemma spheresFrom_spheres (cs : list Cylinder.t) (ss : list Sphere.t)
    (si i : nat) (s : Sphere.t) :
  nth_error ss i = Some s ->
  nth_error (spheresFrom (map PCyl cs ++ map PSph ss) si) i
  = Some (sphereId (si + i), s).
Proof.
  induction cs as [| c0 cs IH]; [| exact IH].
  cbn [map app]. revert si i.
  induction ss as [| s0 ss IH]; intros si i H; [destruct i; discriminate |].
  destruct i as [| i]; cbn [map spheresFrom nth_error] in *.
  - inversion H. now rewrite Nat.add_0_r.
  - rewrite (IH (S si) i H). do 3 f_equal. lia.
Qed.

Lemma reimportedSphere_finite (index : nat) (p : rvec) (r : R) (m : string) :
  reimportedSphere index (Sphere.mk (Num r) (inj p) m)
  = Sphere.mk (Num (round6 r)) (inj (round6v p)) (matTypeOf (materialInt m)).
Proof.
  destruct p as [[x y] z]. unfold reimportedSphere, parsedSphere, sphTokens.
  cbn [Sphere.position Sphere.radius Sphere.materialType inj nth setSphereMaterial
       round6v].
  now rewrite !parseFloat_toFixed.
Qed.

Lemma kept_material (m : string) :
  matTypeOf (materialInt m)
  = if (m =? "steel") || (m =? "wood") || (m =? "standard") then m
    else "concrete".
Proof.
  unfold materialInt, materialMap.
  destruct (String.eqb_spec m "concrete") as [-> | _]; [reflexivity |].
  destruct (String.eqb_spec m "steel") as [-> | _]; [reflexivity |].
  destruct (String.eqb_spec m "wood") as [-> | _]; [reflexivity |].
  destruct (String.eqb_spec m "standard") as [-> | _]; reflexivity.
Qed.

(** X16.  Through export and import of a scene whose material names are
    not members inherited from [Object.prototype], every finite sphere
    comes back in its place, as [sphere(i+1)], with its center and radius
    rounded to six decimals, and every cylinder and sphere comes back with
    its own material if that is steel, wood or standard, and with concrete
    otherwise. *)
Theorem roundtrip_spheres_and_materials (st st0 : AppState) (confirm : bool)
    (text : string) :
  forallb (fun e => negb (inheritedMember (Cylinder.materialType (snd e))))
          (cylinderParams st) = true ->
  forallb (fun e => negb (inheritedMember (Sphere.materialType (snd e))))
          (sphereParams st) = true ->
  handleExport st confirm = Some text ->
  let st' := fst (handleFileImport text st0) in
  let kept := fun m : string =>
    if (m =? "steel") || (m =? "wood") || (m =? "standard") then m
    else "concrete" in
  (forall i id p r m,
     nth_error (sphereParams st) i = Some (id, Sphere.mk (Num r) (inj p) m) ->
     nth_error (sphereParams st') i
     = Some (sphereId (S i),
             Sphere.mk (Num (round6 r)) (inj (round6v p)) (kept m)))
  /\ (forall i id c,
        nth_error (cylinderParams st) i = Some (id, c) ->
        exists c',
          nth_error (cylinderParams st') i = Some (cylinderId (S i), c')
          /\ Cylinder.materialType c' = kept (Cylinder.materialType c)).
Proof.
  intros _ _ Hexp st' kept.
  assert (Htext : text = exportText (cylinderParams st) (sphereParams st)).
  { unfold handleExport in Hexp. destruct (_ && _); [discriminate |].
    now inversion Hexp. }
  assert (Hst' : forall ps, importedPrims text = ps -> ps <> [] ->
                            st' = committedState ps).
  { intros ps E Hne. unfold st'. rewrite handleFileImport_spec, E.
    destruct ps; [contradiction | reflexivity]. }
  pose proof (importedPrims_exportText (cylinderParams st) (sphereParams st)) as Himp.
  rewrite <- Htext in Himp.
  split.
  - intros i id p r m Hi.
    rewrite (Hst' _ Himp).
    + cbn [committedState sphereParams].
      rewrite (spheresFrom_spheres _ _ 1 i
                 (reimportedSphere (1 + List.length (cylinderParams st) + i)
                    (Sphere.mk (Num r) (inj p) m))).
      * rewrite reimportedSphere_finite. unfold kept.
        now rewrite <- kept_material.
      * apply (nth_error_numberedFrom reimportedSphere _ _ i id _ Hi).
    + intros E. apply app_eq_nil in E. destruct E as [_ E]. apply map_eq_nil in E.
      destruct (sphereParams st) as [| [k s] o]; [destruct i |]; discriminate.
  - intros i id c Hi. exists (reimportedCylinder (S i) c).
    rewrite (Hst' _ Himp).
    + cbn [committedState cylinderParams].
      split; [| unfold kept; rewrite <- kept_material; reflexivity].
      rewrite (cylindersFrom_cylinders _ _ 1 i (reimportedCylinder (1 + i) c));
        [reflexivity |].
      apply (nth_error_numberedFrom reimportedCylinder _ _ i id _ Hi).
    + intros E. apply app_eq_nil in E. destruct E as [E _]. apply map_eq_nil in E.
      destruct (cylinderParams st) as [| [k s] o]; [destruct i |]; discriminate.
Qed.

(** The upright cylinder of plaster, a name the table does not hold, and a
    steel sphere: the sphere stays steel, the cylinder becomes concrete. *)
Lemma roundtrip_spheres_and_materials_witness :
  let st := mkAppState
              [("cylinder1"%string,
                Cylinder.mk (Num 1) (Num 1) (Num 2) (inj (0, 0, 0)%R)
                  (inj (0, 0, 0)%R) "plaster")]
              steelSphere "cylinder1" "cylinder" in
  let st' := fst (handleFileImport
                    (exportText (cylinderParams st) (sphereParams st))
                    initialState) in
  nth_error (sphereParams st') 0
  = Some (sphereId 1,
          Sphere.mk (Num (round6 1)) (inj (round6v (4, 0, 0)%R)) "steel")
  /\ exists c',
       nth_error (cylinderParams st') 0 = Some (cylinderId 1, c')
       /\ Cylinder.materialType c' = "concrete"%string.
Proof.
  intros st st'.
  destruct (roundtrip_spheres_and_materials st initialState true _
              eq_refl eq_refl (handleExport_confirmed _)) as (Hs & Hc).
  split.
  - exact (Hs 0%nat "sphere1"%string (4, 0, 0)%R 1%R "steel"%string eq_refl).
  - exact (Hc 0%nat "cylinder1"%string _ eq_refl).
Defined.

End SceneRoundTrip.

(** ** Lines the importer passes over *)

Section OtherLines.
Local Open Scope list_scope.

Lemma parsedPrims_relevant (ls : list string) :
  parsedPrims (filter relevantLine ls) = parsedPrims ls.
Proof.
  induction ls as [| l ls IH]; [reflexivity |].
  cbn [filter parsedPrims]. unfold relevantLine at 1.
  destruct (parseLine l) as [p |] eqn:E.
  - cbn [parsedPrims]. now rewrite E, IH.
  - destruct (isMaterialLine l); [| exact IH].
    cbn [parsedPrims]. now rewrite E, IH.
Qed.

Lemma lastCodesFrom_relevant (ls : list string) (codes : list N) :
  lastCodesFrom codes (filter relevantLine ls) = lastCodesFrom codes ls.
Proof.
  revert codes. induction ls as [| l ls IH]; intros codes; [reflexivity |].
  unfold lastCodesFrom in *. cbn [filter fold_left]. unfold relevantLine at 1.
  destruct (parseLine l) as [p |] eqn:E.
  - cbn [fold_left]. apply IH.
  - destruct (isMaterialLine l) eqn:M; [cbn [fold_left]; rewrite M |]; apply IH.
Qed.

Lemma importedPrims_unlines (ls : list string) :
  forallb no_LF ls = true ->
  importedPrims (unlines ls)
  = if (0 <? List.length (lastCodes ls))%nat
       && (List.length (parsedPrims ls) =? List.length (lastCodes ls))%nat
    then withMaterials (parsedPrims ls) (map matTypeOf (lastCodes ls))
    else parsedPrims ls.
Proof.
  intros H. unfold importedPrims. rewrite (split_on_unlines ls H).
  assert (Hp : parsedPrims (ls ++ [""%string]) = parsedPrims ls).
  { rewrite parsedPrims_app. apply app_nil_r. }
  assert (Hc : lastCodes (ls ++ [""%string]) = lastCodes ls).
  { unfold lastCodes, lastCodesFrom. now rewrite fold_left_app. }
  now rewrite Hp, Hc.
Qed.

Lemma no_LF_filter (f : string -> bool) (ls : list string) :
  forallb no_LF ls = true -> forallb no_LF (filter f ls) = true.
Proof.
  induction ls as [| l ls IH]; [reflexivity |]. cbn [forallb filter].
  intros H. apply andb_prop in H. destruct H as [Hl Hls].
  destruct (f l); [cbn [forallb]; rewrite Hl |]; now apply IH.
Qed.

(** X17.  The importer acts on recognised [rcc] and [sph] records and on
    lines of integers only: every other line ([end body], zone lines, the
    footer, records that are too short, anything else) can be dropped from
    the file, or added to it, without changing what the import does. *)
Theorem import_ignores_other_lines (ls : list string) (st : AppState) :
  forallb no_LF ls = true ->
  handleFileImport (unlines ls) st
  = handleFileImport (unlines (filter relevantLine ls)) st.
Proof.
  intros H. rewrite !handleFileImport_spec.
  rewrite (importedPrims_unlines ls H).
  rewrite (importedPrims_unlines _ (no_LF_filter relevantLine ls H)).
  unfold lastCodes. now rewrite parsedPrims_relevant, lastCodesFrom_relevant.
Qed.

Lemma import_ignores_other_lines_witness :
  handleFileImport
    (unlines ["model of a ball"; "sph 1 0 0 0 1"; "rcc 2 0 0 0"; "end body";
              "2"; "oesnt worend geom"]%string) initialState
  = handleFileImport (unlines ["sph 1 0 0 0 1"; "2"]%string) initialState.
Proof.
  exact (import_ignores_other_lines
           ["model of a ball"; "sph 1 0 0 0 1"; "rcc 2 0 0 0"; "end body";
            "2"; "oesnt worend geom"]%string initialState eq_refl).
Defined.

End OtherLines.

(** ** The first version *)

Section FirstVersion.
Local Open Scope list_scope.

Lemma list_prod_nil_r {A B} (l : list A) : list_prod l (@nil B) = [].
Proof. induction l as [| x l IH]; [reflexivity | exact IH]. Qed.

(** The helpers of the first version compute what those of the second
    do. *)
Lemma V1_eulerToDirection (rot : vec3) :
  V1.eulerToDirection rot = eulerToDirection rot.
Proof. reflexivity. Qed.

Lemma V1_checkCylinderCollision (cyl1 cyl2 : Cylinder.t) :
  V1.checkCylinderCollision cyl1 cyl2 = checkCylinderCollision cyl1 cyl2.
Proof. reflexivity. Qed.

Lemma V1_exportCylinder (acc : string * nat) (entry : string * Cylinder.t) :
  V1.exportCylinder acc entry = exportCylinder acc entry.
Proof. reflexivity. Qed.

Lemma V1_materialInt (m : string) : V1.materialInt m = materialInt m.
Proof. reflexivity. Qed.

Lemma V1_exportMaterial (acc : string * nat) (entry : string * Cylinder.t) :
  V1.exportMaterial acc entry = exportMaterial Cylinder.materialType acc entry.
Proof. reflexivity. Qed.

Lemma fold_left_same {A B} (f g : A -> B -> A) (l : list B) (a : A) :
  (forall x y, f x y = g x y) -> fold_left f l a = fold_left g l a.
Proof.
  intros H. revert a. induction l as [| b l IH]; intros a; [reflexivity |].
  cbn [fold_left]. now rewrite H, IH.
Qed.

Lemma filter_same {A} (f g : A -> bool) (l : list A) :
  (forall x, f x = g x) -> filter f l = filter g l.
Proof.
  intros H. induction l as [| a l IH]; [reflexivity |].
  cbn [filter]. now rewrite H, IH.
Qed.

Lemma V1_detectCollisions (cyls : obj Cylinder.t) :
  V1.detectCollisions cyls = detectCollisions cyls [].
Proof.
  unfold V1.detectCollisions, detectCollisions.
  change (keys (@nil (string * Sphere.t))) with (@nil string).
  rewrite list_prod_nil_r. cbn [pairs filter]. rewrite !app_nil_r.
  apply filter_same. intros [a b]. unfold checkById.
  destruct (get cyls (fst (a, b))), (get cyls (snd (a, b))); reflexivity.
Qed.

Lemma V1_exportText (cyls : obj Cylinder.t) :
  V1.exportText cyls = exportText cyls [].
Proof.
  unfold V1.exportText, exportText. cbn [fold_left].
  rewrite (fold_left_same V1.exportCylinder exportCylinder cyls _
             V1_exportCylinder).
  destruct (fold_left exportCylinder cyls _) as [s1 i1].
  rewrite (fold_left_same V1.exportZone exportZone cyls _
             (fun x y => eq_refl)).
  destruct (fold_left exportZone cyls _) as [s2 i2].
  rewrite (fold_left_same V1.exportMaterial
             (exportMaterial Cylinder.materialType) cyls _ V1_exportMaterial).
  destruct (fold_left (exportMaterial Cylinder.materialType) cyls _) as [s3 i3].
  reflexivity.
Qed.

(** X18.  The first version, embedded from its own lines, computes what the
    second does for the same cylinders and no sphere: the same direction
    vectors, the same answers of the cylinder test, the same list of
    collisions, the same warning decision and the same file; the second
    version reads a file of the first as it reads its own. *)
Theorem V1_export_is_export_without_spheres (st : V1.AppState) (confirm : bool)
    (selected type : string) :
  (forall rot : vec3, V1.eulerToDirection rot = eulerToDirection rot)
  /\ (forall cyl1 cyl2 : Cylinder.t,
        V1.checkCylinderCollision cyl1 cyl2 = checkCylinderCollision cyl1 cyl2)
  /\ V1.detectCollisions (V1.cylinderParams st)
     = detectCollisions (V1.cylinderParams st) []
  /\ V1.handleExport st confirm
     = handleExport (mkAppState (V1.cylinderParams st) [] selected type) confirm
  /\ (forall (text : string) (st0 : AppState),
        V1.handleExport st confirm = Some text ->
        handleFileImport text st0
        = handleFileImport (exportText (V1.cylinderParams st) []) st0).
Proof.
  split; [exact V1_eulerToDirection |].
  split; [exact V1_checkCylinderCollision |].
  split; [apply V1_detectCollisions |].
  split.
  - unfold V1.handleExport, handleExport. cbn [cylinderParams sphereParams].
    now rewrite V1_detectCollisions, V1_exportText.
  - intros text st0 H. unfold V1.handleExport in H.
    destruct (_ && _); [discriminate |].
    inversion H. now rewrite V1_exportText.
Qed.

Lemma V1_importLine_rccLine (st : V1.ImportState) (index : nat) (c : Cylinder.t) :
  V1.importLine st (rccLine index c)
  = V1.mkImportState
      (set (V1.newCylinderParams st) (cylinderId (V1.index st))
         (V1parsedCylinder (rccTokens index c)))
      (S (V1.index st)).
Proof.
  destruct (rccTokens_tokens index c) as (Htok & Hlen).
  unfold V1.importLine, rccLine.
  rewrite trim_join by exact Htok.
  unfold split_ws. rewrite split_ws_join; [| | exact Htok].
  - assert (Hrcc : startsWith (join_sp (rccTokens index c)) "rcc" = true).
    { destruct (rccTokens_head index c) as (ts & E). now rewrite E. }
    now rewrite Hrcc, Hlen.
  - intros E. rewrite E in Hlen. discriminate.
Qed.

Lemma V1_importLine_skip (st : V1.ImportState) (l : string) :
  startsWith (trim l) "rcc" = false -> V1.importLine st l = st.
Proof. intros H. unfold V1.importLine. now rewrite H. Qed.

Lemma not_rcc (c : ascii) (s : string) :
  is_space c = false -> c <> "r"%char ->
  startsWith (trim (String c s)) "rcc" = false.
Proof.
  intros Hsp Hr. unfold trim. cbn [trimStart]. rewrite Hsp.
  cbn [trimEnd]. rewrite Hsp. cbn [andb]. unfold startsWith. cbn -[ascii_dec].
  destruct (ascii_dec "r" c) as [E | _]; [congruence | reflexivity].
Qed.

Lemma V1_import_skip_all (ls : list string) (st : V1.ImportState) :
  Forall (fun l => startsWith (trim l) "rcc" = false) ls ->
  fold_left V1.importLine ls st = st.
Proof.
  induction 1 as [| l ls Hl Hls IH]; [reflexivity |].
  cbn [fold_left]. now rewrite V1_importLine_skip.
Qed.

Lemma V1_import_bodies (cyls : obj Cylinder.t) (acc : obj Cylinder.t) (idx : nat) :
  (forall j, (idx <= j)%nat -> ~ In (cylinderId j) (keys acc)) ->
  fold_left V1.importLine (bodyLines rccLine idx cyls) (V1.mkImportState acc idx)
  = V1.mkImportState
      (acc ++ numberedFrom
                (fun i c => (cylinderId i, V1parsedCylinder (rccTokens i c)))
                idx cyls)
      (idx + List.length cyls).
Proof.
  revert acc idx. induction cyls as [| [id c] cyls IH]; intros acc idx Hfresh.
  - cbn [bodyLines fold_left numberedFrom List.length].
    now rewrite app_nil_r, Nat.add_0_r.
  - cbn [bodyLines fold_left numberedFrom List.length].
    rewrite V1_importLine_rccLine. cbn [V1.newCylinderParams V1.index].
    rewrite set_fresh by (apply Hfresh; lia).
    rewrite IH.
    + rewrite <- app_assoc. cbn [app]. f_equal. lia.
    + intros j Hj. unfold keys. rewrite map_app, in_app_iff. cbn [map fst In].
      intros [H | [H | []]].
      * apply (Hfresh j); [lia | exact H].
      * apply cylinderId_inj in H. lia.
Qed.

Lemma materialLine_not_rcc (codes : list N) :
  startsWith (trim (materialLine codes)) "rcc" = false.
Proof.
  destruct codes as [| k codes]; [reflexivity |].
  cbn [materialLine]. destruct (decimal_head k) as (c & r & -> & Hc).
  cbn [append]. apply not_rcc; [now apply is_digit_not_space |].
  now apply digit_not_r_s.
Qed.

Lemma V1_import_exportText (cyls : obj Cylinder.t) :
  fold_left V1.importLine (split_on "010" (V1.exportText cyls))
    (V1.mkImportState [] 1)
  = V1.mkImportState
      (numberedFrom (fun i c => (cylinderId i, V1parsedCylinder (rccTokens i c)))
         1 cyls)
      (1 + List.length cyls).
Proof.
  rewrite V1_exportText, split_exportText. unfold exportLines.
  rewrite <- app_assoc, fold_left_app.
  rewrite V1_import_bodies by (intros j _ []).
  cbn [app bodyLines]. apply V1_import_skip_all.
  apply Forall_forall. intros l Hl.
  repeat (rewrite in_app_iff in Hl || cbn [In] in Hl).
  repeat match type of Hl with _ \/ _ => destruct Hl as [Hl | Hl] end;
    try (subst l; reflexivity); try contradiction.
  - apply in_map_iff in Hl. destruct Hl as (i & <- & _). now apply not_rcc.
  - subst l. apply materialLine_not_rcc.
Qed.

Lemma V1parsedCylinder_rccTokens (index : nat) (p rot d : rvec) (h r : R)
    (rb : number) (m : string) :
  eulerToDirection (map3 (fun v => v * Math.PI)%num (inj rot)) = inj d ->
  V1parsedCylinder (rccTokens index (Cylinder.mk (Num r) rb (Num h) (inj rot) (inj p) m))
  = V1reimported p d h r.
Proof.
  intros Hd. unfold V1parsedCylinder, V1reimported, rccTokens.
  cbn [Cylinder.rotation Cylinder.position Cylinder.height Cylinder.radiusTop].
  rewrite Hd. destruct d as [[dx dy] dz], p as [[px py] pz].
  cbn [inj nth sub mul lift2]. rewrite !parseFloat_toFixed.
  cbn [vscale round6v inj axisStart vsub].
  rewrite !div_Num by lra. now rewrite !(Rmult_comm h).
Qed.

(** X19.  In the first version import does not undo export.  The exporter
    writes base, axis vector and radius; the importer reads pieces 5 and 6 as
    the angles about X and Y, pieces 7 and 8 as the top and bottom diameters,
    and gives every cylinder the height 2.  A finite cylinder comes back at
    its rounded base with half its radius below, half the Z component of its
    axis vector as upper radius, and the X and Y components as angles; an
    upright one comes back with upper radius 0. *)
Theorem V1_import_misreads_export (st st0 : V1.AppState) (confirm : bool)
    (text : string) (i : nat) (id : string) (p rot d : rvec) (h r : R)
    (rb : number) (m : string) :
  V1.handleExport st confirm = Some text ->
  nth_error (V1.cylinderParams st) i
  = Some (id, Cylinder.mk (Num r) rb (Num h) (inj rot) (inj p) m) ->
  eulerToDirection (map3 (fun v => v * Math.PI)%num (inj rot)) = inj d ->
  snd (V1.handleFileImport text st0) = None
  /\ nth_error (V1.cylinderParams (fst (V1.handleFileImport text st0))) i
     = Some (cylinderId (S i), V1reimported p d h r)
  /\ (d = (0, 1, 0)%R -> Cylinder.radiusTop (V1reimported p d h r) = Num 0).
Proof.
  intros Hexp Hi Hd.
  assert (Htext : text = V1.exportText (V1.cylinderParams st)).
  { unfold V1.handleExport in Hexp. destruct (_ && _); [discriminate |].
    now inversion Hexp. }
  subst text. unfold V1.handleFileImport. rewrite V1_import_exportText.
  cbn [V1.newCylinderParams].
  pose proof (nth_error_numberedFrom
                (fun i c => (cylinderId i, V1parsedCylinder (rccTokens i c)))
                (V1.cylinderParams st) 1 i id _ Hi) as Hnth.
  cbn beta in Hnth. rewrite (V1parsedCylinder_rccTokens (1 + i) p rot d h r rb m Hd) in Hnth.
  destruct (numberedFrom _ 1 (V1.cylinderParams st)) as [| e es] eqn:E.
  - destruct i; discriminate.
  - cbn [keys map List.length Nat.ltb Nat.leb fst snd V1.cylinderParams].
    split; [reflexivity |]. split; [exact Hnth |].
    intros ->. unfold V1reimported. cbn [vscale round6v Cylinder.radiusTop].
    rewrite Rmult_0_r, round6_0. f_equal. lra.
Qed.

Lemma V1_import_misreads_export_witness :
  exists c' : Cylinder.t,
    nth_error
      (V1.cylinderParams
         (fst (V1.handleFileImport (V1.exportText uprightScene)
                 (V1.mkAppState uprightScene "cylinder1")))) 0
    = Some ("cylinder1"%string, c')
    /\ Cylinder.radiusTop c' = Num 0 /\ Cylinder.height c' = Num 2.
Proof.
  assert (Hexp : V1.handleExport (V1.mkAppState uprightScene "cylinder1") true
                 = Some (V1.exportText uprightScene)).
  { unfold V1.handleExport. now rewrite andb_false_r. }
  destruct (V1_import_misreads_export
              (V1.mkAppState uprightScene "cylinder1")
              (V1.mkAppState uprightScene "cylinder1") true _ 0 "cylinder1"%string
              (0, 0, 0)%R (0, 0, 0)%R (0, 1, 0)%R 2%R 1%R (Num 1) "concrete"%string
              Hexp eq_refl eulerToDirection_zero) as (_ & Hnth & Hr).
  eexists. split; [exact Hnth |]. split; [now apply Hr | reflexivity].
Defined.

End FirstVersion.

(** ** A second round trip *)

Section SecondRoundTrip.
Local Open Scope R_scope.












End SecondRoundTrip.

(** ** What the importer does not read *)

Section UnreadPieces.
Local Open Scope list_scope.

Lemma join_sp_cons2 (a b : string) (ts : list string) :
  join_sp (a :: b :: ts) = (a ++ " " ++ join_sp (b :: ts))%string.
Proof. reflexivity. Qed.

Lemma token_with_prefix (k w : string) :
  is_token k = true -> all_chars (fun c => negb (is_space c)) w = true ->
  is_token (k ++ w) = true.
Proof.
  intros Hk Hw. apply is_token_spec in Hk. destruct Hk as [Hne Hsp].
  apply is_token_spec. split.
  - intros E. apply append_eq_nil in E. tauto.
  - now rewrite all_chars_append, Hsp, Hw.
Qed.

Lemma startsWith_keyword (k w t : string) (rest : list string) :
  String.length k = 3%nat ->
  startsWith (join_sp ((k ++ w)%string :: t :: rest)) k = true.
Proof.
  intros Hk.
  destruct k as [| a [| b [| c [| d k]]]]; try discriminate.
  unfold startsWith, join_sp. cbn [concat append prefix].
  repeat match goal with
         | |- context [ascii_dec ?x ?x] =>
             destruct (ascii_dec x x); [| congruence]
         end.
  destruct w; reflexivity.
Qed.

Lemma startsWith_other_keyword (w t : string) (rest : list string) :
  startsWith (join_sp (("sph" ++ w)%string :: t :: rest)) "rcc" = false.
Proof. reflexivity. Qed.

(** X21.  Of the first piece of a record line the importer reads the first
    three characters only, and it never reads the second piece: [rccx] or
    [sphere] in place of [rcc] or [sph], and any index, import as the plain
    record does. *)
Theorem import_reads_prefix_only (st : ImportState) (w t1 t1' : string)
    (rest : list string) :
  all_chars (fun c => negb (is_space c)) w = true ->
  is_token t1 = true -> is_token t1' = true -> forallb is_token rest = true ->
  importLine st (join_sp (("rcc" ++ w)%string :: t1 :: rest))
  = importLine st (join_sp ("rcc" :: t1' :: rest))
  /\ importLine st (join_sp (("sph" ++ w)%string :: t1 :: rest))
     = importLine st (join_sp ("sph" :: t1' :: rest)).
Proof.
  intros Hw H1 H1' Hrest.
  assert (Htok : forall k t, is_token k = true -> is_token t = true ->
            forallb is_token ((k ++ w)%string :: t :: rest) = true).
  { intros k t Hk Ht. cbn [forallb].
    now rewrite (token_with_prefix k w Hk Hw), Ht, Hrest. }
  assert (Hplain : forall k t, is_token k = true -> is_token t = true ->
            forallb is_token (k :: t :: rest) = true).
  { intros k t Hk Ht. cbn [forallb]. now rewrite Hk, Ht, Hrest. }
  unfold importLine. cbv zeta.
  rewrite !trim_join
    by (apply Htok || apply Hplain; (reflexivity || assumption)).
  pose proof (startsWith_keyword "rcc" w t1 rest eq_refl) as R1.
  pose proof (startsWith_keyword "rcc" "" t1' rest eq_refl) as R2.
  pose proof (startsWith_keyword "sph" w t1 rest eq_refl) as S1.
  pose proof (startsWith_keyword "sph" "" t1' rest eq_refl) as S2.
  change ("rcc" ++ "")%string with "rcc" in R2.
  change ("sph" ++ "")%string with "sph" in S2.
  split.
  - rewrite R1, R2.
    unfold importCylinder, split_ws. cbv zeta.
    rewrite !split_ws_join
      by (discriminate || apply Htok || apply Hplain; (reflexivity || assumption)).
    reflexivity.
  - rewrite (startsWith_other_keyword w t1 rest), S1.
    change (startsWith (join_sp ("sph" :: t1' :: rest)) "rcc") with false.
    rewrite S2.
    unfold importSphere, split_ws. cbv zeta.
    rewrite !split_ws_join
      by (discriminate || apply Htok || apply Hplain; (reflexivity || assumption)).
    reflexivity.
Qed.

(** A line with a longer keyword and another index imports as the exported
    record does. *)
Lemma import_reads_prefix_only_witness :
  importLine initialImportState "rccx 7 0 0 0 0 2 0 1"
  = importLine initialImportState "rcc 1 0 0 0 0 2 0 1"
  /\ importLine initialImportState "sphx 7 0 0 0 0 2 0 1"
     = importLine initialImportState "sph 1 0 0 0 0 2 0 1".
Proof.
  exact (import_reads_prefix_only initialImportState "x" "7" "1"
           ["0"; "0"; "0"; "0"; "2"; "0"; "1"]
           eq_refl eq_refl eq_refl eq_refl).
Defined.

End UnreadPieces.
